(** * gcp-sa-key-checker: the key-kind classifier and the fetch phases

    A shallow embedding of the Go sources
      - keytype.go: the kinds, their precedence order, the validity
        constants and GAIA_ID;
      - the file of Signal and SAKey: the four checks and determineKeyKind;
      - the file of parllelMap;
      - the file of KeyCollection: FetchObservedKeys, FetchGroundTruthKeys,
        FetchKeys, the bad-principal list and WritePublicKeysToDir;
      - sakey_x509.go: getServiceAccountKeyCerts, and the command itself:
        the flags, getTargetServiceAccounts, decideOutputMode and main;
      - api.go: getServiceAccountKeys and the two listings of principals;
    followed by the properties proved about them.

    Go values are modelled as the code has them: kinds are strings, the
    enumerated x509 constants are integers, [time.Duration] is an int64 count
    of nanoseconds, a nil-able map is an [option] of a [gmap], a Go [error]
    is the [option] of its text, and a panic is the [Panic] outcome of
    [Result]. *)

From Stdlib Require Import ZArith Lia Ascii String List.
From stdpp Require Import base option list gmap strings.

Local Open Scope string_scope.
Local Open Scope Z_scope.

(** ** Outcomes: a Go call returns, panics, or ends the process *)

Inductive Result (A : Type) : Type :=
| Ok (a : A)            (* the call returns [a] *)
| Panic (msg : string)  (* the call panics: the process aborts *)
| Exit (code : Z).      (* the call reaches os.Exit(code) *)
Arguments Ok {A} a.
Arguments Panic {A} msg.
Arguments Exit {A} code.

(** Sequencing stops at the first panic; [x ← m; k] is stdpp's bind notation. *)
#[global] Instance Result_ret : MRet Result := fun A a => Ok a.
#[global] Instance Result_bind : MBind Result := fun A B f m =>
  match m with
  | Ok a => f a
  | Panic msg => Panic msg
  | Exit code => Exit code
  end.

(** ** time: the part of Go's [time] package the checks use *)

(** [time.Duration] is an int64 count of nanoseconds. *)
Abbreviation Duration := Z (only parsing).

Definition Nanosecond : Duration := 1.
Definition Microsecond : Duration := 1000 * Nanosecond.
Definition Millisecond : Duration := 1000 * Microsecond.
Definition Second : Duration := 1000 * Millisecond.
Definition Minute : Duration := 60 * Second.
Definition Hour : Duration := 60 * Minute.

Definition minDuration : Duration := - 2 ^ 63.
Definition maxDuration : Duration := 2 ^ 63 - 1.

(** Two's-complement wrap-around of int64 arithmetic. *)
Definition wrap64 (z : Z) : Z := (z + 2 ^ 63) mod 2 ^ 64 - 2 ^ 63.

(** A [time.Time] without monotonic reading (parsed and constructed times
    have none): the instant as seconds since the Unix epoch plus nanoseconds
    in [0, 10^9), and the [*Location] pointer, which [setLoc] stores as nil
    ([None]) for UTC. Go's [==] on [time.Time] compares all three. *)
Record Time : Type := {
  unixSec : Z;
  nsec : Z;
  loc : option positive
}.

Definition Time_eqb (t u : Time) : bool :=
  (unixSec t =? unixSec u) && (nsec t =? nsec u)
  && match loc t, loc u with
     | None, None => true
     | Some p, Some q => Pos.eqb p q
     | _, _ => false
     end.

Definition Time_Equal (t u : Time) : bool :=
  (unixSec t =? unixSec u) && (nsec t =? nsec u).

Definition Time_Before (t u : Time) : bool :=
  (unixSec t <? unixSec u) || ((unixSec t =? unixSec u) && (nsec t <? nsec u)).

Definition Time_Add (t : Time) (d : Duration) : Time :=
  let total := nsec t + d in
  {| unixSec := unixSec t + total / Second;
     nsec := total mod Second;
     loc := loc t |}.

(** [t.Sub(u)]: the int64 difference, checked by adding it back, and
    saturated to [minDuration] / [maxDuration] when it does not fit. *)
Definition Time_Sub (t u : Time) : Duration :=
  let d := wrap64 ((unixSec t - unixSec u) * Second + (nsec t - nsec u)) in
  if Time_Equal (Time_Add u d) t then d
  else if Time_Before t u then minDuration
  else maxDuration.

(** Days from 1970-01-01 to the given proleptic Gregorian date. *)
Definition daysFromCivil (y m d : Z) : Z :=
  let y' := if m <=? 2 then y - 1 else y in
  let era := y' / 400 in
  let yoe := y' - era * 400 in
  let doy := (153 * (if 2 <? m then m - 3 else m + 9) + 2) / 5 + d - 1 in
  let doe := yoe * 365 + yoe / 4 - yoe / 100 + doy in
  era * 146097 + doe - 719468.

(** [time.Date(year, month, day, hour, min, sec, nsec, time.UTC)] for
    in-range fields. *)
Definition time_Date_UTC (year month day hour min sec ns : Z) : Time :=
  {| unixSec := daysFromCivil year month day * 86400 + hour * 3600 + min * 60 + sec;
     nsec := ns;
     loc := None |}.

Definition December : Z := 12.

(** ** fmt: formatted text, kept as the call that builds it *)

(** The texts of signals and errors are built by [fmt.Sprintf] and
    [fmt.Errorf]; they are kept here as the format string and its operands,
    not rendered. [Joined] is the error of [errors.Join]. *)
Unset Elimination Schemes.
Inductive fmt_value : Type :=
| vString (s : string)
| vInt (z : Z)
| vDuration (d : Duration)
| vTime (t : Time)
| vInts (l : list Z)
| vHeaders (h : list (string * string))
| vError (e : Text)
with Text : Type :=
| Lit (s : string)
| Sprintf (format : string) (args : list fmt_value)
| Joined (errs : list Text).
Set Elimination Schemes.

(** A Go [error] value: [None] is nil, [Some t] an error whose [Error()]
    text is [t]. *)
Abbreviation error := (option Text) (only parsing).

Definition fmt_Errorf (format : string) (args : list fmt_value) : error :=
  Some (Sprintf format args).

(** [errors.Join]: nil when every operand is nil, else the non-nil operands
    in order. *)
Definition errors_Join (errs : list error) : error :=
  match omap id errs with
  | [] => None
  | e :: es => Some (Joined (e :: es))
  end.

(** ** crypto/x509: the certificate fields the checks read *)

(** The dynamic type held by [Certificate.PublicKey] (declared [any]). *)
Inductive PublicKey : Type :=
| rsa_PublicKey (N : Z) (E : Z)       (* *rsa.PublicKey *)
| dsa_PublicKey (Y : Z)               (* *dsa.PublicKey *)
| ecdsa_PublicKey (X Y : Z)           (* *ecdsa.PublicKey *)
| ed25519_PublicKey (key : string)    (* ed25519.PublicKey *)
| nil_PublicKey.                      (* nil: unsupported algorithm *)

Definition dynamic_type (pk : PublicKey) : string :=
  match pk with
  | rsa_PublicKey _ _ => "*rsa.PublicKey"
  | dsa_PublicKey _ => "*dsa.PublicKey"
  | ecdsa_PublicKey _ _ => "*ecdsa.PublicKey"
  | ed25519_PublicKey _ => "ed25519.PublicKey"
  | nil_PublicKey => "nil"
  end.

(** x509.PublicKeyAlgorithm *)
Definition x509_UnknownPublicKeyAlgorithm : Z := 0.
Definition x509_RSA : Z := 1.
Definition x509_DSA : Z := 2.
Definition x509_ECDSA : Z := 3.
Definition x509_Ed25519 : Z := 4.

(** x509.SignatureAlgorithm *)
Definition x509_SHA1WithRSA : Z := 3.
Definition x509_SHA256WithRSA : Z := 4.
Definition x509_ECDSAWithSHA256 : Z := 10.

(** x509.ExtKeyUsage and x509.KeyUsage *)
Definition x509_ExtKeyUsageServerAuth : Z := 1.
Definition x509_ExtKeyUsageClientAuth : Z := 2.
Definition x509_KeyUsageDigitalSignature : Z := 1.

Record pkix_Name : Type := { CommonName : string }.

Record Certificate : Type := {
  Raw : string;
  SerialNumber : Z;
  Subject : pkix_Name;
  Issuer : pkix_Name;
  NotBefore : Time;
  NotAfter : Time;
  PublicKeyAlgorithm : Z;
  PublicKey_ : PublicKey;
  SignatureAlgorithm : Z;
  KeyUsage : Z;
  ExtKeyUsage : list Z
}.

(** [BitLen] of a [big.Int]: the length of the absolute value in bits, 0 for 0. *)
Definition BitLen (n : Z) : Z :=
  if n =? 0 then 0 else Z.log2 (Z.abs n) + 1.

(** ** keytype.go *)

Definition GOOGLE_PROVIDED_SYSTEM_MANAGED : string := "GOOGLE_PROVIDED/SYSTEM_MANAGED".
Definition GOOGLE_PROVIDED_USER_MANAGED : string := "GOOGLE_PROVIDED/USER_MANAGED".
Definition USER_PROVIDED_USER_MANAGED : string := "USER_PROVIDED/USER_MANAGED".

Definition keyKindPrecedence : list string :=
  [ USER_PROVIDED_USER_MANAGED;
    GOOGLE_PROVIDED_USER_MANAGED;
    GOOGLE_PROVIDED_SYSTEM_MANAGED ].

(** [slices.Index]: position of the first element equal to [v], or -1. *)
Fixpoint slices_Index_from (i : Z) (s : list string) (v : string) : Z :=
  match s with
  | [] => -1
  | x :: rest => if String.eqb x v then i else slices_Index_from (i + 1) rest v
  end.

Definition slices_Index (s : list string) (v : string) : Z :=
  slices_Index_from 0 s v.

Definition keyTypeAndOriginToMuxedKeyKind (keyType keyOrigin : string) : Result string :=
  let res := keyOrigin ++ "/" ++ keyType in
  if slices_Index keyKindPrecedence res =? -1
  then Panic ("Invalid key type and origin combination: " ++ res)
  else Ok res.

Definition googleProvidedSystemManagedValidityV1 : Duration := Hour * 396 + Minute * 15.
Definition googleProvidedSystemManagedValidityV2Min : Duration := Hour * 24 * 365 * 2.
Definition googleProvidedSystemManagedValidityV2Max : Duration := Hour * 24 * (365 * 2 + 31).
Definition defaultMaxAfter : Time := time_Date_UTC 9999 December 31 23 59 59 0.
Definition legacyGoogleProvidedUserManagedValidity : Duration := 87600 * Hour.

Definition serviceAccountKeyExpiryHours : list Duration :=
  [ Hour * 1; Hour * 8; Hour * 24; Hour * 168;
    Hour * 336; Hour * 720; Hour * 1440; Hour * 2160 ].

(** [slices.Contains] on durations. *)
Definition slices_Contains_Z (s : list Z) (v : Z) : bool :=
  existsb (fun x => x =? v) s.

Definition is_digit (c : ascii) : bool :=
  let n := nat_of_ascii c in (48 <=? n)%nat && (n <=? 57)%nat.

Fixpoint all_digits (s : string) : bool :=
  match s with
  | EmptyString => true
  | String c rest => is_digit c && all_digits rest
  end.

(** [GAIA_ID.MatchString] for [GAIA_ID = regexp.MustCompile("^1[0-9]{20}$")]:
    the whole text is a "1" followed by exactly twenty decimal digits. *)
Definition GAIA_ID_MatchString (v : string) : bool :=
  match v with
  | String c rest =>
      Ascii.eqb c "1" && (String.length rest =? 20)%nat && all_digits rest
  | EmptyString => false
  end.

(** Really 6000, with some buffer left. *)
Definition IAMReadRequestsPerMinutePerProjectMax : Z := 5500.
Definition MaxInflightX509 : Z := 64.

(** ** strings: [Replace] and [SplitAfter] as the code calls them *)

(** [strings.Replace(s, old, new, n)] for a one-byte [old] and [n >= 0]:
    the first [n] occurrences of [old], left to right, become [new]. *)
Fixpoint strings_Replace (s : string) (old : ascii) (new : string) (n : nat) : string :=
  match n with
  | O => s
  | S n' =>
      match s with
      | EmptyString => EmptyString
      | String c rest =>
          if Ascii.eqb c old
          then new ++ strings_Replace rest old new n'
          else String c (strings_Replace rest old new n)
      end
  end.

(** [s[:n]]. *)
Definition slice_to (s : string) (n : nat) : string := substring 0 n s.

(** [s[n:]]. *)
Definition slice_from (s : string) (n : nat) : string :=
  substring n (String.length s - n) s.

(** [strings.SplitAfter(s, sep)] for a non-empty [sep]: cut after each
    occurrence of [sep]; the recursion is bounded by the length of [s]. *)
Fixpoint SplitAfter_fuel (fuel : nat) (s sep : string) : list string :=
  match fuel with
  | O => [s]
  | S fuel' =>
      match index 0 sep s with
      | None => [s]
      | Some i =>
          let cut := (i + String.length sep)%nat in
          slice_to s cut :: SplitAfter_fuel fuel' (slice_from s cut) sep
      end
  end.

Definition strings_SplitAfter (s sep : string) : list string :=
  SplitAfter_fuel (String.length s) s sep.

(** ** Signal, SAKey and the checks *)

Record Signal : Type := {
  keyKind : string;
  explanation : Text
}.

Record SAKey : Type := {
  serviceAccount : string;
  cert : Certificate;
  signals : list Signal;
  SAKey_keyKind : string
}.

Definition NewSAKey (serviceAccount : string) (cert : Certificate) : SAKey :=
  {| serviceAccount := serviceAccount;
     cert := cert;
     signals := [];
     SAKey_keyKind := "" |}.

(** [k.signals = append(k.signals, s)] *)
Definition append_signal (k : SAKey) (s : Signal) : SAKey :=
  {| serviceAccount := serviceAccount k;
     cert := cert k;
     signals := signals k ++ [s];
     SAKey_keyKind := SAKey_keyKind k |}.

Definition CheckValidityPeriod (k : SAKey) : SAKey :=
  let validityWindow := Time_Sub (NotAfter (cert k)) (NotBefore (cert k)) in
  if Time_eqb (NotAfter (cert k)) defaultMaxAfter then
    append_signal k
      {| keyKind := GOOGLE_PROVIDED_USER_MANAGED;
         explanation := Sprintf "Certificate has a NotAfter date of %v"
                          [vTime (NotAfter (cert k))] |}
  else if validityWindow =? legacyGoogleProvidedUserManagedValidity then
    append_signal k
      {| keyKind := GOOGLE_PROVIDED_USER_MANAGED;
         explanation := Sprintf "Certificate has a legacy 10y validity period of %v"
                          [vDuration validityWindow] |}
  else if validityWindow =? googleProvidedSystemManagedValidityV1 then
    append_signal k
      {| keyKind := GOOGLE_PROVIDED_SYSTEM_MANAGED;
         explanation := Sprintf "Certificate has standard validity period of %v"
                          [vDuration validityWindow] |}
  else if slices_Contains_Z serviceAccountKeyExpiryHours validityWindow then
    append_signal k
      {| keyKind := GOOGLE_PROVIDED_USER_MANAGED;
         explanation := Sprintf "Certificate has a validity period in constraints/iam.serviceAccountKeyExpiryHours of %v"
                          [vDuration validityWindow] |}
  else if (googleProvidedSystemManagedValidityV2Min <? validityWindow)
          && (validityWindow <? googleProvidedSystemManagedValidityV2Max) then
    append_signal k
      {| keyKind := GOOGLE_PROVIDED_SYSTEM_MANAGED;
         explanation := Sprintf "Certificate has a validity period of %v which is between %v and %v"
                          [vDuration validityWindow;
                           vDuration googleProvidedSystemManagedValidityV2Min;
                           vDuration googleProvidedSystemManagedValidityV2Max] |}
  else
    append_signal k
      {| keyKind := USER_PROVIDED_USER_MANAGED;
         explanation := Sprintf "Certificate does not have a standard GCP validity window: %v (%v to %v)"
                          [vDuration validityWindow;
                           vTime (NotBefore (cert k));
                           vTime (NotAfter (cert k))] |}.

Definition CheckExtensions (k : SAKey) : SAKey :=
  let k1 :=
    if negb (length (ExtKeyUsage (cert k)) =? 1)%nat
       || negb (nth 0 (ExtKeyUsage (cert k)) 0 =? x509_ExtKeyUsageClientAuth)
    then append_signal k
           {| keyKind := USER_PROVIDED_USER_MANAGED;
              explanation := Sprintf "Certificate has unexpected ExtendedKeyUsage: %v"
                               [vInts (ExtKeyUsage (cert k))] |}
    else k in
  if negb (KeyUsage (cert k1) =? x509_KeyUsageDigitalSignature)
  then append_signal k1
         {| keyKind := USER_PROVIDED_USER_MANAGED;
            explanation := Sprintf "Certificate has unexpected KeyUsage: %v"
                             [vInt (KeyUsage (cert k1))] |}
  else k1.

(** The closure [checkName] of [checkNames], with the two names it captures. *)
Definition checkName (expectedName truncatedName : string) (t v : string) (k : SAKey) : SAKey :=
  if GAIA_ID_MatchString v then
    append_signal k
      {| keyKind := GOOGLE_PROVIDED_USER_MANAGED;
         explanation := Sprintf "%v %v is a GAIA_ID" [vString t; vString v] |}
  else if String.eqb v expectedName then
    append_signal k
      {| keyKind := GOOGLE_PROVIDED_SYSTEM_MANAGED;
         explanation := Sprintf "%v %v matches expected name %v"
                          [vString t; vString v; vString expectedName] |}
  else if negb (String.eqb truncatedName "") && String.eqb v truncatedName then
    append_signal k
      {| keyKind := GOOGLE_PROVIDED_SYSTEM_MANAGED;
         explanation := Sprintf "%v %v matches expected truncated name %v"
                          [vString t; vString v; vString truncatedName] |}
  else
    append_signal k
      {| keyKind := USER_PROVIDED_USER_MANAGED;
         explanation := Sprintf "%v %v does not match any expected name %v"
                          [vString t; vString v; vString expectedName] |}.

Definition expectedName_of (serviceAccount : string) : string :=
  strings_Replace serviceAccount "@"%char "." 1.

Definition truncatedName_of (expectedName : string) : string :=
  if 64 <=? Z.of_nat (String.length expectedName)
  then slice_to expectedName 64
  else "".

Definition checkNames (k : SAKey) : SAKey :=
  let expectedName := expectedName_of (serviceAccount k) in
  let truncatedName := truncatedName_of expectedName in
  let k1 := checkName expectedName truncatedName "SubjectCN"
              (CommonName (Subject (cert k))) k in
  checkName expectedName truncatedName "IssuerCN"
    (CommonName (Issuer (cert k1))) k1.

(** The bit length read through the type assertion of [PublicKey] to a
    pointer to [rsa.PublicKey], followed by [.N.BitLen()]: the assertion is
    unchecked and panics on any other dynamic type. *)
Definition rsa_BitLen (pk : PublicKey) : Result Z :=
  match pk with
  | rsa_PublicKey N _ => Ok (BitLen N)
  | _ => Panic ("interface conversion: interface {} is " ++ dynamic_type pk
                ++ ", not *rsa.PublicKey")
  end.

Definition checkCrypto (k : SAKey) : Result SAKey :=
  let k1 :=
    if negb (PublicKeyAlgorithm (cert k) =? x509_RSA)
    then append_signal k
           {| keyKind := USER_PROVIDED_USER_MANAGED;
              explanation := Sprintf "Public key algorithm %v is not RSA"
                               [vInt (PublicKeyAlgorithm (cert k))] |}
    else k in
  let k2 :=
    if negb (SignatureAlgorithm (cert k1) =? x509_SHA1WithRSA)
    then append_signal k1
           {| keyKind := USER_PROVIDED_USER_MANAGED;
              explanation := Sprintf "Signature algorithm %v is not SHA1WithRSA"
                               [vInt (SignatureAlgorithm (cert k1))] |}
    else k1 in
  bits ← rsa_BitLen (PublicKey_ (cert k2));
  if bits =? 1024 then
    Ok (append_signal k2
          {| keyKind := GOOGLE_PROVIDED_USER_MANAGED;
             explanation := Lit "Public key length is 1024" |})
  else if negb (bits =? 2048) then
    Ok (append_signal k2
          {| keyKind := USER_PROVIDED_USER_MANAGED;
             explanation := Sprintf "Public key length %v is not 2048 or 1024"
                              [vInt bits] |})
  else Ok k2.

Definition check (k : SAKey) : Result SAKey :=
  let k1 := checkNames k in
  k2 ← checkCrypto k1;
  let k3 := CheckValidityPeriod k2 in
  Ok (CheckExtensions k3).

(** One iteration of the loop of [determineKeyKind]. *)
Definition resolve_step (res : string) (signal : Signal) : string :=
  if String.eqb res "" then keyKind signal
  else if slices_Index keyKindPrecedence (keyKind signal)
          <? slices_Index keyKindPrecedence res
       then keyKind signal
       else res.

(** The precedence resolver: the body of [determineKeyKind] after
    [k.check()], on the signal list it finds. *)
Definition resolve (sigs : list Signal) : Result string :=
  if (length sigs =? 0)%nat then Panic "No signals found for key"
  else Ok (fold_left resolve_step sigs "").

Definition determineKeyKind (k : SAKey) : Result (string * SAKey) :=
  k1 ← check k;
  res ← resolve (signals k1);
  Ok (res,
      {| serviceAccount := serviceAccount k1;
         cert := cert k1;
         signals := signals k1;
         SAKey_keyKind := res |}).

(** ** The services the fetch phases call *)

(** What the code asks of the network and of the libraries that decode the
    answers. Each field is the outcome of the named call on its argument;
    [inr] carries the returned error. *)

Record Response : Type := {
  StatusCode : Z;
  Body : string + Text            (* io.ReadAll(resp.Body) *)
}.

Definition http_StatusOK : Z := 200.
Definition http_StatusNotFound : Z := 404.

Record pem_Block : Type := {
  Block_Type : string;
  Block_Headers : list (string * string);
  Block_Bytes : string
}.

(** google.golang.org/api/iam/v1 ServiceAccountKey, the fields read here. *)
Record ServiceAccountKey : Type := {
  Name : string;
  KeyType : string;
  KeyOrigin : string
}.

Record Env : Type := {
  (* http.Get(url) *)
  http_Get : string -> Response + Text;
  (* json.Unmarshal(body, &keys) into a map[string]string: the entries in
     the order the range loop over the map visits them *)
  json_Unmarshal : string -> list (string * string) + Text;
  (* pem.Decode: the block, nil when none is found, and the rest *)
  pem_Decode : string -> option pem_Block * string;
  (* x509.ParseCertificate *)
  x509_ParseCertificate : string -> Certificate + Text;
  (* iam.NewService behind sync.OnceValue: the error of the one creation *)
  iam_NewService : error;
  (* limiter.Wait(ctx) as met by the task of the given principal *)
  limiter_Wait : string -> error;
  (* iamService.Projects.ServiceAccounts.Keys.List(name).Context(ctx).Do() *)
  Keys_List_Do : string -> list ServiceAccountKey + Text
}.

(** A request sent to a remote service; the trace of a run lists them in
    the order they were sent. *)
Inductive Call : Type :=
| HttpGet (url : string)
| KeysList (name : string).

(** A nil-able Go map. *)
Abbreviation ServiceAccountCerts := (option (gmap string Certificate)) (only parsing).
Abbreviation ServiceAccountKeys := (option (gmap string ServiceAccountKey)) (only parsing).

(** ** sakey_x509.go *)

(** The loop of [getServiceAccountKeyCerts] over the decoded map. *)
Fixpoint decode_certs (env : Env) (keys : list (string * string))
    (certs : gmap string Certificate) : ServiceAccountCerts * error :=
  match keys with
  | [] => (Some certs, None)
  | (keyId, v) :: keys' =>
      let '(block, rest) := pem_Decode env v in
      match block with
      | None => (None, fmt_Errorf "error decoding PEM block" [])
      | Some block =>
          if (0 <? String.length rest)%nat then
            (None, fmt_Errorf "error: Extra data after PEM block" [])
          else if negb (String.eqb (Block_Type block) "CERTIFICATE") then
            (None, fmt_Errorf "error: Unexpected PEM block type: %v. Expected CERTIFICATE"
                     [vString (Block_Type block)])
          else if (0 <? length (Block_Headers block))%nat then
            (None, fmt_Errorf "error: unexpected headers in PEM block %v"
                     [vHeaders (Block_Headers block)])
          else
            match x509_ParseCertificate env (Block_Bytes block) with
            | inr err => (None, fmt_Errorf "error parsing certificate: %v" [vError err])
            | inl cert => decode_certs env keys' (<[keyId := cert]> certs)
            end
      end
  end.

Definition x509_url (sa : string) : string :=
  "https://www.googleapis.com/service_accounts/v1/metadata/x509/" ++ sa.

Definition getServiceAccountKeyCerts (env : Env) (sa : string) (trace : list Call)
  : (ServiceAccountCerts * error) * list Call :=
  let trace := (trace ++ [HttpGet (x509_url sa)])%list in
  match http_Get env (x509_url sa) with
  | inr err => ((None, fmt_Errorf "error making request: %v" [vError err]), trace)
  | inl resp =>
      if StatusCode resp =? http_StatusNotFound then
        ((None, fmt_Errorf "error: service account not found. Does it exist and is it enabled?" []),
         trace)
      else if negb (StatusCode resp =? http_StatusOK) then
        ((None, fmt_Errorf "error: unexpected status code: %v. Check" [vInt (StatusCode resp)]),
         trace)
      else
        match Body resp with
        | inr err => ((None, fmt_Errorf "error reading response body: %v" [vError err]), trace)
        | inl body =>
            match json_Unmarshal env body with
            | inr err => ((None, fmt_Errorf "error unmarshaling JSON: %v" [vError err]), trace)
            | inl keys => (decode_certs env keys ∅, trace)
            end
        end
  end.

(** ** api.go *)

(** The loop of [getServiceAccountKeys]; [SplitAfter(...)[1]] panics when
    the name holds no "keys/". The warning it may print is not modelled. *)
Fixpoint collect_keys (keys : list ServiceAccountKey)
    (res : gmap string ServiceAccountKey) : Result (gmap string ServiceAccountKey) :=
  match keys with
  | [] => Ok res
  | key :: keys' =>
      let parts := strings_SplitAfter (Name key) "keys/" in
      match parts !! 1%nat with
      | None => Panic "runtime error: index out of range [1] with length 1"
      | Some id => collect_keys keys' (<[id := key]> res)
      end
  end.

Definition keys_name (sa : string) : string := "projects/-/serviceAccounts/" ++ sa.

Definition getServiceAccountKeys (env : Env) (sa : string) (trace : list Call)
  : Result ((ServiceAccountKeys * error) * list Call) :=
  let trace := (trace ++ [KeysList (keys_name sa)])%list in
  match Keys_List_Do env (keys_name sa) with
  | inr err => Ok ((None, Some err), trace)
  | inl keys =>
      res ← collect_keys keys ∅;
      Ok ((Some res, None), trace)
  end.

(** ** parllelMap *)

(** A task [f] of [parllelMap]: it may touch the state shared by the
    goroutines and ends by returning a result and an error, or by panicking. *)
Definition Task (St I O : Type) : Type := I -> St -> Result ((O * error) * St).

(** The goroutines of [parllelMap], each run as one step, in the order
    [sched] of their indices; goroutine [i] writes only [res[i]] and
    [errs[i]]. A task of the ground-truth phase changes the shared state at
    most once, by the request it sends, so its run is one step. A task of
    the public phase reaches the shared state twice, and other goroutines
    may run in between: [FetchObservedKeys_interleaved] below takes the two
    accesses apart. *)
Fixpoint run_goroutines {St I O : Type} (f : Task St I O) (items : list I)
    (sched : list nat) (st : St) (res : list O) (errs : list error)
  : Result ((list O * list error) * St) :=
  match sched with
  | [] => Ok ((res, errs), st)
  | i :: sched' =>
      match items !! i with
      | None => run_goroutines f items sched' st res errs
      | Some item =>
          '((r, err), st') ← f item st;
          run_goroutines f items sched' st' (<[i := r]> res) (<[i := err]> errs)
      end
  end.

(** [parllelMap]: [zero] is the zero value of [O]; a nil slice is [[]]. *)
Definition parllelMap {St I O : Type} (zero : O) (items : list I) (f : Task St I O)
    (sched : list nat) (st : St) : Result ((list O * error) * St) :=
  let res := replicate (length items) zero in
  let errs := replicate (length items) (None : error) in
  '((res, errs), st') ← run_goroutines f items sched st res errs;
  let final_err := errors_Join errs in
  match final_err with
  | Some _ => Ok (([], final_err), st')
  | None => Ok ((res, None), st')
  end.

(** ** KeyCollection *)

(** [badSAsLock] makes [isBadSA] and [addBadSA] atomic; it has no other
    content. *)
Record KeyCollection : Type := {
  serviceAccountIDs : list string;
  observedKeys : list ServiceAccountCerts;
  groundTruthKeys : list ServiceAccountKeys;
  badSAs : list string
}.

Definition NewKeyCollection (serviceAccountIDs : list string) : KeyCollection :=
  {| serviceAccountIDs := serviceAccountIDs;
     observedKeys := [];
     groundTruthKeys := [];
     badSAs := [] |}.

(** [slices.Contains(k.badSAs, sa)] *)
Definition isBadSA (k : KeyCollection) (sa : string) : bool :=
  existsb (fun x => String.eqb x sa) (badSAs k).

Definition addBadSA (k : KeyCollection) (sa : string) : KeyCollection :=
  {| serviceAccountIDs := serviceAccountIDs k;
     observedKeys := observedKeys k;
     groundTruthKeys := groundTruthKeys k;
     badSAs := badSAs k ++ [sa] |}.

Definition set_observedKeys (k : KeyCollection) (v : list ServiceAccountCerts) : KeyCollection :=
  {| serviceAccountIDs := serviceAccountIDs k;
     observedKeys := v;
     groundTruthKeys := groundTruthKeys k;
     badSAs := badSAs k |}.

Definition set_groundTruthKeys (k : KeyCollection) (v : list ServiceAccountKeys) : KeyCollection :=
  {| serviceAccountIDs := serviceAccountIDs k;
     observedKeys := observedKeys k;
     groundTruthKeys := v;
     badSAs := badSAs k |}.

(** The state the goroutines share: the collection and the trace of
    requests sent so far. *)
Abbreviation Shared := (KeyCollection * list Call)%type (only parsing).

(** [context.Background()] is never done, so [inflight.Acquire] on it
    returns nil once a slot is free. *)
Definition semaphore_Acquire_Background : error := None.

(** The closure that [FetchObservedKeys] hands to [parllelMap], run as one
    step: its GET and its [addBadSA] with no access of another goroutine in
    between. This fixes the order of the bad list to that of the requests,
    which the program does not; what is stated of this phase holds of the
    bad list up to its order, and [FetchObservedKeys_interleaved] below
    gives the phase with the two accesses apart. The warning the closure
    prints is not modelled. *)
Definition observedTask (env : Env) : Task Shared string ServiceAccountCerts :=
  fun sa '(k, trace) =>
    match semaphore_Acquire_Background with
    | Some err => Ok ((None, Some err), (k, trace))
    | None =>
        let '((res, err), trace) := getServiceAccountKeyCerts env sa trace in
        match err with
        | Some _ => Ok ((None, None), (addBadSA k sa, trace))
        | None => Ok ((res, None), (k, trace))
        end
    end.

Definition FetchObservedKeys (env : Env) (sched : list nat) (st : Shared)
  : Result (error * Shared) :=
  let '(k, trace) := st in
  let k := set_observedKeys k (replicate (length (serviceAccountIDs k)) None) in
  '((observedKeys, err), (k, trace)) ←
    parllelMap None (serviceAccountIDs k) (observedTask env) sched (k, trace);
  match err with
  | Some e => Ok (fmt_Errorf "error getting keys from GCP API: %v" [vError e], (k, trace))
  | None => Ok (None, (set_observedKeys k observedKeys, trace))
  end.

(** The closure that [FetchGroundTruthKeys] hands to [parllelMap]. *)
Definition groundTruthTask (env : Env) : Task Shared string ServiceAccountKeys :=
  fun sa '(k, trace) =>
    if isBadSA k sa then Ok ((None, None), (k, trace))
    else
      match limiter_Wait env sa with
      | Some err => Ok ((None, Some err), (k, trace))
      | None =>
          '(r, trace) ← getServiceAccountKeys env sa trace;
          Ok (r, (k, trace))
      end.

(** [iamService()]: a failed client creation prints the error and exits. *)
Definition iamService (env : Env) : Result unit :=
  match iam_NewService env with
  | Some _ => Exit 1
  | None => Ok tt
  end.

Definition FetchGroundTruthKeys (env : Env) (sched : list nat) (st : Shared)
  : Result (error * Shared) :=
  let '(k, trace) := st in
  let k := set_groundTruthKeys k (replicate (length (serviceAccountIDs k)) None) in
  _ ← iamService env;
  '((res, err), (k, trace)) ←
    parllelMap None (serviceAccountIDs k) (groundTruthTask env) sched (k, trace);
  match err with
  | Some e => Ok (fmt_Errorf "error getting keys from GCP API: %v" [vError e], (k, trace))
  | None => Ok (None, (set_groundTruthKeys k res, trace))
  end.

(** [FetchKeys]: each phase has its own goroutines, hence its own order. *)
Definition FetchKeys (env : Env) (groundTruth : bool) (quotaProject : string)
    (sched1 sched2 : list nat) (st : Shared) : Result (error * Shared) :=
  '(err, st) ← FetchObservedKeys env sched1 st;
  match err with
  | Some _ => Ok (err, st)
  | None =>
      if groundTruth then
        '(err, st) ← FetchGroundTruthKeys env sched2 st;
        match err with
        | Some _ => Ok (err, st)
        | None => Ok (None, st)
        end
      else Ok (None, st)
  end.

(** ** The public phase, access by access *)

(** A goroutine of [FetchObservedKeys] reaches the state it shares with the
    others twice: when, past [inflight.Acquire], it calls
    [getServiceAccountKeyCerts], which sends the GET; and when its closure
    returns, after [addBadSA] under the mutex if the fetch failed, and
    [parllelMap] writes its two slots. (The slots of a goroutine are read by
    no other, so taking their write together with [addBadSA] loses no
    behaviour.) Between the two accesses of one goroutine the others may
    run. The semaphore [inflight] only bounds how many goroutines are
    between their two accesses at a time: it rules runs out and adds
    none. *)
Inductive Access : Type :=
| Fetches (i : nat)
| Returns (i : nat).

(** Where a goroutine stands: before its first access; holding what its
    closure is about to return, and whether it has yet to call [addBadSA];
    or done. *)
Inductive Stage : Type :=
| Waiting
| Holding (r : ServiceAccountCerts) (err : error) (bad : bool)
| Returned.

(** The goroutines of [parllelMap] under way: the shared state, the stage of
    each goroutine, and the slices [res] and [errs]. *)
Record Run : Type := {
  run_shared : Shared;
  run_stages : list Stage;
  run_res : list ServiceAccountCerts;
  run_errs : list error
}.

(** One access. An access that is not the next one of its goroutine is not
    a step of the program and is passed over. *)
Definition observed_access (env : Env) (items : list string) (run : Run)
    (a : Access) : Run :=
  let '(k, trace) := run_shared run in
  match a with
  | Fetches i =>
      match items !! i, run_stages run !! i with
      | Some sa, Some Waiting =>
          match semaphore_Acquire_Background with
          | Some err =>
              {| run_shared := (k, trace);
                 run_stages := <[i := Holding None (Some err) false]> (run_stages run);
                 run_res := run_res run;
                 run_errs := run_errs run |}
          | None =>
              let '((res, err), trace) := getServiceAccountKeyCerts env sa trace in
              {| run_shared := (k, trace);
                 run_stages := <[i := match err with
                                      | Some _ => Holding None None true
                                      | None => Holding res None false
                                      end]> (run_stages run);
                 run_res := run_res run;
                 run_errs := run_errs run |}
          end
      | _, _ => run
      end
  | Returns i =>
      match items !! i, run_stages run !! i with
      | Some sa, Some (Holding r err bad) =>
          {| run_shared := (if bad then addBadSA k sa else k, trace);
             run_stages := <[i := Returned]> (run_stages run);
             run_res := <[i := r]> (run_res run);
             run_errs := <[i := err]> (run_errs run) |}
      | _, _ => run
      end
  end.

(** [FetchObservedKeys] with the accesses of its goroutines in the order
    [accesses]; the body of [parllelMap] is inlined. *)
Definition FetchObservedKeys_interleaved (env : Env) (accesses : list Access)
    (st : Shared) : Result (error * Shared) :=
  let '(k, trace) := st in
  let k := set_observedKeys k (replicate (length (serviceAccountIDs k)) None) in
  let items := serviceAccountIDs k in
  let run := fold_left (observed_access env items) accesses
               {| run_shared := (k, trace);
                  run_stages := replicate (length items) Waiting;
                  run_res := replicate (length items) None;
                  run_errs := replicate (length items) None |} in
  let '(k, trace) := run_shared run in
  let final_err := errors_Join (run_errs run) in
  match final_err with
  | Some e => Ok (fmt_Errorf "error getting keys from GCP API: %v" [vError e], (k, trace))
  | None => Ok (None, (set_observedKeys k (run_res run), trace))
  end.

(** The id under which [getServiceAccountKeys] files a key of this name:
    [strings.SplitAfter(name, "keys/")[1]], when there is such a piece. *)
Definition key_id (name : string) : option string :=
  strings_SplitAfter name "keys/" !! 1%nat.

(** ** api.go: listing the principals *)

(** google.golang.org/api/iam/v1 ServiceAccount, the fields read here. *)
Record iam_ServiceAccount : Type := {
  Email : string;
  Disabled : bool
}.

(** google.golang.org/protobuf structpb.Value, as far as [GetStringValue]
    tells its cases apart. *)
Inductive structpb_Value : Type :=
| structpb_StringValue (s : string)
| structpb_OtherValue.

(** A result of the asset search: its additional attributes, a pointer that
    may be nil, with their fields. *)
Record asset_Resource : Type := {
  AdditionalAttributes : option (gmap string structpb_Value)
}.

(** How the principals are looked up. [Pages] calls back once per page, in
    order, and then returns the error of the listing, if any; the iterator
    of the asset search yields a result or an error at each step; the
    scanner yields the lines of the file and then its error, if any. *)
Record Listers : Type := {
  (* iamService.Projects.ServiceAccounts.List(name).Pages(ctx, f) *)
  Accounts_List_Pages : string -> list (list iam_ServiceAccount) * error;
  (* asset.NewClient *)
  asset_NewClient : error;
  (* c.SearchAllResources(ctx, req).All() for the scope *)
  SearchAllResources_All : string -> list (asset_Resource + Text);
  (* os.Open *)
  os_Open : string -> error;
  (* scanner.Scan() / scanner.Text() until Scan is false, then scanner.Err() *)
  scanner_lines : string -> list string * error
}.

(** The callback given to [Pages]: it appends the emails of the accounts of
    the page that are not disabled. *)
Definition collect_page (serviceAccountIDs : list string)
    (page : list iam_ServiceAccount) : list string :=
  fold_left (fun ids serviceAccount =>
               if Disabled serviceAccount then ids
               else (ids ++ [Email serviceAccount])%list)
    page serviceAccountIDs.

Definition getServiceAccountIDsInProject (ls : Listers) (project : string)
  : list string * error :=
  let '(pages, err) := Accounts_List_Pages ls ("projects/" ++ project) in
  let serviceAccountIDs := fold_left collect_page pages [] in
  match err with
  | Some e => ([], Some e)
  | None => (serviceAccountIDs, None)
  end.

(** [v.GetStringValue()]: the text of a string value, empty for any other
    value and for the nil pointer that a missing field gives. *)
Definition GetStringValue (v : option structpb_Value) : string :=
  match v with
  | Some (structpb_StringValue s) => s
  | _ => ""
  end.

(** [res.AdditionalAttributes.Fields["email"].GetStringValue()]: reading
    [Fields] through a nil [AdditionalAttributes] panics. *)
Definition email_of (res : asset_Resource) : Result string :=
  match AdditionalAttributes res with
  | None => Panic "runtime error: invalid memory address or nil pointer dereference"
  | Some fields => Ok (GetStringValue (fields !! "email"))
  end.

(** The loop of [getServiceAccountIDsViaAssetInventory] over what the
    iterator yields. *)
Fixpoint collect_assets (items : list (asset_Resource + Text))
    (serviceAccountIDs : list string) : Result (list string * error) :=
  match items with
  | [] => Ok (serviceAccountIDs, None)
  | inr err :: _ => Ok ([], Some err)
  | inl res :: items' =>
      serviceAccountID ← email_of res;
      collect_assets items' (serviceAccountIDs ++ [serviceAccountID])
  end.

Definition getServiceAccountIDsViaAssetInventory (ls : Listers) (scope : string)
  : Result (list string * error) :=
  collect_assets (SearchAllResources_All ls scope) [].

(** ** KeyCollection: writing the certificates out *)

(** The file system as [WritePublicKeysToDir] meets it: the error of each
    call, by directory or file name. *)
Record FileSystem : Type := {
  os_MkdirAll : string -> error;
  os_Create : string -> error;
  pem_Encode : string -> error;     (* pem.Encode to the file of this name *)
  file_Close : string -> error
}.

(** A file created, with the DER bytes encoded into it, if any were. *)
Record WrittenFile : Type := {
  file_name : string;
  file_der : option string
}.

(** [fmt.Sprintf("%v/%v_%v.pem", s, sa, keyID)] *)
Definition pem_file_name (s sa keyID : string) : string :=
  s ++ "/" ++ sa ++ "_" ++ keyID ++ ".pem".

(** The inner loop of [WritePublicKeysToDir], over the certificates of one
    principal in the order the range loop visits them. *)
Fixpoint write_certs (fs : FileSystem) (s sa : string)
    (certs : list (string * Certificate)) (written : list WrittenFile)
  : error * list WrittenFile :=
  match certs with
  | [] => (None, written)
  | (keyID, cert) :: certs' =>
      let fname := pem_file_name s sa keyID in
      match os_Create fs fname with
      | Some err => (fmt_Errorf "error creating file %v: %v" [vString fname; vError err],
                     written)
      | None =>
          match pem_Encode fs fname with
          | Some err =>
              (fmt_Errorf "error encoding PEM block: %v" [vError err],
               (written ++ [{| file_name := fname; file_der := None |}])%list)
          | None =>
              let written :=
                (written ++ [{| file_name := fname; file_der := Some (Raw cert) |}])%list in
              match file_Close fs fname with
              | Some err =>
                  (fmt_Errorf "error closing file %v: %v" [vString fname; vError err],
                   written)
              | None => write_certs fs s sa certs' written
              end
          end
      end
  end.

(** The certificates of a nil-able map in the order [order] gives them;
    a nil map has none. *)
Definition range_certs (order : gmap string Certificate -> list (string * Certificate))
    (m : ServiceAccountCerts) : list (string * Certificate) :=
  match m with
  | Some m => order m
  | None => []
  end.

(** The outer loop of [WritePublicKeysToDir]: [k.observedKeys[i]] panics
    when the slice has no index [i]. *)
Fixpoint write_accounts (fs : FileSystem)
    (order : gmap string Certificate -> list (string * Certificate))
    (k : KeyCollection) (s : string) (i : nat) (ids : list string)
    (written : list WrittenFile) : Result (error * list WrittenFile) :=
  match ids with
  | [] => Ok (None, written)
  | sa :: ids' =>
      if isBadSA k sa then write_accounts fs order k s (S i) ids' written
      else
        match observedKeys k !! i with
        | None => Panic "runtime error: index out of range"
        | Some certs =>
            let '(err, written) := write_certs fs s sa (range_certs order certs) written in
            match err with
            | Some _ => Ok (err, written)
            | None => write_accounts fs order k s (S i) ids' written
            end
        end
  end.

Definition WritePublicKeysToDir (fs : FileSystem)
    (order : gmap string Certificate -> list (string * Certificate))
    (k : KeyCollection) (s : string) : Result (error * list WrittenFile) :=
  match os_MkdirAll fs s with
  | Some err =>
      Ok (fmt_Errorf "error creating directory %v: %v" [vString s; vError err],
          ([] : list WrittenFile))
  | None => write_accounts fs order k s 0 (serviceAccountIDs k) []
  end.

(** ** main.go *)

Definition OUTPUT_NORMAL : string := "normal".
Definition OUTPUT_VERBOSE : string := "verbose".
Definition OUTPUT_GROUND_TRUTH : string := "ground-truth".

Definition checkMultualExcluveFlags (flags : list bool) : bool :=
  let count := fold_left (fun count (f : bool) => if f then count + 1 else count) flags 0 in
  count <=? 1.

(** The command line: the flags and the positional arguments. *)
Record Flags : Type := {
  flag_groundTruth : bool;
  flag_verbose : bool;
  flag_project : string;
  flag_scope : string;
  flag_inFile : string;
  flag_outDir : string;
  flag_quotaProject : string;
  flag_Args : list string
}.

Definition decideOutputMode (fl : Flags) : string * error :=
  if negb (checkMultualExcluveFlags [flag_groundTruth fl; flag_verbose fl]) then
    ("", fmt_Errorf "must specify one of --ground-truth, or --verbose" [])
  else if flag_groundTruth fl then (OUTPUT_GROUND_TRUTH, None)
  else if flag_verbose fl then (OUTPUT_VERBOSE, None)
  else (OUTPUT_NORMAL, None).

Definition getServiceAccountsFromFile (ls : Listers) (s : string)
  : list string * error :=
  match os_Open ls s with
  | Some err => ([], Some err)
  | None =>
      let '(lines, err) := scanner_lines ls s in
      let res := fold_left (fun res line => (res ++ [line])%list) lines [] in
      match err with
      | Some e => ([], Some e)
      | None => (res, None)
      end
  end.

Definition getTargetServiceAccounts (ls : Listers) (env : Env) (fl : Flags)
  : Result (list string * error) :=
  if negb (checkMultualExcluveFlags
             [ negb (String.eqb (flag_inFile fl) "");
               (0 <? length (flag_Args fl))%nat;
               negb (String.eqb (flag_scope fl) "");
               negb (String.eqb (flag_project fl) "") ]) then
    Ok ([], fmt_Errorf "must specify one of --scope, --project, --in, or service accounts as arguments" [])
  else if negb (String.eqb (flag_scope fl) "") then
    match asset_NewClient ls with
    | Some err => Ok ([], Some err)
    | None => getServiceAccountIDsViaAssetInventory ls (flag_scope fl)
    end
  else if negb (String.eqb (flag_project fl) "") then
    _ ← iamService env;
    Ok (getServiceAccountIDsInProject ls (flag_project fl))
  else if negb (String.eqb (flag_inFile fl) "") then
    Ok (getServiceAccountsFromFile ls (flag_inFile fl))
  else Ok (flag_Args fl, None).

(** The body of the loop of [main] over the keys of one principal, for one
    key: whether it sets [hasBadKeys]. A key missing from the ground-truth
    map is a nil pointer, which [realKey.KeyType] dereferences. What is
    printed is not modelled. *)
Definition report_key (outputMode : string) (k : KeyCollection) (i : nat)
    (serviceAccountID keyId : string) (cert : Certificate) : Result bool :=
  '(keyKind, key) ← determineKeyKind (NewSAKey serviceAccountID cert);
  if String.eqb outputMode OUTPUT_NORMAL then
    Ok (negb (String.eqb keyKind GOOGLE_PROVIDED_SYSTEM_MANAGED))
  else if String.eqb outputMode OUTPUT_VERBOSE then
    Ok (negb (String.eqb keyKind GOOGLE_PROVIDED_SYSTEM_MANAGED))
  else if String.eqb outputMode OUTPUT_GROUND_TRUTH then
    match groundTruthKeys k !! i with
    | None => Panic "runtime error: index out of range"
    | Some keys =>
        match keys ≫= (fun m => m !! keyId) with
        | None => Panic "runtime error: invalid memory address or nil pointer dereference"
        | Some realKey =>
            realKeyKind ← keyTypeAndOriginToMuxedKeyKind (KeyType realKey) (KeyOrigin realKey);
            Ok (negb (String.eqb realKeyKind keyKind))
        end
    end
  else Ok false.

Fixpoint report_keys (outputMode : string) (k : KeyCollection) (i : nat)
    (serviceAccountID : string) (certs : list (string * Certificate))
    (hasBadKeys : bool) : Result bool :=
  match certs with
  | [] => Ok hasBadKeys
  | (keyId, cert) :: certs' =>
      b ← report_key outputMode k i serviceAccountID keyId cert;
      report_keys outputMode k i serviceAccountID certs' (hasBadKeys || b)
  end.

(** The loop of [main] over the principals, counting the good and the bad. *)
Fixpoint report_accounts (outputMode : string)
    (order : gmap string Certificate -> list (string * Certificate))
    (k : KeyCollection) (i : nat) (ids : list string) (good bad : Z)
  : Result (Z * Z) :=
  match ids with
  | [] => Ok (good, bad)
  | serviceAccountID :: ids' =>
      if isBadSA k serviceAccountID then
        report_accounts outputMode order k (S i) ids' good bad
      else
        match observedKeys k !! i with
        | None => Panic "runtime error: index out of range"
        | Some certs =>
            hasBadKeys ← report_keys outputMode k i serviceAccountID
                           (range_certs order certs) false;
            if hasBadKeys : bool
            then report_accounts outputMode order k (S i) ids' good (bad + 1)
            else report_accounts outputMode order k (S i) ids' (good + 1) bad
        end
  end.

(** What [flag.Parse()] makes of the command line: the flags and the
    positional arguments; or [flag.ErrHelp], for a -h or -help, which no
    flag of this program is defined for; or another error, as for a flag
    that is not defined or a value that does not parse. *)
Inductive CommandLine : Type :=
| flag_parsed (fl : Flags)
| flag_ErrHelp
| flag_error (err : Text).

(** [flag.Parse()]: the flag set of the command line handles errors with
    [flag.ExitOnError], so after printing the usage it exits with 0 on
    [ErrHelp] and with 2 on any other error. *)
Definition flag_Parse (cl : CommandLine) : Result Flags :=
  match cl with
  | flag_parsed fl => Ok fl
  | flag_ErrHelp => Exit 0
  | flag_error _ => Exit 2
  end.

(** [main]: it always ends the process, by [os.Exit] or by a panic. The
    two schedules are those of the goroutines of the two fetch phases;
    [order_out] and [order_report] are the orders in which the range loops
    of [WritePublicKeysToDir] and of the report visit a map. *)
Definition main (ls : Listers) (env : Env) (fs : FileSystem) (cl : CommandLine)
    (sched1 sched2 : list nat)
    (order_out order_report : gmap string Certificate -> list (string * Certificate))
  : Result unit :=
  fl ← flag_Parse cl;
  '(serviceAccountIDs, err) ← getTargetServiceAccounts ls env fl;
  match err with
  | Some _ => Exit 1
  | None =>
      if (length serviceAccountIDs =? 0)%nat then Exit 1
      else
        let '(outputMode, err) := decideOutputMode fl in
        match err with
        | Some _ => Exit 1
        | None =>
            '(err, (keyCollection, trace)) ←
              FetchKeys env (flag_groundTruth fl) (flag_quotaProject fl) sched1 sched2
                (NewKeyCollection serviceAccountIDs, []);
            match err with
            | Some _ => Exit 1
            | None =>
                written ←
                  (if negb (String.eqb (flag_outDir fl) "") then
                     '(err, written) ← WritePublicKeysToDir fs order_out keyCollection
                                          (flag_outDir fl);
                     match err with
                     | Some _ => Exit 1
                     | None => Ok written
                     end
                   else Ok []);
                '(good, bad) ← report_accounts outputMode order_report keyCollection 0
                                 serviceAccountIDs 0 0;
                if 0 <? bad then Exit 1 else Exit 0
            end
        end
  end.

(** ** Vocabulary of the statements and sample inputs *)

Module Samples.

Definition sa : string := "scanner@audit-prj.iam.gserviceaccount.com".
Definition sa_name : string := "scanner.audit-prj.iam.gserviceaccount.com".

Definition issued : Time := time_Date_UTC 2024 1 1 0 0 0 0.

Definition mkCert (notBefore notAfter : Time) (alg : Z) (pk : PublicKey)
    (subjectCN issuerCN : string) : Certificate :=
  {| Raw := "";
     SerialNumber := 4711;
     Subject := {| CommonName := subjectCN |};
     Issuer := {| CommonName := issuerCN |};
     NotBefore := notBefore;
     NotAfter := notAfter;
     PublicKeyAlgorithm := alg;
     PublicKey_ := pk;
     SignatureAlgorithm := x509_SHA1WithRSA;
     KeyUsage := x509_KeyUsageDigitalSignature;
     ExtKeyUsage := [x509_ExtKeyUsageClientAuth] |}.

(** A system-managed key as Google issues it: RSA 2048, 396h15m. *)
Definition systemCert : Certificate :=
  mkCert issued (Time_Add issued googleProvidedSystemManagedValidityV1)
    x509_RSA (rsa_PublicKey (2 ^ 2047 + 1) 65537) sa_name sa_name.

(** The same certificate carrying an ECDSA key. *)
Definition ecdsaCert : Certificate :=
  mkCert issued (Time_Add issued googleProvidedSystemManagedValidityV1)
    x509_ECDSA (ecdsa_PublicKey 7 11) sa_name sa_name.

(** A user-managed key created by Google: GAIA id as subject, no expiry. *)
Definition userManagedCert : Certificate :=
  mkCert issued defaultMaxAfter
    x509_RSA (rsa_PublicKey (2 ^ 2047 + 1) 65537) "112233445566778899001" sa_name.

Definition sig (kind : string) : Signal :=
  {| keyKind := kind; explanation := Lit "sample" |}.

End Samples.

Definition precedence (kind : string) : Z := slices_Index keyKindPrecedence kind.

Definition valid_kind (kind : string) : Prop := In kind keyKindPrecedence.

(** The text has no "@". *)
Definition no_at (s : string) : Prop := ~ In "@"%char (list_ascii_of_string s).

Definition decimal_digit (c : ascii) : Prop :=
  (nat_of_ascii "0" <= nat_of_ascii c <= nat_of_ascii "9")%nat.

(** The GAIA-ID pattern in words: a "1" followed by exactly 20 digits. *)
Definition matches_GAIA_ID (v : string) : Prop :=
  exists digits,
    v = String "1" digits
    /\ String.length digits = 20%nat
    /\ Forall decimal_digit (list_ascii_of_string digits).

(** [k] with [new] appended to its signals. *)
Definition add_signals (k : SAKey) (new : list Signal) : SAKey :=
  {| serviceAccount := serviceAccount k;
     cert := cert k;
     signals := signals k ++ new;
     SAKey_keyKind := SAKey_keyKind k |}.

(** The signals a check adds are those it leaves on a fresh key. *)
Definition names_signals (sa : string) (c : Certificate) : list Signal :=
  signals (checkNames (NewSAKey sa c)).

Definition validity_signals (sa : string) (c : Certificate) : list Signal :=
  signals (CheckValidityPeriod (NewSAKey sa c)).

Definition extension_signals (sa : string) (c : Certificate) : list Signal :=
  signals (CheckExtensions (NewSAKey sa c)).

Definition crypto_signals (sa : string) (c : Certificate) : Result (list Signal) :=
  k ← checkCrypto (NewSAKey sa c); Ok (signals k).

Definition check_signals (sa : string) (c : Certificate) : Result (list Signal) :=
  k ← check (NewSAKey sa c); Ok (signals k).

Definition valid_signals (sigs : list Signal) : Prop :=
  Forall (fun s => valid_kind (keyKind s)) sigs.

Definition is_rsa_key (pk : PublicKey) : bool :=
  match pk with
  | rsa_PublicKey _ _ => true
  | _ => false
  end.

(** A sample world: "good@prj" has one well-formed key, "mixed@prj" has the
    same key and a second one that is not PEM, every other principal is
    unknown to the certificate endpoint; the IAM API knows "good@prj". *)
Module SampleEnv.

Definition get (url : string) : Response + Text :=
  if String.eqb url (x509_url "good@prj") then
    inl {| StatusCode := 200; Body := inl "one-key" |}
  else if String.eqb url (x509_url "mixed@prj") then
    inl {| StatusCode := 200; Body := inl "two-keys" |}
  else inl {| StatusCode := 404; Body := inl "" |}.

Definition unmarshal (body : string) : list (string * string) + Text :=
  if String.eqb body "one-key" then inl [("k1", "pem-1")]
  else if String.eqb body "two-keys" then inl [("k1", "pem-1"); ("k2", "garbage")]
  else inr (Lit "unexpected end of JSON input").

Definition decode (v : string) : option pem_Block * string :=
  if String.eqb v "pem-1" then
    (Some {| Block_Type := "CERTIFICATE"; Block_Headers := []; Block_Bytes := "der-1" |}, "")
  else (None, v).

Definition parse (der : string) : Certificate + Text :=
  if String.eqb der "der-1" then inl Samples.systemCert
  else inr (Lit "x509: malformed certificate").

Definition list_keys (name : string) : list ServiceAccountKey + Text :=
  if String.eqb name (keys_name "good@prj") then
    inl [ {| Name := "projects/prj/serviceAccounts/good@prj/keys/k1";
             KeyType := "SYSTEM_MANAGED";
             KeyOrigin := "GOOGLE_PROVIDED" |} ]
  else inr (Lit "googleapi: Error 403: Permission denied").

Definition env : Env :=
  {| http_Get := get;
     json_Unmarshal := unmarshal;
     pem_Decode := decode;
     x509_ParseCertificate := parse;
     iam_NewService := None;
     limiter_Wait := fun _ => None;
     Keys_List_Do := list_keys |}.

End SampleEnv.

(** The value [v] of one key is not a lone, header-free CERTIFICATE block
    holding a certificate that parses. *)
Definition bad_pem (env : Env) (v : string) : Prop :=
  match pem_Decode env v with
  | (None, _) => True
  | (Some block, rest) =>
      rest <> ""
      \/ Block_Type block <> "CERTIFICATE"
      \/ Block_Headers block <> []
      \/ exists err, x509_ParseCertificate env (Block_Bytes block) = inr err
  end.

(** What [getServiceAccountKeyCerts] returns, apart from the trace. *)
Definition fetch (env : Env) (sa : string) : ServiceAccountCerts * error :=
  fst (getServiceAccountKeyCerts env sa []).

(** The slots written by the goroutines of [sched], in that order. *)
Definition writes {I A : Type} (items : list I) (g : I -> A) (sched : list nat)
    (l : list A) : list A :=
  fold_left (fun l i => match items !! i with
                        | Some item => <[i := g item]> l
                        | None => l
                        end) sched l.

(** The effect of the goroutines of [sched] on the shared state. *)
Definition effects {St I : Type} (items : list I) (h : I -> St -> St)
    (sched : list nat) (st : St) : St :=
  fold_left (fun st i => match items !! i with
                         | Some item => h item st
                         | None => st
                         end) sched st.

(** The items whose goroutines run, in the order of [sched]. *)
Definition scheduled {I : Type} (items : list I) (sched : list nat) : list I :=
  omap (fun i => items !! i) sched.

(** The fetch of [sa] returns an error. *)
Definition fetch_fails (env : Env) (sa : string) : bool :=
  match snd (fetch env sa) with
  | Some _ => true
  | None => false
  end.

(** What the task of [sa] leaves in its slot, and what it does to the
    shared state. *)
Definition observed_slot (env : Env) (sa : string) : ServiceAccountCerts :=
  if fetch_fails env sa then None else fst (fetch env sa).

Definition observed_effect (env : Env) (sa : string) (st : Shared) : Shared :=
  (if fetch_fails env sa then addBadSA (fst st) sa else fst st,
   (snd st ++ [HttpGet (x509_url sa)])%list).

(** Every key name the API lists for a principal of [ids] holds "keys/". *)
Definition wellformed_key_names (env : Env) (ids : list string) : Prop :=
  forall sa keys,
    sa ∈ ids ->
    Keys_List_Do env (keys_name sa) = inl keys ->
    Forall (fun key => is_Some (index 0 "keys/" (Name key))) keys.

(** What the task of [sa] returns and which requests it sends, given the
    collection [k] it reads. *)
Definition ground_slot (env : Env) (k : KeyCollection) (sa : string)
  : ServiceAccountKeys * error :=
  if isBadSA k sa then (None, None)
  else match limiter_Wait env sa with
       | Some err => (None, Some err)
       | None =>
           match Keys_List_Do env (keys_name sa) with
           | inr err => (None, Some err)
           | inl keys =>
               match collect_keys keys ∅ with
               | Ok res => (Some res, None)
               | _ => (None, None)
               end
           end
       end.

Definition ground_calls (env : Env) (k : KeyCollection) (sa : string) : list Call :=
  if isBadSA k sa then []
  else match limiter_Wait env sa with
       | Some _ => []
       | None => [KeysList (keys_name sa)]
       end.

Definition ground_effect (env : Env) (k : KeyCollection) (sa : string)
    (st : Shared) : Shared :=
  (fst st, (snd st ++ ground_calls env k sa)%list).

(** ** Vocabulary of the further properties *)

(** The kinds of a list of signals, in order. *)
Definition kinds (sigs : list Signal) : list string := map keyKind sigs.

(** The name field [v] is the expected name of the principal, whole or
    truncated, and is not a GAIA id. *)
Definition standard_name (sa v : string) : Prop :=
  ~ matches_GAIA_ID v
  /\ (v = expectedName_of sa
      \/ (truncatedName_of (expectedName_of sa) <> ""
          /\ v = truncatedName_of (expectedName_of sa))).

(** The validity window is one of the two of system-managed keys, and the
    certificate does expire. *)
Definition standard_window (c : Certificate) : Prop :=
  let w := Time_Sub (NotAfter c) (NotBefore c) in
  NotAfter c <> defaultMaxAfter
  /\ (w = googleProvidedSystemManagedValidityV1
      \/ googleProvidedSystemManagedValidityV2Min < w
         < googleProvidedSystemManagedValidityV2Max).

(** An RSA key of 2048 bits, signed with SHA1WithRSA. *)
Definition standard_crypto (c : Certificate) : Prop :=
  PublicKeyAlgorithm c = x509_RSA
  /\ SignatureAlgorithm c = x509_SHA1WithRSA
  /\ exists N E, PublicKey_ c = rsa_PublicKey N E /\ BitLen N = 2048.

(** Extended key usage is exactly clientAuth, key usage exactly
    digitalSignature. *)
Definition standard_extensions (c : Certificate) : Prop :=
  ExtKeyUsage c = [x509_ExtKeyUsageClientAuth]
  /\ KeyUsage c = x509_KeyUsageDigitalSignature.

(** The text has no "/". *)
Definition no_slash (s : string) : Prop := ~ In "/"%char (list_ascii_of_string s).

(** The certificate that the value [v] of one key yields: it must decode
    to a lone CERTIFICATE block without headers whose bytes parse. *)
Definition parsed_cert (env : Env) (v : string) : option Certificate :=
  match pem_Decode env v with
  | (Some block, rest) =>
      if (0 <? String.length rest)%nat then None
      else if negb (String.eqb (Block_Type block) "CERTIFICATE") then None
      else if (0 <? length (Block_Headers block))%nat then None
      else match x509_ParseCertificate env (Block_Bytes block) with
           | inl cert => Some cert
           | inr _ => None
           end
  | (None, _) => None
  end.

(** The requests of the two phases for a principal. *)
Definition get_request (sa : string) : Call := HttpGet (x509_url sa).
Definition list_request (sa : string) : Call := KeysList (keys_name sa).

(** The kind [determineKeyKind] returns for a fresh key of this principal
    and certificate; the empty text when it does not return. *)
Definition key_kind (sa : string) (cert : Certificate) : string :=
  match determineKeyKind (NewSAKey sa cert) with
  | Ok (kind, _) => kind
  | _ => ""
  end.

(** The file [WritePublicKeysToDir] leaves for a key. *)
Definition pem_file (s sa : string) (kc : string * Certificate) : WrittenFile :=
  {| file_name := pem_file_name s sa (fst kc); file_der := Some (Raw (snd kc)) |}.

(** The number of flags that are set. *)
Definition count_set (flags : list bool) : nat :=
  length (List.filter (fun f : bool => f) flags).

(** A run of the command on one principal given as argument, whose endpoint
    serves one system-managed certificate. *)
Module SampleRun.

Definition listers : Listers :=
  {| Accounts_List_Pages := fun _ => ([], None);
     asset_NewClient := None;
     SearchAllResources_All := fun _ => [];
     os_Open := fun _ => None;
     scanner_lines := fun _ => ([], None) |}.

Definition env : Env :=
  {| http_Get := fun _ => inl {| StatusCode := 200; Body := inl "one-key" |};
     json_Unmarshal := SampleEnv.unmarshal;
     pem_Decode := SampleEnv.decode;
     x509_ParseCertificate := SampleEnv.parse;
     iam_NewService := None;
     limiter_Wait := fun _ => None;
     Keys_List_Do := SampleEnv.list_keys |}.

Definition fs : FileSystem :=
  {| os_MkdirAll := fun _ => None;
     os_Create := fun _ => None;
     pem_Encode := fun _ => None;
     file_Close := fun _ => None |}.

Definition flags : Flags :=
  {| flag_groundTruth := false;
     flag_verbose := false;
     flag_project := "";
     flag_scope := "";
     flag_inFile := "";
     flag_outDir := "out";
     flag_quotaProject := "";
     flag_Args := [Samples.sa] |}.

End SampleRun.

(** A run of [n] goroutines to the end: each makes its two accesses once,
    the first before the second. *)
Definition complete_run (n : nat) (accesses : list Access) : Prop :=
  accesses ≡ₚ ((Fetches <$> seq 0 n) ++ (Returns <$> seq 0 n))%list
  /\ forall l1 l2 i, accesses = (l1 ++ Returns i :: l2)%list -> Fetches i ∈ l1.

(** The principals in the order of the first accesses of their goroutines,
    and in the order of the second ones. *)
Definition fetched (ids : list string) (accesses : list Access) : list string :=
  omap (fun a => match a with Fetches i => ids !! i | Returns _ => None end) accesses.

Definition returned (ids : list string) (accesses : list Access) : list string :=
  omap (fun a => match a with Returns i => ids !! i | Fetches _ => None end) accesses.

(** The order of the first accesses, as a schedule of goroutines. *)
Definition fetch_order (accesses : list Access) : list nat :=
  omap (fun a => match a with Fetches i => Some i | Returns _ => None end) accesses.

(** The run in which no access falls between the two of a goroutine. *)
Definition atomic_run (sched : list nat) : list Access :=
  sched ≫= (fun i => [Fetches i; Returns i]).

(** What the first access of the goroutine of [sa] leaves it holding. *)
Definition held (env : Env) (sa : string) : Stage :=
  if fetch_fails env sa then Holding None None true
  else Holding (fst (fetch env sa)) None false.

(** The accesses [accesses] that remain can follow the stages [stages] the
    goroutines are at: no access comes twice; a first access is that of a
    goroutine still waiting; a second one is that of a goroutine holding
    its result, or of one whose first access comes before it. *)
Definition on_course (env : Env) (ids : list string) (stages : list Stage)
    (accesses : list Access) : Prop :=
  NoDup accesses
  /\ (forall i, Fetches i ∈ accesses ->
        stages !! i = Some Waiting /\ is_Some (ids !! i))
  /\ (forall i, Returns i ∈ accesses ->
        exists sa, ids !! i = Some sa
          /\ (stages !! i = Some (held env sa)
              \/ (stages !! i = Some Waiting
                  /\ forall l1 l2, accesses = (l1 ++ Returns i :: l2)%list ->
                                   Fetches i ∈ l1))).

(** * Properties *)

(** ** Facts about the precedence order *)

Lemma valid_kind_cases kind :
  valid_kind kind ->
  kind = USER_PROVIDED_USER_MANAGED
  \/ kind = GOOGLE_PROVIDED_USER_MANAGED
  \/ kind = GOOGLE_PROVIDED_SYSTEM_MANAGED.
Proof.
  unfold valid_kind, keyKindPrecedence. simpl. intuition auto.
Qed.

Ltac kind_cases H :=
  apply valid_kind_cases in H; destruct H as [H | [H | H]]; subst.

Lemma valid_kind_nonempty kind : valid_kind kind -> String.eqb kind "" = false.
Proof. intros H. kind_cases H; reflexivity. Qed.

Lemma valid_kind_precedence_range kind :
  valid_kind kind -> 0 <= precedence kind <= 2.
Proof. intros H. kind_cases H; vm_compute; split; discriminate. Qed.

Lemma precedence_inj k1 k2 :
  valid_kind k1 -> valid_kind k2 -> precedence k1 = precedence k2 -> k1 = k2.
Proof.
  intros H1 H2. kind_cases H1; kind_cases H2; vm_compute; intros E;
    first [reflexivity | discriminate E].
Qed.

Lemma valid_USER_PROVIDED_USER_MANAGED : valid_kind USER_PROVIDED_USER_MANAGED.
Proof. unfold valid_kind; simpl; auto. Qed.

Lemma valid_GOOGLE_PROVIDED_USER_MANAGED : valid_kind GOOGLE_PROVIDED_USER_MANAGED.
Proof. unfold valid_kind; simpl; auto. Qed.

Lemma valid_GOOGLE_PROVIDED_SYSTEM_MANAGED : valid_kind GOOGLE_PROVIDED_SYSTEM_MANAGED.
Proof. unfold valid_kind; simpl; auto. Qed.

Create HintDb kinds.
#[export] Hint Resolve valid_USER_PROVIDED_USER_MANAGED
  valid_GOOGLE_PROVIDED_USER_MANAGED valid_GOOGLE_PROVIDED_SYSTEM_MANAGED : kinds.

(** ** The impossible-kind guard *)

(** C7. Mapping origin [USER_PROVIDED], type [SYSTEM_MANAGED] panics and so
    returns no value, while each of the three valid origin/type pairs returns
    the kind string origin ++ "/" ++ type. *)
Theorem C7_impossible_kind_guard :
  keyTypeAndOriginToMuxedKeyKind "SYSTEM_MANAGED" "USER_PROVIDED"
    = Panic "Invalid key type and origin combination: USER_PROVIDED/SYSTEM_MANAGED"
  /\ (forall v, keyTypeAndOriginToMuxedKeyKind "SYSTEM_MANAGED" "USER_PROVIDED" <> Ok v)
  /\ keyTypeAndOriginToMuxedKeyKind "USER_MANAGED" "USER_PROVIDED"
       = Ok ("USER_PROVIDED" ++ "/" ++ "USER_MANAGED")
  /\ keyTypeAndOriginToMuxedKeyKind "USER_MANAGED" "GOOGLE_PROVIDED"
       = Ok ("GOOGLE_PROVIDED" ++ "/" ++ "USER_MANAGED")
  /\ keyTypeAndOriginToMuxedKeyKind "SYSTEM_MANAGED" "GOOGLE_PROVIDED"
       = Ok ("GOOGLE_PROVIDED" ++ "/" ++ "SYSTEM_MANAGED")
  /\ "USER_PROVIDED" ++ "/" ++ "USER_MANAGED" = USER_PROVIDED_USER_MANAGED
  /\ "GOOGLE_PROVIDED" ++ "/" ++ "USER_MANAGED" = GOOGLE_PROVIDED_USER_MANAGED
  /\ "GOOGLE_PROVIDED" ++ "/" ++ "SYSTEM_MANAGED" = GOOGLE_PROVIDED_SYSTEM_MANAGED.
Proof.
  repeat split; try reflexivity.
  intros v H. vm_compute in H. discriminate H.
Qed.

(** ** The precedence resolver *)

Lemma resolve_step_valid res s :
  valid_kind res -> valid_kind (keyKind s) ->
  let r := resolve_step res s in
  valid_kind r
  /\ (r = res \/ r = keyKind s)
  /\ precedence r <= precedence res
  /\ precedence r <= precedence (keyKind s).
Proof.
  intros Hres Hs. unfold resolve_step.
  rewrite (valid_kind_nonempty _ Hres).
  fold (precedence (keyKind s)) (precedence res).
  destruct (Z.ltb_spec (precedence (keyKind s)) (precedence res));
    cbn zeta; repeat split; auto; lia.
Qed.

Lemma fold_resolve_step sigs : forall res,
  valid_kind res ->
  Forall (fun s => valid_kind (keyKind s)) sigs ->
  let r := fold_left resolve_step sigs res in
  valid_kind r
  /\ (r = res \/ In r (map keyKind sigs))
  /\ precedence r <= precedence res
  /\ (forall s, In s sigs -> precedence r <= precedence (keyKind s)).
Proof.
  induction sigs as [| s sigs IH]; intros res Hres Hall; cbn zeta.
  - simpl. repeat split; auto. { lia. } intros s [].
  - inversion Hall as [| ? ? Hs Hrest]; subst.
    destruct (resolve_step_valid res s Hres Hs) as (Hv & Hor & Hle1 & Hle2).
    destruct (IH (resolve_step res s) Hv Hrest) as (Hv' & Hor' & Hle' & Hmin').
    simpl. repeat split; auto.
    + destruct Hor' as [E | Hin]; [| auto].
      rewrite E. destruct Hor as [E' | E']; rewrite E'; auto.
    + lia.
    + intros s' [<- | Hin]; [lia | auto].
Qed.

(** On a non-empty list of signals of valid kinds the resolver returns, and
    what it returns is a kind of the list of least precedence index. *)
Lemma resolve_spec sigs :
  sigs <> [] ->
  Forall (fun s => valid_kind (keyKind s)) sigs ->
  exists kind,
    resolve sigs = Ok kind
    /\ valid_kind kind
    /\ In kind (map keyKind sigs)
    /\ (forall s, In s sigs -> precedence kind <= precedence (keyKind s)).
Proof.
  intros Hne Hall. destruct sigs as [| s sigs]; [congruence |].
  inversion Hall as [| ? ? Hs Hrest]; subst.
  unfold resolve. simpl.
  destruct (fold_resolve_step sigs (keyKind s) Hs Hrest) as (Hv & Hor & Hle & Hmin).
  eexists; repeat split; eauto.
  - destruct Hor as [E | Hin]; [left; symmetry; exact E | right; exact Hin].
  - intros s' [<- | Hin]; auto.
Qed.

(** C3. For every non-empty list of signals (of the three kinds), the
    resolver returns the kind that stands earliest in the fixed order
    [USER_PROVIDED/USER_MANAGED, GOOGLE_PROVIDED/USER_MANAGED,
    GOOGLE_PROVIDED/SYSTEM_MANAGED] among the kinds of the list, and every
    permutation of the list resolves to the same kind. *)
Theorem C3_resolve_earliest_in_precedence (sigs : list Signal) :
  sigs <> [] ->
  Forall (fun s => In (keyKind s) keyKindPrecedence) sigs ->
  exists kind,
    resolve sigs = Ok kind
    /\ In kind (map keyKind sigs)
    /\ (forall s, In s sigs ->
          slices_Index keyKindPrecedence kind
          <= slices_Index keyKindPrecedence (keyKind s))
    /\ (forall sigs', Permutation sigs sigs' -> resolve sigs' = Ok kind).
Proof.
  intros Hne Hall.
  destruct (resolve_spec sigs Hne Hall) as (kind & Hres & Hv & Hin & Hmin).
  exists kind. repeat split; auto.
  intros sigs' Hperm.
  assert (Hne' : sigs' <> []).
  { intros ->. apply Permutation_sym, Permutation_nil in Hperm. congruence. }
  assert (Hall' : Forall (fun s => valid_kind (keyKind s)) sigs').
  { eapply Permutation_Forall; eauto. }
  destruct (resolve_spec sigs' Hne' Hall') as (kind' & Hres' & Hv' & Hin' & Hmin').
  rewrite Hres'. f_equal.
  apply precedence_inj; auto.
  apply in_map_iff in Hin as (s & <- & Hs).
  apply in_map_iff in Hin' as (s' & <- & Hs').
  assert (Hs1 : In s sigs') by (eapply Permutation_in; eauto).
  assert (Hs2 : In s' sigs).
  { eapply Permutation_in; [apply Permutation_sym |]; eauto. }
  specialize (Hmin _ Hs2). specialize (Hmin' _ Hs1). lia.
Qed.

Lemma C3_witness :
  exists kind,
    resolve [Samples.sig GOOGLE_PROVIDED_SYSTEM_MANAGED;
             Samples.sig USER_PROVIDED_USER_MANAGED;
             Samples.sig GOOGLE_PROVIDED_USER_MANAGED] = Ok kind
    /\ kind = USER_PROVIDED_USER_MANAGED.
Proof.
  destruct (C3_resolve_earliest_in_precedence
              [Samples.sig GOOGLE_PROVIDED_SYSTEM_MANAGED;
               Samples.sig USER_PROVIDED_USER_MANAGED;
               Samples.sig GOOGLE_PROVIDED_USER_MANAGED])
    as (kind & Hres & _).
  - discriminate.
  - repeat (constructor; [simpl; auto 10 |]). constructor.
  - exists kind. split; [exact Hres |].
    vm_compute in Hres. injection Hres as <-. reflexivity.
Defined.

(** ** The validity-period check *)

Lemma Time_eqb_spec t u : reflect (t = u) (Time_eqb t u).
Proof.
  destruct t as [s1 n1 l1], u as [s2 n2 l2]. unfold Time_eqb. simpl.
  destruct (Z.eqb_spec s1 s2) as [-> | Hs]; simpl;
    [| constructor; intros E; injection E; auto].
  destruct (Z.eqb_spec n1 n2) as [-> | Hn]; simpl;
    [| constructor; intros E; injection E; auto].
  destruct l1 as [p |], l2 as [q |]; try (constructor; congruence).
  destruct (Pos.eqb_spec p q) as [-> | Hp]; constructor; congruence.
Qed.

Lemma slices_Contains_Z_In s v : slices_Contains_Z s v = true <-> In v s.
Proof.
  unfold slices_Contains_Z. rewrite existsb_exists. split.
  - intros (x & Hin & E). apply Z.eqb_eq in E. subst. exact Hin.
  - intros Hin. exists v. split; [exact Hin | apply Z.eqb_refl].
Qed.

Ltac unfold_durations :=
  unfold legacyGoogleProvidedUserManagedValidity,
    googleProvidedSystemManagedValidityV1,
    googleProvidedSystemManagedValidityV2Min,
    googleProvidedSystemManagedValidityV2Max,
    serviceAccountKeyExpiryHours,
    Hour, Minute, Second, Millisecond, Microsecond, Nanosecond in *.

(** C4. On every certificate exactly one branch of the validity-period
    check fires and appends exactly one signal. Taken in their order, the
    six windows give their kinds: NotAfter 9999-12-31T23:59:59Z and the
    10-year window give GOOGLE_PROVIDED/USER_MANAGED, 396h15m gives
    GOOGLE_PROVIDED/SYSTEM_MANAGED, the eight org-policy durations give
    GOOGLE_PROVIDED/USER_MANAGED, a window strictly between 2 years and
    2 years + 31 days gives GOOGLE_PROVIDED/SYSTEM_MANAGED, and any other
    window gives USER_PROVIDED/USER_MANAGED. *)
Theorem C4_validity_period_one_branch (k : SAKey) :
  let c := cert k in
  let w := Time_Sub (NotAfter c) (NotBefore c) in
  let noExpiry := time_Date_UTC 9999 12 31 23 59 59 0 in
  let orgPolicy := map (fun h => h * Hour) [1; 8; 24; 168; 336; 720; 1440; 2160] in
  exists s,
    CheckValidityPeriod k = append_signal k s
    /\ signals (CheckValidityPeriod k) = (signals k ++ [s])%list
    /\ (NotAfter c = noExpiry -> keyKind s = GOOGLE_PROVIDED_USER_MANAGED)
    /\ (w = 87600 * Hour -> keyKind s = GOOGLE_PROVIDED_USER_MANAGED)
    /\ (NotAfter c <> noExpiry -> w = 396 * Hour + 15 * Minute ->
          keyKind s = GOOGLE_PROVIDED_SYSTEM_MANAGED)
    /\ (In w orgPolicy -> keyKind s = GOOGLE_PROVIDED_USER_MANAGED)
    /\ (NotAfter c <> noExpiry ->
          2 * 365 * 24 * Hour < w < (2 * 365 + 31) * 24 * Hour ->
          keyKind s = GOOGLE_PROVIDED_SYSTEM_MANAGED)
    /\ (NotAfter c <> noExpiry ->
          w <> 87600 * Hour -> w <> 396 * Hour + 15 * Minute ->
          ~ In w orgPolicy ->
          ~ (2 * 365 * 24 * Hour < w < (2 * 365 + 31) * 24 * Hour) ->
          keyKind s = USER_PROVIDED_USER_MANAGED).
Proof.
  intros c w noExpiry orgPolicy.
  change noExpiry with defaultMaxAfter.
  unfold CheckValidityPeriod. fold c. fold w.
  subst orgPolicy. generalize w. clear w. intros w.
  destruct (Time_eqb_spec (NotAfter c) defaultMaxAfter) as [E1 | E1].
  { eexists. split; [reflexivity |]. split; [reflexivity |]. simpl.
    repeat split; intros; first [reflexivity | contradiction]. }
  destruct (Z.eqb_spec w legacyGoogleProvidedUserManagedValidity) as [E2 | E2].
  { eexists. split; [reflexivity |]. split; [reflexivity |]. simpl.
    unfold_durations. simpl in *.
    repeat split; intros; first [reflexivity | contradiction | exfalso; lia]. }
  destruct (Z.eqb_spec w googleProvidedSystemManagedValidityV1) as [E3 | E3].
  { eexists. split; [reflexivity |]. split; [reflexivity |]. simpl.
    unfold_durations. simpl in *.
    repeat split; intros; first [reflexivity | contradiction | exfalso; lia]. }
  destruct (slices_Contains_Z serviceAccountKeyExpiryHours w) eqn:E4.
  { apply slices_Contains_Z_In in E4.
    eexists. split; [reflexivity |]. split; [reflexivity |]. simpl.
    unfold_durations. simpl in *.
    repeat split; intros; first [reflexivity | contradiction | exfalso; lia]. }
  assert (E4' : ~ In w serviceAccountKeyExpiryHours).
  { intros Hin. apply slices_Contains_Z_In in Hin. congruence. }
  clear E4.
  destruct (Z.ltb_spec googleProvidedSystemManagedValidityV2Min w) as [E5 | E5];
    [destruct (Z.ltb_spec w googleProvidedSystemManagedValidityV2Max) as [E6 | E6] |];
    simpl andb; cbv iota.
  all: eexists; (split; [reflexivity |]); (split; [reflexivity |]); simpl;
    unfold_durations; simpl in *;
    repeat split; intros; first [reflexivity | contradiction | exfalso; lia].
Qed.

Lemma C4_witness :
  exists s,
    CheckValidityPeriod (NewSAKey Samples.sa Samples.systemCert)
      = append_signal (NewSAKey Samples.sa Samples.systemCert) s
    /\ keyKind s = GOOGLE_PROVIDED_SYSTEM_MANAGED.
Proof.
  pose proof (C4_validity_period_one_branch
                (NewSAKey Samples.sa Samples.systemCert)) as H.
  cbv zeta in H. destruct H as (s & Happ & _ & _ & _ & H396 & _).
  exists s. split; [exact Happ |]. apply H396.
  - vm_compute. discriminate.
  - vm_compute. reflexivity.
Defined.

(** ** The name check *)

Lemma all_digits_spec s :
  all_digits s = true <-> Forall decimal_digit (list_ascii_of_string s).
Proof.
  induction s as [| c s IH]; simpl.
  - split; [constructor | reflexivity].
  - rewrite andb_true_iff, IH. unfold is_digit, decimal_digit.
    rewrite andb_true_iff, !Nat.leb_le. change (nat_of_ascii "0") with 48%nat.
    change (nat_of_ascii "9") with 57%nat. split.
    + intros [Hc Hs]. constructor; assumption.
    + intros H. inversion H; subst. split; assumption.
Qed.

Lemma GAIA_ID_MatchString_spec v :
  GAIA_ID_MatchString v = true <-> matches_GAIA_ID v.
Proof.
  unfold GAIA_ID_MatchString, matches_GAIA_ID. destruct v as [| c rest].
  - split; [discriminate | intros (d & E & _); discriminate E].
  - rewrite !andb_true_iff, Nat.eqb_eq, all_digits_spec. split.
    + intros [[Hc Hlen] Hd]. apply Ascii.eqb_eq in Hc. subst c.
      exists rest. auto.
    + intros (d & E & Hlen & Hd). injection E as -> ->.
      repeat split; auto.
Qed.

Lemma strings_Replace_0 s old new : strings_Replace s old new 0 = s.
Proof. destruct s; reflexivity. Qed.

Lemma strings_Replace_first pre : forall post,
  no_at pre ->
  strings_Replace (pre ++ String "@" post) "@" "." 1 = pre ++ String "." post.
Proof.
  unfold no_at. induction pre as [| c pre IH]; intros post Hno.
  - simpl. rewrite strings_Replace_0. reflexivity.
  - simpl in Hno.
    change (String c pre ++ String "@" post) with (String c (pre ++ String "@" post)).
    change (String c pre ++ String "." post) with (String c (pre ++ String "." post)).
    simpl.
    destruct (Ascii.eqb_spec c "@") as [-> | Hc]; [tauto |].
    rewrite IH by tauto. reflexivity.
Qed.

Lemma strings_Replace_absent s :
  no_at s -> strings_Replace s "@" "." 1 = s.
Proof.
  unfold no_at. induction s as [| c s IH]; intros Hno.
  - reflexivity.
  - simpl in Hno. simpl.
    destruct (Ascii.eqb_spec c "@") as [-> | Hc]; [tauto |].
    f_equal. apply IH. tauto.
Qed.

Lemma slice_to_prefix n : forall s,
  (n <= String.length s)%nat ->
  exists tail, s = slice_to s n ++ tail /\ String.length (slice_to s n) = n.
Proof.
  unfold slice_to. induction n as [| n IH]; intros s Hlen.
  - exists s. destruct s; split; reflexivity.
  - destruct s as [| c s]; simpl in Hlen; [lia |].
    destruct (IH s) as (tail & E & L); [lia |].
    exists tail. simpl.
    change (String c (substring 0 n s) ++ tail)
      with (String c (substring 0 n s ++ tail)).
    split; [f_equal; exact E | f_equal; exact L].
Qed.

Lemma checkName_appends expectedName truncatedName t v k :
  exists s,
    checkName expectedName truncatedName t v k = append_signal k s
    /\ (matches_GAIA_ID v -> keyKind s = GOOGLE_PROVIDED_USER_MANAGED)
    /\ (~ matches_GAIA_ID v ->
        v = expectedName \/ (truncatedName <> "" /\ v = truncatedName) ->
        keyKind s = GOOGLE_PROVIDED_SYSTEM_MANAGED)
    /\ (~ matches_GAIA_ID v ->
        v <> expectedName ->
        ~ (truncatedName <> "" /\ v = truncatedName) ->
        keyKind s = USER_PROVIDED_USER_MANAGED).
Proof.
  unfold checkName.
  destruct (GAIA_ID_MatchString v) eqn:Eg.
  { apply GAIA_ID_MatchString_spec in Eg.
    eexists. split; [reflexivity |]. simpl.
    repeat split; intros; first [reflexivity | contradiction]. }
  assert (Hg : ~ matches_GAIA_ID v).
  { intros H. apply GAIA_ID_MatchString_spec in H. congruence. }
  destruct (String.eqb_spec v expectedName) as [Ee | Ee].
  { eexists. split; [reflexivity |]. simpl.
    repeat split; intros; first [reflexivity | contradiction]. }
  destruct (String.eqb_spec truncatedName "") as [Et | Et]; simpl negb; cbv iota.
  { simpl andb. cbv iota. eexists. split; [reflexivity |]. simpl.
    repeat split; intros; first [reflexivity | contradiction | tauto]. }
  destruct (String.eqb_spec v truncatedName) as [Ev | Ev]; simpl andb; cbv iota.
  { eexists. split; [reflexivity |]. simpl.
    repeat split; intros; first [reflexivity | contradiction | tauto]. }
  eexists. split; [reflexivity |]. simpl.
  repeat split; intros; first [reflexivity | contradiction | tauto].
Qed.

(** C8. For every principal and certificate the name check takes
    expectedName to be the principal with only its first "@" replaced by
    ".", takes truncatedName to be the first 64 characters of expectedName
    when that is at least 64 long and the empty text otherwise, and appends
    exactly two signals, one for the subject CN and one for the issuer CN:
    GOOGLE_PROVIDED/USER_MANAGED when the value is a "1" followed by exactly
    20 digits, else GOOGLE_PROVIDED/SYSTEM_MANAGED when it equals
    expectedName or a non-empty truncatedName, else
    USER_PROVIDED/USER_MANAGED. *)
Theorem C8_checkNames_two_signals (k : SAKey) :
  let principal := serviceAccount k in
  let expectedName := strings_Replace principal "@" "." 1 in
  let truncatedName :=
    if 64 <=? Z.of_nat (String.length expectedName)
    then slice_to expectedName 64 else "" in
  let verdict (v kind : string) : Prop :=
    (matches_GAIA_ID v -> kind = GOOGLE_PROVIDED_USER_MANAGED)
    /\ (~ matches_GAIA_ID v ->
        v = expectedName \/ (truncatedName <> "" /\ v = truncatedName) ->
        kind = GOOGLE_PROVIDED_SYSTEM_MANAGED)
    /\ (~ matches_GAIA_ID v ->
        v <> expectedName ->
        ~ (truncatedName <> "" /\ v = truncatedName) ->
        kind = USER_PROVIDED_USER_MANAGED) in
  (forall pre post,
      principal = pre ++ String "@" post -> no_at pre ->
      expectedName = pre ++ String "." post)
  /\ (no_at principal -> expectedName = principal)
  /\ (64 <= Z.of_nat (String.length expectedName) ->
      String.length truncatedName = 64%nat
      /\ exists tail, expectedName = truncatedName ++ tail)
  /\ (Z.of_nat (String.length expectedName) < 64 -> truncatedName = "")
  /\ exists s1 s2,
      signals (checkNames k) = (signals k ++ [s1; s2])%list
      /\ verdict (CommonName (Subject (cert k))) (keyKind s1)
      /\ verdict (CommonName (Issuer (cert k))) (keyKind s2).
Proof.
  intros principal expectedName truncatedName verdict.
  split; [| split; [| split; [| split]]].
  - intros pre post E Hno. subst expectedName. rewrite E.
    apply strings_Replace_first. exact Hno.
  - intros Hno. apply strings_Replace_absent. exact Hno.
  - intros Hlen. subst truncatedName.
    destruct (Z.leb_spec 64 (Z.of_nat (String.length expectedName))); [| lia].
    destruct (slice_to_prefix 64 expectedName) as (tail & E & L); [lia |].
    split; [exact L | exists tail; exact E].
  - intros Hlen. subst truncatedName.
    destruct (Z.leb_spec 64 (Z.of_nat (String.length expectedName))); [lia |].
    reflexivity.
  - unfold checkNames.
    fold principal. change (expectedName_of principal) with expectedName.
    change (truncatedName_of expectedName) with truncatedName.
    destruct (checkName_appends expectedName truncatedName "SubjectCN"
                (CommonName (Subject (cert k))) k) as (s1 & E1 & V1).
    rewrite E1.
    destruct (checkName_appends expectedName truncatedName "IssuerCN"
                (CommonName (Issuer (cert (append_signal k s1))))
                (append_signal k s1)) as (s2 & E2 & V2).
    rewrite E2. exists s1, s2. simpl. rewrite <- app_assoc. simpl.
    split; [reflexivity |]. split; [exact V1 | exact V2].
Qed.

Lemma C8_witness :
  exists s1 s2,
    signals (checkNames (NewSAKey Samples.sa Samples.userManagedCert)) = [s1; s2]
    /\ keyKind s1 = GOOGLE_PROVIDED_USER_MANAGED
    /\ keyKind s2 = GOOGLE_PROVIDED_SYSTEM_MANAGED.
Proof.
  pose proof (C8_checkNames_two_signals
                (NewSAKey Samples.sa Samples.userManagedCert)) as H.
  cbv zeta in H.
  destruct H as (_ & _ & _ & _ & s1 & s2 & Hs & (Hg1 & _) & (_ & Hn2 & _)).
  exists s1, s2. split; [exact Hs |]. split.
  - apply Hg1. exists "12233445566778899001". split; [reflexivity |].
    split; [reflexivity |].
    repeat (constructor; [vm_compute; split; lia |]). constructor.
  - apply Hn2.
    + intros (d & E & _). discriminate E.
    + left. reflexivity.
Defined.

(** ** What the checks add to a key *)

Ltac solve_valid_signals :=
  unfold valid_signals;
  repeat (apply Forall_cons_2; [simpl; auto with kinds |]);
  apply Forall_nil_2.

Lemma add_signals_nil k : add_signals k [] = k.
Proof. destruct k. unfold add_signals. simpl. rewrite app_nil_r. reflexivity. Qed.

Lemma add_signals_add k a b :
  add_signals (add_signals k a) b = add_signals k (a ++ b).
Proof. unfold add_signals. simpl. rewrite app_assoc. reflexivity. Qed.

Lemma append_signal_add k s : append_signal k s = add_signals k [s].
Proof. reflexivity. Qed.

Lemma checkName_add (e t tag v : string) :
  exists s,
    valid_kind (keyKind s)
    /\ forall k, checkName e t tag v k = add_signals k [s].
Proof.
  unfold checkName.
  destruct (GAIA_ID_MatchString v);
    [| destruct (String.eqb v e);
       [| destruct (negb (String.eqb t "") && String.eqb v t)]];
    eexists; (split; [| intros; reflexivity]); simpl; auto with kinds.
Qed.

Lemma checkNames_add k :
  checkNames k = add_signals k (names_signals (serviceAccount k) (cert k))
  /\ valid_signals (names_signals (serviceAccount k) (cert k))
  /\ length (names_signals (serviceAccount k) (cert k)) = 2%nat.
Proof.
  unfold names_signals, checkNames. simpl.
  set (e := expectedName_of (serviceAccount k)).
  set (t := truncatedName_of e).
  destruct (checkName_add e t "SubjectCN" (CommonName (Subject (cert k))))
    as (s1 & V1 & E1).
  rewrite !E1. simpl.
  destruct (checkName_add e t "IssuerCN" (CommonName (Issuer (cert k))))
    as (s2 & V2 & E2).
  rewrite !E2. rewrite add_signals_add. simpl.
  split; [reflexivity |]. split; [| reflexivity].
  apply Forall_cons_2; [exact V1 |]. apply Forall_cons_2; [exact V2 |].
  apply Forall_nil_2.
Qed.

Lemma CheckValidityPeriod_add k :
  CheckValidityPeriod k = add_signals k (validity_signals (serviceAccount k) (cert k))
  /\ valid_signals (validity_signals (serviceAccount k) (cert k))
  /\ length (validity_signals (serviceAccount k) (cert k)) = 1%nat.
Proof.
  unfold validity_signals, CheckValidityPeriod. simpl.
  repeat match goal with
         | |- context [if ?b then _ else _] => destruct b
         end;
    simpl; (split; [reflexivity |]); (split; [| reflexivity]);
    solve_valid_signals.
Qed.

Lemma CheckExtensions_add k :
  CheckExtensions k = add_signals k (extension_signals (serviceAccount k) (cert k))
  /\ valid_signals (extension_signals (serviceAccount k) (cert k)).
Proof.
  unfold extension_signals, CheckExtensions. simpl.
  destruct (negb (length (ExtKeyUsage (cert k)) =? 1)%nat
            || negb (nth 0 (ExtKeyUsage (cert k)) 0 =? x509_ExtKeyUsageClientAuth));
    simpl;
    destruct (negb (KeyUsage (cert k) =? x509_KeyUsageDigitalSignature));
    simpl;
    rewrite ?append_signal_add, ?add_signals_add, ?add_signals_nil;
    (split; [reflexivity | solve_valid_signals]).
Qed.

Lemma checkCrypto_add k :
  match crypto_signals (serviceAccount k) (cert k) with
  | Ok new => checkCrypto k = Ok (add_signals k new) /\ valid_signals new
  | Panic msg => checkCrypto k = Panic msg
  | Exit code => checkCrypto k = Exit code
  end.
Proof.
  unfold crypto_signals, checkCrypto. simpl.
  destruct (negb (PublicKeyAlgorithm (cert k) =? x509_RSA)); simpl;
    destruct (negb (SignatureAlgorithm (cert k) =? x509_SHA1WithRSA)); simpl;
    (destruct (PublicKey_ (cert k)) as [N E | | | |]; simpl; try reflexivity);
    (destruct (BitLen N =? 1024); [| destruct (negb (BitLen N =? 2048))]);
    simpl;
    rewrite ?append_signal_add, ?add_signals_add, ?add_signals_nil;
    (split; [reflexivity | solve_valid_signals]).
Qed.

(** [check] either panics in the crypto check or returns the key with the
    signals of the four checks appended, names first; at least three of
    them then. *)
Lemma check_add k :
  match check_signals (serviceAccount k) (cert k) with
  | Ok new =>
      check k = Ok (add_signals k new)
      /\ valid_signals new /\ (3 <= length new)%nat
  | Panic msg => check k = Panic msg
  | Exit code => check k = Exit code
  end.
Proof.
  unfold check_signals, check.
  destruct (checkNames_add k) as (En & Vn & Ln).
  destruct (checkNames_add (NewSAKey (serviceAccount k) (cert k))) as (En0 & _).
  simpl in En0. rewrite En, En0.
  set (ns := names_signals (serviceAccount k) (cert k)) in *.
  pose proof (checkCrypto_add (add_signals k ns)) as Hc.
  pose proof (checkCrypto_add
                (add_signals (NewSAKey (serviceAccount k) (cert k)) ns)) as Hc0.
  simpl in Hc, Hc0.
  destruct (crypto_signals (serviceAccount k) (cert k)) as [cs | msg | code].
  - destruct Hc as (Ec & Vc). destruct Hc0 as (Ec0 & _).
    rewrite Ec, Ec0. simpl.
    rewrite !add_signals_add.
    destruct (CheckValidityPeriod_add (add_signals k (ns ++ cs))) as (Ev & Vv & Lv).
    destruct (CheckValidityPeriod_add
                (add_signals (NewSAKey (serviceAccount k) (cert k)) (ns ++ cs)))
      as (Ev0 & _).
    simpl in Ev, Ev0, Vv, Lv. rewrite Ev, Ev0, !add_signals_add.
    set (vs := validity_signals (serviceAccount k) (cert k)) in *.
    destruct (CheckExtensions_add (add_signals k ((ns ++ cs) ++ vs))) as (Ee & Ve).
    destruct (CheckExtensions_add
                (add_signals (NewSAKey (serviceAccount k) (cert k)) ((ns ++ cs) ++ vs)))
      as (Ee0 & _).
    simpl in Ee, Ee0, Ve. rewrite Ee, Ee0, !add_signals_add. simpl.
    split; [reflexivity |]. split.
    + unfold valid_signals in *. rewrite !Forall_app. auto.
    + rewrite !length_app. lia.
  - rewrite Hc, Hc0. reflexivity.
  - rewrite Hc, Hc0. reflexivity.
Qed.

(** ** The crypto check on a key that is not RSA *)

(** Whatever the algorithm field says, a public key of another dynamic type
    makes the crypto check panic, and with it [check] and
    [determineKeyKind]. *)
Lemma checkCrypto_panics_without_rsa_key k :
  is_rsa_key (PublicKey_ (cert k)) = false ->
  exists msg,
    checkCrypto k = Panic msg
    /\ check k = Panic msg
    /\ determineKeyKind k = Panic msg.
Proof.
  intros Hpk.
  assert (Hc : forall k', cert k' = cert k ->
             checkCrypto k' = Panic ("interface conversion: interface {} is "
                                     ++ dynamic_type (PublicKey_ (cert k))
                                     ++ ", not *rsa.PublicKey")).
  { intros k' Ek'. unfold checkCrypto.
    repeat match goal with
           | |- context [if ?b then _ else _] => destruct b
           end; simpl; rewrite ?Ek';
      destruct (PublicKey_ (cert k)); simpl in *; try discriminate; reflexivity. }
  eexists. split; [apply Hc; reflexivity |].
  assert (Hcheck : check k = Panic ("interface conversion: interface {} is "
                                    ++ dynamic_type (PublicKey_ (cert k))
                                    ++ ", not *rsa.PublicKey")).
  { unfold check. rewrite Hc; [reflexivity |].
    destruct (checkNames_add k) as (-> & _). reflexivity. }
  split; [exact Hcheck |].
  unfold determineKeyKind. rewrite Hcheck. reflexivity.
Qed.

Lemma checkCrypto_returns_with_rsa_key k :
  is_rsa_key (PublicKey_ (cert k)) = true ->
  exists k', checkCrypto k = Ok k'.
Proof.
  intros Hpk. unfold checkCrypto.
  destruct (negb (PublicKeyAlgorithm (cert k) =? x509_RSA)); simpl;
    destruct (negb (SignatureAlgorithm (cert k) =? x509_SHA1WithRSA)); simpl;
    (destruct (PublicKey_ (cert k)) as [N E | | | |]; simpl in *;
     try discriminate);
    (destruct (BitLen N =? 1024); [| destruct (negb (BitLen N =? 2048))]);
    eexists; reflexivity.
Qed.

(** With an RSA key the four checks all run: [check] returns, and the key
    then holds at least three more signals, all of valid kinds. *)
Lemma check_returns_with_rsa_key k :
  is_rsa_key (PublicKey_ (cert k)) = true ->
  exists new,
    check k = Ok (add_signals k new)
    /\ valid_signals new /\ (3 <= length new)%nat.
Proof.
  intros Hpk.
  assert (Hok : exists k', check k = Ok k').
  { unfold check.
    destruct (checkCrypto_returns_with_rsa_key (checkNames k)) as (k' & ->).
    - destruct (checkNames_add k) as (-> & _). exact Hpk.
    - simpl. eexists. reflexivity. }
  destruct Hok as (k' & Hok).
  pose proof (check_add k) as H.
  destruct (check_signals (serviceAccount k) (cert k)) as [new | msg | code].
  - exists new. exact H.
  - congruence.
  - congruence.
Qed.

(** The panic "No signals found for key" is out of reach of
    [determineKeyKind]: it ends in another panic or returns. *)
Lemma determineKeyKind_no_empty_panic k :
  determineKeyKind k <> Panic "No signals found for key".
Proof.
  unfold determineKeyKind.
  destruct (is_rsa_key (PublicKey_ (cert k))) eqn:Hpk.
  - destruct (check_returns_with_rsa_key k Hpk) as (new & -> & _ & Hlen).
    simpl. unfold resolve. simpl. rewrite length_app.
    destruct (length (signals k) + length new =? 0)%nat eqn:E.
    + apply Nat.eqb_eq in E. lia.
    + simpl. discriminate.
  - destruct (checkCrypto_panics_without_rsa_key k Hpk) as (msg & Hc & -> & _).
    simpl. unfold checkCrypto in Hc.
    intros E. injection E as ->. revert Hc.
    repeat match goal with
           | |- context [if ?b then _ else _] => destruct b
           end;
      destruct (PublicKey_ _); simpl; discriminate.
Qed.

(** C1. The specification asks that a certificate whose public-key algorithm is not
    RSA passes the crypto check without a crash. On the ECDSA certificate
    [Samples.ecdsaCert] the check appends the "not RSA" signal and then
    panics in the unchecked type assertion of the bit-length read, and so
    do [check] and [determineKeyKind]: no signal list is returned. *)
Theorem C1_crypto_check_panics_on_ecdsa :
  PublicKeyAlgorithm Samples.ecdsaCert <> x509_RSA
  /\ checkCrypto (NewSAKey Samples.sa Samples.ecdsaCert)
     = Panic "interface conversion: interface {} is *ecdsa.PublicKey, not *rsa.PublicKey"
  /\ determineKeyKind (NewSAKey Samples.sa Samples.ecdsaCert)
     = Panic "interface conversion: interface {} is *ecdsa.PublicKey, not *rsa.PublicKey".
Proof.
  split; [vm_compute; discriminate |]. split; vm_compute; reflexivity.
Qed.

(** C5. The specification asks that classification yields at least one signal for
    every certificate. On [Samples.ecdsaCert] classification ends in the
    panic of the crypto check, before the validity-period check runs, and
    returns no key and no signal list. The panic is not the one of the
    empty signal list, which stays out of reach. *)
Theorem C5_classification_returns_nothing_on_ecdsa :
  check (NewSAKey Samples.sa Samples.ecdsaCert)
    = Panic "interface conversion: interface {} is *ecdsa.PublicKey, not *rsa.PublicKey"
  /\ (forall k', check (NewSAKey Samples.sa Samples.ecdsaCert) <> Ok k')
  /\ determineKeyKind (NewSAKey Samples.sa Samples.ecdsaCert)
     <> Panic "No signals found for key".
Proof.
  assert (E : check (NewSAKey Samples.sa Samples.ecdsaCert)
              = Panic "interface conversion: interface {} is *ecdsa.PublicKey, not *rsa.PublicKey")
    by (vm_compute; reflexivity).
  split; [exact E |]. split; [intros k'; rewrite E; discriminate |].
  apply determineKeyKind_no_empty_panic.
Qed.

(** ** Determining the kind again *)

Lemma resolve_twice sigs :
  sigs <> [] -> valid_signals sigs -> resolve (sigs ++ sigs) = resolve sigs.
Proof.
  intros Hne Hv.
  destruct (resolve_spec sigs Hne Hv) as (kind & -> & Hk & Hin & Hmin).
  assert (Hne2 : (sigs ++ sigs)%list <> []).
  { destruct sigs; [congruence | discriminate]. }
  assert (Hv2 : valid_signals (sigs ++ sigs)).
  { unfold valid_signals. rewrite Forall_app. auto. }
  destruct (resolve_spec _ Hne2 Hv2) as (kind2 & -> & Hk2 & Hin2 & Hmin2).
  f_equal. apply precedence_inj; auto.
  apply in_map_iff in Hin as (s & <- & Hs).
  apply in_map_iff in Hin2 as (s2 & <- & Hs2).
  assert (Hs2' : In s2 sigs) by (apply in_app_or in Hs2; tauto).
  specialize (Hmin _ Hs2'). specialize (Hmin2 s (in_or_app _ _ _ (or_introl Hs))).
  lia.
Qed.

(** What [determineKeyKind] does to any key, from what it does to the
    fresh key of the same principal and certificate. *)
Lemma determineKeyKind_from_fresh k kind k1 :
  determineKeyKind (NewSAKey (serviceAccount k) (cert k)) = Ok (kind, k1) ->
  serviceAccount k1 = serviceAccount k
  /\ cert k1 = cert k
  /\ SAKey_keyKind k1 = kind
  /\ valid_signals (signals k1)
  /\ (3 <= length (signals k1))%nat
  /\ resolve (signals k1) = Ok kind
  /\ exists kind' k',
       determineKeyKind k = Ok (kind', k')
       /\ resolve (signals k ++ signals k1) = Ok kind'
       /\ signals k' = (signals k ++ signals k1)%list
       /\ SAKey_keyKind k' = kind'.
Proof.
  intros H. unfold determineKeyKind in *.
  pose proof (check_add k) as Hk.
  pose proof (check_add (NewSAKey (serviceAccount k) (cert k))) as H0.
  simpl in H0.
  destruct (check_signals (serviceAccount k) (cert k)) as [new | msg | code].
  2,3: rewrite H0 in H; simpl in H; discriminate H.
  destruct H0 as (E0 & Hv & Hlen). destruct Hk as (Ek & _).
  rewrite E0 in H. simpl in H.
  destruct (resolve new) as [r | |] eqn:Er; simpl in H; try discriminate H.
  injection H as <- <-. simpl.
  repeat (split; [first [reflexivity | assumption] |]).
  rewrite Ek. simpl. unfold resolve. rewrite length_app.
  destruct (length (signals k) + length new =? 0)%nat eqn:E.
  { apply Nat.eqb_eq in E. lia. }
  simpl. eexists _, _. repeat split; reflexivity.
Qed.

(** [determineKeyKind] leaves the principal and the certificate of the key
    as they were. *)
Lemma determineKeyKind_keeps k kind k' :
  determineKeyKind k = Ok (kind, k') ->
  serviceAccount k' = serviceAccount k /\ cert k' = cert k.
Proof.
  intros E. unfold determineKeyKind in E.
  pose proof (check_add k) as Hadd.
  destruct (check_signals (serviceAccount k) (cert k)) as [new | msg | code].
  - destruct Hadd as (Ek & _). rewrite Ek in E. simpl in E.
    destruct (resolve (signals k ++ new)) as [r | |]; simpl in E;
      try discriminate E.
    injection E as _ <-. split; reflexivity.
  - rewrite Hadd in E. discriminate E.
  - rewrite Hadd in E. discriminate E.
Qed.

(** C9. Classification is a function of the principal and the certificate:
    [determineKeyKind] takes the key and nothing else, no shared state, and
    what it returns on the fresh key of a principal and a certificate is
    fixed by the two: the signal list is [check_signals] of them and the
    kind is what [resolve] makes of that list. So a repeated invocation on
    the same principal and certificate, on a key built for them as the
    program builds one for every call, returns the same kind and leaves the
    same signal list as the single invocation, whatever the kind field of
    that key held before. Calling again is safe: the call returns whenever
    the first one did, also on the key that the first one left, and there
    it resolves the same kind. *)
Theorem C9_repeated_determination (sa : string) (c : Certificate)
    (kind : string) (k1 : SAKey) :
  determineKeyKind (NewSAKey sa c) = Ok (kind, k1) ->
  check_signals sa c = Ok (signals k1)
  /\ resolve (signals k1) = Ok kind
  /\ (forall k, serviceAccount k = sa -> cert k = c -> signals k = [] ->
        exists k', determineKeyKind k = Ok (kind, k')
                   /\ signals k' = signals k1
                   /\ SAKey_keyKind k' = kind
                   /\ serviceAccount k' = sa
                   /\ cert k' = c)
  /\ exists k2, determineKeyKind k1 = Ok (kind, k2).
Proof.
  intros H.
  destruct (determineKeyKind_from_fresh (NewSAKey sa c) kind k1 H)
    as (Esa & Ec & _ & Hv & Hlen & Hres & _).
  simpl in Esa, Ec.
  assert (Hne : signals k1 <> []).
  { intros Hnil. rewrite Hnil in Hlen. simpl in Hlen. lia. }
  repeat split.
  - pose proof (check_add (NewSAKey sa c)) as Hadd. simpl in Hadd.
    unfold determineKeyKind in H.
    destruct (check_signals sa c) as [new | msg | code].
    + destruct Hadd as (E & _). rewrite E in H. simpl in H.
      destruct (resolve new) as [r | |]; simpl in H; try discriminate H.
      injection H as _ <-. reflexivity.
    + rewrite Hadd in H. discriminate H.
    + rewrite Hadd in H. discriminate H.
  - exact Hres.
  - intros k Hsa Hc Hnil.
    assert (H' : determineKeyKind (NewSAKey (serviceAccount k) (cert k))
                 = Ok (kind, k1)) by (rewrite Hsa, Hc; exact H).
    rewrite <- Hsa, <- Hc.
    destruct (determineKeyKind_from_fresh k kind k1 H')
      as (_ & _ & _ & _ & _ & _ & kind' & k' & E & Hr & Hs & Hk).
    rewrite Hnil in Hr, Hs. simpl in Hr, Hs.
    assert (Hkk : kind' = kind) by congruence.
    rewrite Hkk in E, Hk.
    destruct (determineKeyKind_keeps k kind k' E) as (Ksa & Kc).
    exists k'. repeat split; assumption.
  - assert (H1 : determineKeyKind (NewSAKey (serviceAccount k1) (cert k1))
                 = Ok (kind, k1)) by (rewrite Esa, Ec; exact H).
    destruct (determineKeyKind_from_fresh k1 kind k1 H1)
      as (_ & _ & _ & _ & _ & _ & kind' & k2 & E & Hr & _).
    rewrite resolve_twice in Hr by assumption.
    assert (Hkk : kind' = kind) by congruence.
    rewrite Hkk in E. exists k2. exact E.
Qed.

Lemma C9_witness :
  exists kind k1,
    determineKeyKind (NewSAKey Samples.sa Samples.systemCert) = Ok (kind, k1)
    /\ check_signals Samples.sa Samples.systemCert = Ok (signals k1)
    /\ exists k',
         determineKeyKind {| serviceAccount := Samples.sa;
                             cert := Samples.systemCert;
                             signals := [];
                             SAKey_keyKind := USER_PROVIDED_USER_MANAGED |}
         = Ok (kind, k')
         /\ signals k' = signals k1.
Proof.
  destruct (determineKeyKind (NewSAKey Samples.sa Samples.systemCert))
    as [[kind k1] | |] eqn:E; try (vm_compute in E; discriminate E).
  destruct (C9_repeated_determination Samples.sa Samples.systemCert kind k1 E)
    as (Hsig & _ & Hany & _).
  destruct (Hany {| serviceAccount := Samples.sa;
                    cert := Samples.systemCert;
                    signals := [];
                    SAKey_keyKind := USER_PROVIDED_USER_MANAGED |}
              eq_refl eq_refl eq_refl) as (k' & E' & Hs & _).
  exists kind, k1. split; [reflexivity |]. split; [exact Hsig |].
  exists k'. split; [exact E' | exact Hs].
Defined.

(** ** Fetching the certificates of one principal *)

Lemma decode_certs_shape env keys : forall certs,
  (exists m, decode_certs env keys certs = (Some m, None))
  \/ (exists err, decode_certs env keys certs = (None, Some err)).
Proof.
  induction keys as [| [keyId v] keys IH]; intros certs; simpl.
  - left. eauto.
  - destruct (pem_Decode env v) as [[block |] rest]; [| right; eauto].
    destruct (0 <? String.length rest)%nat; [right; eauto |].
    destruct (negb (String.eqb (Block_Type block) "CERTIFICATE")); [right; eauto |].
    destruct (0 <? length (Block_Headers block))%nat; [right; eauto |].
    destruct (x509_ParseCertificate env (Block_Bytes block)); [apply IH | right; eauto].
Qed.

Lemma decode_certs_bad env keys : forall certs,
  Exists (fun kv => bad_pem env (snd kv)) keys ->
  exists err, decode_certs env keys certs = (None, Some err).
Proof.
  induction keys as [| [keyId v] keys IH]; intros certs Hbad.
  - inversion Hbad.
  - simpl. unfold bad_pem in Hbad.
    destruct (pem_Decode env v) as [[block |] rest] eqn:Ed; [| eauto].
    destruct (0 <? String.length rest)%nat eqn:Er; [eauto |].
    destruct (String.eqb_spec (Block_Type block) "CERTIFICATE") as [Et | Et];
      simpl; [| eauto].
    destruct (0 <? length (Block_Headers block))%nat eqn:Eh; [eauto |].
    destruct (x509_ParseCertificate env (Block_Bytes block)) as [cert | err] eqn:Ep;
      [| eauto].
    apply IH. inversion Hbad as [? ? Hhead | ? ? Htail]; subst; [| exact Htail].
    exfalso. simpl in Hhead. rewrite Ed in Hhead.
    destruct Hhead as [Hr | [Ht | [Hh | (err & He)]]].
    + apply Hr. destruct rest; [reflexivity | discriminate Er].
    + contradiction.
    + apply Hh. destruct (Block_Headers block); [reflexivity | discriminate Eh].
    + congruence.
Qed.

Lemma getServiceAccountKeyCerts_trace env sa trace :
  getServiceAccountKeyCerts env sa trace
  = (fetch env sa, (trace ++ [HttpGet (x509_url sa)])%list).
Proof.
  unfold fetch, getServiceAccountKeyCerts.
  destruct (http_Get env (x509_url sa)) as [resp | err]; [| reflexivity].
  destruct (StatusCode resp =? http_StatusNotFound); [reflexivity |].
  destruct (negb (StatusCode resp =? http_StatusOK)); [reflexivity |].
  destruct (Body resp) as [body | err]; [| reflexivity].
  destruct (json_Unmarshal env body); reflexivity.
Qed.

(** The fetch returns a map and no error, or an error and no map. *)
Lemma fetch_shape env sa :
  (exists m, fetch env sa = (Some m, None))
  \/ (exists err, fetch env sa = (None, Some err)).
Proof.
  unfold fetch, getServiceAccountKeyCerts.
  destruct (http_Get env (x509_url sa)) as [resp | err]; [| right; eauto].
  destruct (StatusCode resp =? http_StatusNotFound); [right; eauto |].
  destruct (negb (StatusCode resp =? http_StatusOK)); [right; eauto |].
  destruct (Body resp) as [body | err]; [| right; eauto].
  destruct (json_Unmarshal env body) as [keys | err]; [| right; eauto].
  simpl. apply decode_certs_shape.
Qed.

(** C10. Fetching one principal's certificates is all-or-nothing: when the
    endpoint answers 200 with a map of keys and any one value fails to
    decode as PEM, has trailing bytes, a block type other than CERTIFICATE,
    headers, or a certificate that does not parse, the fetch returns an
    error and the nil map, wherever that key comes in the iteration and
    however many other keys are well-formed. *)
Theorem C10_fetch_all_or_nothing (env : Env) (sa : string) (trace : list Call)
    (resp : Response) (body : string) (keys : list (string * string)) :
  http_Get env (x509_url sa) = inl resp ->
  StatusCode resp = http_StatusOK ->
  Body resp = inl body ->
  json_Unmarshal env body = inl keys ->
  (exists keyId v, In (keyId, v) keys /\ bad_pem env v) ->
  exists err,
    getServiceAccountKeyCerts env sa trace
    = ((None, Some err), (trace ++ [HttpGet (x509_url sa)])%list).
Proof.
  intros Hget Hstatus Hbody Hjson (keyId & v & Hin & Hbad).
  destruct (decode_certs_bad env keys ∅) as (err & Herr).
  { apply Exists_exists. exists (keyId, v). split; [| exact Hbad].
    apply list_elem_of_In. exact Hin. }
  exists err. unfold getServiceAccountKeyCerts.
  rewrite Hget, Hstatus, Hbody, Hjson. simpl. rewrite Herr. reflexivity.
Qed.

Lemma C10_witness :
  exists err,
    getServiceAccountKeyCerts SampleEnv.env "mixed@prj" []
    = ((None, Some err), [HttpGet (x509_url "mixed@prj")]).
Proof.
  apply (C10_fetch_all_or_nothing SampleEnv.env "mixed@prj" []
           {| StatusCode := 200; Body := inl "two-keys" |} "two-keys"
           [("k1", "pem-1"); ("k2", "garbage")]).
  - reflexivity.
  - reflexivity.
  - reflexivity.
  - reflexivity.
  - exists "k2", "garbage". split; [simpl; auto | exact I].
Defined.

(** ** The fan-out *)

Section FanOut.

Context {St I O : Type}.
Variable f : Task St I O.
Variable items : list I.

Lemma writes_length {A : Type} (g : I -> A) sched : forall l,
  length (writes items g sched l) = length l.
Proof.
  induction sched as [| i sched IH]; intros l; simpl; [reflexivity |].
  destruct (items !! i); rewrite IH; [apply length_insert | reflexivity].
Qed.

Lemma writes_lookup {A : Type} (g : I -> A) sched : forall (l : list A) j,
  length l = length items ->
  writes items g sched l !! j
  = if decide (j ∈ sched) then g <$> items !! j else l !! j.
Proof.
  induction sched as [| i sched IH]; intros l j Hlen; simpl.
  - destruct (decide (j ∈ [])) as [Hin | _]; [| reflexivity].
    apply elem_of_nil in Hin. contradiction.
  - fold (writes items g sched
           (match items !! i with Some item => <[i := g item]> l | None => l end)).
    rewrite IH by (destruct (items !! i); rewrite ?length_insert; exact Hlen).
    destruct (decide (j ∈ sched)) as [Hin | Hnin].
    + rewrite decide_True by (apply elem_of_cons; auto). reflexivity.
    + destruct (decide (j = i)) as [-> | Hne].
      * rewrite decide_True by (apply elem_of_cons; auto).
        destruct (items !! i) as [item |] eqn:Ei; simpl.
        -- apply list_lookup_insert_eq. rewrite Hlen.
           apply lookup_lt_Some in Ei. exact Ei.
        -- apply lookup_ge_None. rewrite Hlen.
           apply lookup_ge_None in Ei. exact Ei.
      * rewrite decide_False by (rewrite elem_of_cons; tauto).
        destruct (items !! i); [apply list_lookup_insert_ne; auto | reflexivity].
Qed.

(** Once every goroutine has run, slot [i] holds the value of item [i]. *)
Lemma writes_all {A : Type} (g : I -> A) sched (l : list A) :
  sched ≡ₚ seq 0 (length items) ->
  length l = length items ->
  writes items g sched l = g <$> items.
Proof.
  intros Hperm Hlen. apply list_eq. intros j.
  rewrite writes_lookup by exact Hlen. rewrite list_lookup_fmap.
  destruct (decide (j ∈ sched)) as [Hin | Hnin]; [reflexivity |].
  assert (Hge : (length items <= j)%nat).
  { destruct (Nat.le_gt_cases (length items) j) as [Hle | Hlt]; [exact Hle |].
    exfalso. apply Hnin. rewrite Hperm. apply elem_of_seq. lia. }
  rewrite (proj2 (lookup_ge_None l j)) by lia.
  rewrite (proj2 (lookup_ge_None items j)) by lia. reflexivity.
Qed.

Lemma scheduled_elem sched item : item ∈ scheduled items sched -> item ∈ items.
Proof.
  unfold scheduled. rewrite list_elem_of_omap.
  intros (i & _ & Hi). eapply list_elem_of_lookup_2. exact Hi.
Qed.

(** When each task returns a result that does not depend on the shared
    state, for states kept within [Inv], the goroutines fill the slots
    with those results and act on the state one task after the other. *)
Lemma run_goroutines_spec (Inv : St -> Prop) (g : I -> O) (e : I -> error)
    (h : I -> St -> St) :
  (forall item st, item ∈ items -> Inv st ->
     f item st = Ok ((g item, e item), h item st) /\ Inv (h item st)) ->
  forall sched st res errs,
    Inv st ->
    run_goroutines f items sched st res errs
    = Ok ((writes items g sched res, writes items e sched errs), effects items h sched st)
    /\ Inv (effects items h sched st).
Proof.
  intros Hf. induction sched as [| i sched IH]; intros st res errs Hinv; simpl.
  - split; [reflexivity | exact Hinv].
  - destruct (items !! i) as [item |] eqn:Ei; [| apply IH; exact Hinv].
    destruct (Hf item st) as (E & Hinv'); [| exact Hinv |].
    { eapply list_elem_of_lookup_2. exact Ei. }
    rewrite E. simpl. apply IH. exact Hinv'.
Qed.

End FanOut.

Lemma scheduled_seq {I : Type} (items pre : list I) :
  omap (fun i => (pre ++ items)%list !! i) (seq (length pre) (length items)) = items.
Proof.
  revert pre. induction items as [| x items IH]; intros pre; [reflexivity |].
  simpl. rewrite list_lookup_middle by reflexivity. f_equal.
  specialize (IH (pre ++ [x])%list). rewrite length_app in IH. simpl in IH.
  rewrite Nat.add_1_r, <- app_assoc in IH. exact IH.
Qed.

(** Whatever the order, the goroutines that run are those of the items. *)
Lemma scheduled_all {I : Type} (items : list I) sched :
  sched ≡ₚ seq 0 (length items) -> scheduled items sched ≡ₚ items.
Proof.
  intros Hperm. unfold scheduled. rewrite Hperm.
  pose proof (scheduled_seq items []) as E. simpl in E. rewrite E. reflexivity.
Qed.

Lemma errors_Join_nil errs :
  Forall (fun e => e = None) errs -> errors_Join errs = None.
Proof.
  intros H. unfold errors_Join.
  assert (E : omap id errs = []).
  { induction H as [| e errs He _ IH]; [reflexivity |]. subst e. simpl. exact IH. }
  rewrite E. reflexivity.
Qed.

Lemma errors_Join_some errs err :
  Some err ∈ errs -> exists joined, errors_Join errs = Some joined.
Proof.
  intros Hin. unfold errors_Join.
  assert (Hin' : err ∈ omap id errs).
  { apply list_elem_of_omap. exists (Some err). split; [exact Hin | reflexivity]. }
  destruct (omap id errs) as [| e es]; [apply elem_of_nil in Hin'; contradiction |].
  eauto.
Qed.

(** ** The public-certificate phase *)

Lemma observedTask_spec env sa st :
  observedTask env sa st
  = Ok ((observed_slot env sa, None), observed_effect env sa st).
Proof.
  destruct st as [k trace].
  unfold observedTask, observed_slot, observed_effect, fetch_fails. simpl.
  rewrite getServiceAccountKeyCerts_trace.
  destruct (fetch env sa) as [res [err |]]; reflexivity.
Qed.

Lemma isBadSA_spec k sa : isBadSA k sa = true <-> sa ∈ badSAs k.
Proof.
  unfold isBadSA. rewrite existsb_exists. split.
  - intros (x & Hin & E). apply String.eqb_eq in E. subst x.
    apply list_elem_of_In. exact Hin.
  - intros Hin. exists sa. split; [apply list_elem_of_In; exact Hin |].
    apply String.eqb_refl.
Qed.

Lemma observed_effects env items sched : forall k trace,
  exists trace',
    effects items (observed_effect env) sched (k, trace)
    = ({| serviceAccountIDs := serviceAccountIDs k;
          observedKeys := observedKeys k;
          groundTruthKeys := groundTruthKeys k;
          badSAs := badSAs k
                    ++ filter (fun sa => fetch_fails env sa = true)
                         (scheduled items sched) |},
       trace').
Proof.
  induction sched as [| i sched IH]; intros k trace; simpl.
  - exists trace. rewrite app_nil_r. destruct k; reflexivity.
  - destruct (items !! i) as [sa |] eqn:Ei.
    + unfold observed_effect at 2. simpl.
      destruct (fetch_fails env sa) eqn:Ef.
      * destruct (IH (addBadSA k sa) (trace ++ [HttpGet (x509_url sa)])%list)
          as (trace' & ->).
        exists trace'. simpl.
        rewrite filter_cons_True by exact Ef.
        rewrite <- app_assoc. reflexivity.
      * destruct (IH k (trace ++ [HttpGet (x509_url sa)])%list) as (trace' & ->).
        exists trace'.
        rewrite filter_cons_False by congruence. reflexivity.
    + destruct (IH k trace) as (trace' & ->).
      exists trace'. reflexivity.
Qed.

(** C2. For every batch of N principals and every order in which the
    goroutines run, the public fetch phase returns, and returns the nil
    error. The principals it adds to the bad list are exactly those whose
    fetch fails, K of them, and the slot of every other principal, N - K of
    them, holds the certificate map its fetch returned; the slot of a
    failed one holds the nil map. *)
Theorem C2_public_fetch_isolation (env : Env) (sched : list nat)
    (k : KeyCollection) (trace : list Call) :
  let ids := serviceAccountIDs k in
  let failed := filter (fun sa => fetch_fails env sa = true) ids in
  sched ≡ₚ seq 0 (length ids) ->
  exists k' trace',
    FetchObservedKeys env sched (k, trace) = Ok (None, (k', trace'))
    /\ serviceAccountIDs k' = ids
    /\ badSAs k' ≡ₚ (badSAs k ++ failed)%list
    /\ (badSAs k = [] ->
        length (badSAs k') = length failed
        /\ forall sa, isBadSA k' sa = true
                      <-> sa ∈ ids /\ fetch_fails env sa = true)
    /\ length (observedKeys k') = length ids
    /\ forall i sa, ids !! i = Some sa ->
         if fetch_fails env sa
         then observedKeys k' !! i = Some None
         else exists certs,
                fetch env sa = (Some certs, None)
                /\ observedKeys k' !! i = Some (Some certs).
Proof.
  intros ids failed Hperm.
  unfold FetchObservedKeys, parllelMap. simpl. fold ids.
  set (k0 := set_observedKeys k (replicate (length ids) None)).
  destruct (run_goroutines_spec (observedTask env) ids (fun _ => True)
              (observed_slot env) (fun _ => None) (observed_effect env)
              (fun item st _ _ => conj (observedTask_spec env item st) I)
              sched (k0, trace)
              (replicate (length ids) None) (replicate (length ids) None) I)
    as (Erun & _).
  rewrite Erun. simpl.
  rewrite !writes_all by (rewrite ?length_replicate; auto).
  rewrite errors_Join_nil.
  2: { apply Forall_fmap. apply Forall_true. intros; reflexivity. }
  destruct (observed_effects env ids sched k0 trace) as (trace' & ->).
  simpl. eexists _, trace'. split; [reflexivity |]. simpl.
  assert (Hbad : (badSAs k
                  ++ filter (fun sa => fetch_fails env sa = true)
                       (scheduled ids sched))%list
                 ≡ₚ (badSAs k ++ failed)%list).
  { subst failed. rewrite (scheduled_all ids sched Hperm). reflexivity. }
  split; [reflexivity |]. split; [exact Hbad |]. split; [| split].
  - intros Hnil. rewrite Hnil in Hbad. simpl in Hbad. split.
    + rewrite Hnil. simpl. rewrite Hbad. reflexivity.
    + intros sa. rewrite isBadSA_spec. simpl. rewrite Hnil. simpl. rewrite Hbad.
      subst failed. rewrite list_elem_of_filter. tauto.
  - rewrite length_fmap. reflexivity.
  - intros i sa Hi. rewrite list_lookup_fmap, Hi. simpl.
    unfold observed_slot. destruct (fetch_fails env sa) eqn:Ef; [reflexivity |].
    unfold fetch_fails in Ef.
    destruct (fetch_shape env sa) as [(m & Em) | (err & Ee)].
    + exists m. rewrite Em. split; reflexivity.
    + rewrite Ee in Ef. discriminate Ef.
Qed.

Lemma C2_witness :
  exists k' trace',
    FetchObservedKeys SampleEnv.env [2; 0; 1]%nat
      (NewKeyCollection ["good@prj"; "mixed@prj"; "ghost@prj"], [])
    = Ok (None, (k', trace'))
    /\ badSAs k' ≡ₚ ["mixed@prj"; "ghost@prj"]
    /\ length (observedKeys k') = 3%nat.
Proof.
  pose proof (C2_public_fetch_isolation SampleEnv.env [2; 0; 1]%nat
                (NewKeyCollection ["good@prj"; "mixed@prj"; "ghost@prj"]) []) as H.
  cbv zeta in H.
  destruct H as (k' & trace' & E & _ & Hbad & _ & Hlen & _).
  - simpl. etrans; [apply perm_swap | apply perm_skip, perm_swap].
  - exists k', trace'. split; [exact E |]. split; [| exact Hlen].
    rewrite Hbad. vm_compute. reflexivity.
Defined.

(** ** The ground-truth phase *)

Lemma SplitAfter_fuel_nonempty fuel s sep : SplitAfter_fuel fuel s sep <> [].
Proof.
  destruct fuel; simpl; [discriminate |].
  destruct (index 0 sep s); discriminate.
Qed.

Lemma SplitAfter_second s :
  is_Some (index 0 "keys/" s) -> is_Some (strings_SplitAfter s "keys/" !! 1%nat).
Proof.
  intros [i Hi]. unfold strings_SplitAfter.
  destruct s as [| c s]; [discriminate Hi |].
  cbn [String.length SplitAfter_fuel]. rewrite Hi.
  match goal with
  | |- context [SplitAfter_fuel ?fuel ?rest ?sep] =>
      destruct (SplitAfter_fuel fuel rest sep) as [| part parts] eqn:E
  end.
  - apply SplitAfter_fuel_nonempty in E. contradiction.
  - exists part. reflexivity.
Qed.

Lemma collect_keys_returns keys : forall res,
  Forall (fun key => is_Some (index 0 "keys/" (Name key))) keys ->
  exists res', collect_keys keys res = Ok res'.
Proof.
  induction keys as [| key keys IH]; intros res Hwf; simpl; [eauto |].
  inversion Hwf as [| ? ? Hkey Hrest]; subst.
  destruct (SplitAfter_second _ Hkey) as (id & ->).
  apply IH. exact Hrest.
Qed.

Lemma groundTruthTask_spec env ids k sa trace :
  wellformed_key_names env ids ->
  sa ∈ ids ->
  groundTruthTask env sa (k, trace)
  = Ok (ground_slot env k sa, ground_effect env k sa (k, trace)).
Proof.
  intros Hwf Hin.
  unfold groundTruthTask, ground_slot, ground_effect, ground_calls. simpl.
  destruct (isBadSA k sa); [rewrite app_nil_r; reflexivity |].
  destruct (limiter_Wait env sa); [rewrite app_nil_r; reflexivity |].
  unfold getServiceAccountKeys.
  destruct (Keys_List_Do env (keys_name sa)) as [keys | err] eqn:Ek; [| reflexivity].
  destruct (collect_keys_returns keys ∅ (Hwf sa keys Hin Ek)) as (res & ->).
  reflexivity.
Qed.

(** A principal marked bad is skipped: the nil map, the nil error, and no
    request sent. *)
Lemma groundTruthTask_bad env k sa trace :
  isBadSA k sa = true ->
  groundTruthTask env sa (k, trace) = Ok ((None, None), (k, trace)).
Proof. intros Hbad. unfold groundTruthTask. rewrite Hbad. reflexivity. Qed.

Lemma ground_effects env k items sched : forall trace,
  effects items (ground_effect env k) sched (k, trace)
  = (k, (trace ++ concat (ground_calls env k <$> scheduled items sched))%list).
Proof.
  induction sched as [| i sched IH]; intros trace; simpl.
  - rewrite app_nil_r. reflexivity.
  - destruct (items !! i) as [sa |] eqn:Ei.
    + unfold ground_effect at 2. simpl. rewrite IH. simpl.
      rewrite <- app_assoc. reflexivity.
    + apply IH.
Qed.

Lemma append_inj_r (p a b : string) : p ++ a = p ++ b -> a = b.
Proof.
  induction p as [| c p IH]; intros H; [exact H |].
  apply IH. cbn [append] in H. injection H as H. exact H.
Qed.

Lemma keys_name_inj sa sa' : keys_name sa = keys_name sa' -> sa = sa'.
Proof. unfold keys_name. apply append_inj_r. Qed.

Lemma ground_calls_not_bad env k sa :
  isBadSA k sa = true ->
  forall items, KeysList (keys_name sa) ∉ concat (ground_calls env k <$> items).
Proof.
  intros Hbad items Hin.
  apply list_elem_of_In, in_concat in Hin. destruct Hin as (l & Hl & Hin).
  apply list_elem_of_In, list_elem_of_fmap in Hl. destruct Hl as (sa' & -> & _).
  unfold ground_calls in Hin.
  destruct (isBadSA k sa') eqn:Hbad'; [contradiction |].
  destruct (limiter_Wait env sa'); [contradiction |].
  destruct Hin as [E | []].
  assert (Hn : keys_name sa' = keys_name sa) by congruence.
  apply keys_name_inj in Hn. congruence.
Qed.

(** The requests of the phase: one for each principal that is not on the
    bad list and whose wait succeeds, none for a principal on the list. *)
Lemma ground_calls_sent env k sa items :
  sa ∈ items ->
  sa ∉ badSAs k ->
  limiter_Wait env sa = None ->
  KeysList (keys_name sa) ∈ concat (ground_calls env k <$> items).
Proof.
  intros Hin Hbad Hwait.
  apply list_elem_of_In, in_concat. exists [KeysList (keys_name sa)]. split.
  - apply list_elem_of_In, list_elem_of_fmap. exists sa. split; [| exact Hin].
    unfold ground_calls.
    destruct (isBadSA k sa) eqn:E.
    + apply isBadSA_spec in E. contradiction.
    + rewrite Hwait. reflexivity.
  - left. reflexivity.
Qed.

(** C6. In the ground-truth phase a principal on the bad list is skipped:
    its task returns the nil map and the nil error and sends no request, so
    no Keys.List request of the phase names it, while every principal that
    is not on the list and whose wait succeeds is asked for. And whenever
    the task of some principal returns a non-nil error (the wait or the API
    call of a principal that is not on the list fails), the phase returns a
    non-nil error to its caller, whatever the other tasks return, and leaves
    no result. (The phase is taken with its IAM client created and the key
    names of the API holding "keys/", so that no task ends the process.) *)
Theorem C6_ground_truth_phase (env : Env) (sched : list nat)
    (k : KeyCollection) (trace : list Call) :
  let ids := serviceAccountIDs k in
  sched ≡ₚ seq 0 (length ids) ->
  iam_NewService env = None ->
  wellformed_key_names env ids ->
  (forall sa tr, sa ∈ badSAs k ->
     groundTruthTask env sa (k, tr) = Ok ((None, None), (k, tr)))
  /\ exists err k' calls,
       FetchGroundTruthKeys env sched (k, trace)
       = Ok (err, (k', (trace ++ calls)%list))
       /\ badSAs k' = badSAs k
       /\ (forall sa, sa ∈ badSAs k -> KeysList (keys_name sa) ∉ calls)
       /\ (forall sa, sa ∈ ids -> sa ∉ badSAs k -> limiter_Wait env sa = None ->
              KeysList (keys_name sa) ∈ calls)
       /\ (err = None ->
           length (groundTruthKeys k') = length ids
           /\ forall i sa, ids !! i = Some sa -> sa ∈ badSAs k ->
                groundTruthKeys k' !! i = Some None)
       /\ ((exists sa tr r e st',
              sa ∈ ids
              /\ groundTruthTask env sa (k, tr) = Ok ((r, Some e), st')) ->
           err <> None
           /\ groundTruthKeys k' = replicate (length ids) None)
       /\ (forall sa e,
              sa ∈ ids -> sa ∉ badSAs k ->
              limiter_Wait env sa = Some e
              \/ (limiter_Wait env sa = None
                  /\ Keys_List_Do env (keys_name sa) = inr e) ->
              err <> None
              /\ groundTruthKeys k' = replicate (length ids) None).
Proof.
  intros ids Hperm Hiam Hwf.
  split.
  { intros sa tr Hbad. apply groundTruthTask_bad, isBadSA_spec. exact Hbad. }
  assert (Hslot : forall sa tr r e st',
             sa ∈ ids ->
             groundTruthTask env sa (k, tr) = Ok ((r, Some e), st') ->
             snd (ground_slot env k sa) = Some e).
  { intros sa tr r e st' Hin Htask.
    rewrite (groundTruthTask_spec env ids k sa tr Hwf Hin) in Htask.
    injection Htask as -> _. reflexivity. }
  assert (Hfail : forall sa e,
             sa ∉ badSAs k ->
             limiter_Wait env sa = Some e
             \/ (limiter_Wait env sa = None
                 /\ Keys_List_Do env (keys_name sa) = inr e) ->
             snd (ground_slot env k sa) = Some e).
  { intros sa e Hnb Hcase. unfold ground_slot.
    destruct (isBadSA k sa) eqn:Eb.
    { apply isBadSA_spec in Eb. contradiction. }
    destruct Hcase as [-> | (-> & ->)]; reflexivity. }
  unfold FetchGroundTruthKeys, iamService, parllelMap. rewrite Hiam. simpl.
  fold ids.
  set (k0 := set_groundTruthKeys k (replicate (length ids) None)).
  assert (Hbad0 : forall sa, isBadSA k0 sa = isBadSA k sa) by reflexivity.
  destruct (run_goroutines_spec (groundTruthTask env) ids (fun st => fst st = k0)
              (fun sa => fst (ground_slot env k0 sa))
              (fun sa => snd (ground_slot env k0 sa))
              (ground_effect env k0)) with
    (sched := sched) (st := (k0, trace))
    (res := replicate (length ids) (None : option (gmap string ServiceAccountKey)))
    (errs := replicate (length ids) (None : option Text))
    as (Erun & _).
  { intros sa [k1 tr] Hin Hk1. simpl in Hk1. subst k1.
    rewrite (groundTruthTask_spec env ids k0 sa tr Hwf Hin).
    destruct (ground_slot env k0 sa). split; reflexivity. }
  { reflexivity. }
  rewrite Erun. simpl.
  rewrite !writes_all by (rewrite ?length_replicate; auto).
  rewrite ground_effects.
  set (calls := concat (ground_calls env k0 <$> scheduled ids sched)).
  assert (Hcalls : forall sa, sa ∈ badSAs k -> KeysList (keys_name sa) ∉ calls).
  { intros sa Hbad. apply ground_calls_not_bad. rewrite Hbad0.
    apply isBadSA_spec. exact Hbad. }
  assert (Hsent : forall sa, sa ∈ ids -> sa ∉ badSAs k ->
                    limiter_Wait env sa = None ->
                    KeysList (keys_name sa) ∈ calls).
  { intros sa Hin Hnb Hwait. apply ground_calls_sent; [| exact Hnb | exact Hwait].
    rewrite (scheduled_all ids sched Hperm). exact Hin. }
  destruct (errors_Join ((fun sa => snd (ground_slot env k0 sa)) <$> ids))
    as [joined |] eqn:Ej; simpl.
  - eexists _, _, calls. split; [reflexivity |]. simpl.
    split; [reflexivity |]. split; [exact Hcalls |]. split; [exact Hsent |].
    split; [discriminate |].
    split; intros; (split; [discriminate | reflexivity]).
  - eexists _, _, calls. split; [reflexivity |]. simpl.
    split; [reflexivity |]. split; [exact Hcalls |]. split; [exact Hsent |].
    split; [| split].
    + intros _. split; [apply length_fmap |].
      intros i sa Hi Hbad. rewrite list_lookup_fmap, Hi. simpl.
      unfold ground_slot. rewrite Hbad0.
      rewrite (proj2 (isBadSA_spec k sa) Hbad). reflexivity.
    + intros (sa & tr & r & e & st' & Hin & Htask). exfalso.
      pose proof (Hslot sa tr r e st' Hin Htask) as He.
      destruct (errors_Join_some
                  ((fun sa => snd (ground_slot env k0 sa)) <$> ids) e)
        as (joined & Hj); [| congruence].
      apply list_elem_of_fmap. exists sa. split; [| exact Hin].
      change (ground_slot env k0 sa) with (ground_slot env k sa).
      rewrite He. reflexivity.
    + intros sa e Hin Hnb Hcase. exfalso.
      pose proof (Hfail sa e Hnb Hcase) as He.
      destruct (errors_Join_some
                  ((fun sa => snd (ground_slot env k0 sa)) <$> ids) e)
        as (joined & Hj); [| congruence].
      apply list_elem_of_fmap. exists sa. split; [| exact Hin].
      change (ground_slot env k0 sa) with (ground_slot env k sa).
      rewrite He. reflexivity.
Qed.

Lemma C6_witness :
  exists err k' calls,
    FetchGroundTruthKeys SampleEnv.env [2; 0; 1]%nat
      ({| serviceAccountIDs := ["good@prj"; "ghost@prj"; "denied@prj"];
          observedKeys := [None; None; None];
          groundTruthKeys := [];
          badSAs := ["ghost@prj"] |}, [])
    = Ok (err, (k', calls))
    /\ err <> None
    /\ (KeysList (keys_name "ghost@prj") ∉ calls)
    /\ (KeysList (keys_name "good@prj") ∈ calls)
    /\ (KeysList (keys_name "denied@prj") ∈ calls).
Proof.
  pose proof (C6_ground_truth_phase SampleEnv.env [2; 0; 1]%nat
                {| serviceAccountIDs := ["good@prj"; "ghost@prj"; "denied@prj"];
                   observedKeys := [None; None; None];
                   groundTruthKeys := [];
                   badSAs := ["ghost@prj"] |} []) as H.
  cbv zeta in H.
  destruct H as (_ & err & k' & calls & E & _ & Hskip & Hsent & _ & _ & Herr).
  - simpl. apply (Permutation_cons_app [0%nat; 1%nat] []). reflexivity.
  - reflexivity.
  - intros sa keys Hin Hk. simpl in Hin.
    apply elem_of_cons in Hin as [-> | Hin];
      [| apply elem_of_cons in Hin as [-> | Hin];
         [| apply elem_of_cons in Hin as [-> | Hin];
            [| apply elem_of_nil in Hin; contradiction]]].
    + vm_compute in Hk. injection Hk as <-.
      apply Forall_cons_2; [| apply Forall_nil_2]. vm_compute. eauto.
    + vm_compute in Hk. discriminate Hk.
    + vm_compute in Hk. discriminate Hk.
  - assert (Hnb : forall sa, sa <> "ghost@prj" ->
                    sa ∉ badSAs {| serviceAccountIDs := ["good@prj"; "ghost@prj"; "denied@prj"];
                                   observedKeys := [None; None; None];
                                   groundTruthKeys := [];
                                   badSAs := ["ghost@prj"] |}).
    { intros sa Hne Hin. simpl in Hin.
      apply elem_of_cons in Hin as [-> | Hin]; [congruence |].
      apply elem_of_nil in Hin. contradiction. }
    exists err, k', calls. split; [exact E |]. split; [| split; [| split]].
    + apply (Herr "denied@prj" (Lit "googleapi: Error 403: Permission denied")).
      * simpl. do 2 (apply elem_of_cons; right). apply elem_of_cons. left. reflexivity.
      * apply Hnb. discriminate.
      * right. split; reflexivity.
    + apply Hskip. simpl. apply elem_of_cons. left. reflexivity.
    + apply Hsent; [| apply Hnb; discriminate | reflexivity].
      simpl. apply elem_of_cons. left. reflexivity.
    + apply Hsent; [| apply Hnb; discriminate | reflexivity].
      simpl. do 2 (apply elem_of_cons; right). apply elem_of_cons. left. reflexivity.
Defined.

(** * Further properties of the code *)

(** ** The verdict of the resolver *)

Lemma kinds_distinct :
  USER_PROVIDED_USER_MANAGED <> GOOGLE_PROVIDED_USER_MANAGED
  /\ USER_PROVIDED_USER_MANAGED <> GOOGLE_PROVIDED_SYSTEM_MANAGED
  /\ GOOGLE_PROVIDED_USER_MANAGED <> GOOGLE_PROVIDED_SYSTEM_MANAGED.
Proof. repeat split; discriminate. Qed.

Ltac kind_neq :=
  first [ exfalso; apply (proj1 kinds_distinct); congruence
        | exfalso; apply (proj1 (proj2 kinds_distinct)); congruence
        | exfalso; apply (proj2 (proj2 kinds_distinct)); congruence ].

Lemma precedence_values :
  precedence USER_PROVIDED_USER_MANAGED = 0
  /\ precedence GOOGLE_PROVIDED_USER_MANAGED = 1
  /\ precedence GOOGLE_PROVIDED_SYSTEM_MANAGED = 2.
Proof. repeat split; reflexivity. Qed.

Lemma resolve_system_managed_iff sigs :
  sigs <> [] -> valid_signals sigs ->
  resolve sigs = Ok GOOGLE_PROVIDED_SYSTEM_MANAGED
  <-> forall s, In s sigs -> keyKind s = GOOGLE_PROVIDED_SYSTEM_MANAGED.
Proof.
  intros Hne Hall.
  destruct (resolve_spec sigs Hne Hall) as (kind & Hres & Hv & Hin & Hmin).
  destruct precedence_values as (P0 & P1 & P2).
  rewrite Hres. split.
  - intros E. injection E as E'. subst kind. intros s Hs.
    specialize (Hmin s Hs).
    unfold valid_signals in Hall. rewrite Forall_forall in Hall.
    assert (Hvs : valid_kind (keyKind s)) by (apply Hall, list_elem_of_In, Hs).
    apply precedence_inj; auto with kinds.
    pose proof (valid_kind_precedence_range _ Hvs). lia.
  - intros Hall'. f_equal.
    apply in_map_iff in Hin as (s & <- & Hs). apply Hall'. exact Hs.
Qed.

(** X1. The resolved kind is USER_PROVIDED/USER_MANAGED as soon as one signal
    says so, GOOGLE_PROVIDED/SYSTEM_MANAGED only when every signal says so,
    and GOOGLE_PROVIDED/USER_MANAGED in between. *)
Theorem resolve_verdict (sigs : list Signal) :
  sigs <> [] ->
  Forall (fun s => In (keyKind s) keyKindPrecedence) sigs ->
  (resolve sigs = Ok USER_PROVIDED_USER_MANAGED
   <-> In USER_PROVIDED_USER_MANAGED (kinds sigs))
  /\ (resolve sigs = Ok GOOGLE_PROVIDED_USER_MANAGED
      <-> In GOOGLE_PROVIDED_USER_MANAGED (kinds sigs)
          /\ ~ In USER_PROVIDED_USER_MANAGED (kinds sigs))
  /\ (resolve sigs = Ok GOOGLE_PROVIDED_SYSTEM_MANAGED
      <-> forall s, In s sigs -> keyKind s = GOOGLE_PROVIDED_SYSTEM_MANAGED).
Proof.
  intros Hne Hall.
  destruct (resolve_spec sigs Hne Hall) as (kind & Hres & Hv & Hin & Hmin).
  destruct precedence_values as (P0 & P1 & P2).
  assert (Hle : forall k', In k' (kinds sigs) -> precedence kind <= precedence k').
  { intros k' Hk'. apply in_map_iff in Hk' as (s & <- & Hs). auto. }
  assert (Hvk : forall k', In k' (kinds sigs) -> valid_kind k').
  { intros k' Hk'. apply in_map_iff in Hk' as (s & <- & Hs).
    rewrite Forall_forall in Hall. apply Hall. apply list_elem_of_In. exact Hs. }
  rewrite Hres. unfold kinds in *.
  split; [| split]; split.
  - intros E. injection E as E'. subst kind. exact Hin.
  - intros HU. f_equal. apply precedence_inj; auto with kinds.
    specialize (Hle _ HU). pose proof (valid_kind_precedence_range _ Hv). lia.
  - intros E. injection E as E'. subst kind. split; [exact Hin |].
    intros HU. specialize (Hle _ HU). lia.
  - intros [HG HnU]. f_equal. apply precedence_inj; auto with kinds.
    specialize (Hle _ HG). pose proof (valid_kind_precedence_range _ Hv).
    assert (precedence kind <> 0); [| lia].
    intros E0. apply HnU.
    replace USER_PROVIDED_USER_MANAGED with kind; [exact Hin |].
    symmetry. apply precedence_inj; auto with kinds; lia.
  - rewrite <- Hres. apply resolve_system_managed_iff; assumption.
  - rewrite <- Hres. apply resolve_system_managed_iff; assumption.
Qed.

Lemma resolve_verdict_witness :
  resolve [Samples.sig GOOGLE_PROVIDED_SYSTEM_MANAGED;
           Samples.sig GOOGLE_PROVIDED_USER_MANAGED]
  = Ok GOOGLE_PROVIDED_USER_MANAGED.
Proof.
  apply (resolve_verdict
           [Samples.sig GOOGLE_PROVIDED_SYSTEM_MANAGED;
            Samples.sig GOOGLE_PROVIDED_USER_MANAGED]).
  - discriminate.
  - repeat (constructor; [simpl; auto 10 |]). constructor.
  - split.
    + simpl. auto.
    + simpl. intros [E | [E | []]]; discriminate E.
Defined.

(** X2. Resolving a concatenation is resolving the parts and keeping the kind
    that stands earlier in the precedence order. *)
Theorem resolve_app (a b : list Signal) (ka kb : string) :
  Forall (fun s => In (keyKind s) keyKindPrecedence) a ->
  Forall (fun s => In (keyKind s) keyKindPrecedence) b ->
  resolve a = Ok ka ->
  resolve b = Ok kb ->
  resolve (a ++ b)
  = Ok (if slices_Index keyKindPrecedence kb <? slices_Index keyKindPrecedence ka
        then kb else ka).
Proof.
  intros Ha Hb Ea Eb.
  assert (Hna : a <> []) by (intros ->; discriminate Ea).
  assert (Hnb : b <> []) by (intros ->; discriminate Eb).
  destruct (resolve_spec a Hna Ha) as (ka' & Ea' & Hva & Hina & Hmina).
  destruct (resolve_spec b Hnb Hb) as (kb' & Eb' & Hvb & Hinb & Hminb).
  assert (ka' = ka) by congruence. assert (kb' = kb) by congruence. subst ka' kb'.
  assert (Hnab : (a ++ b)%list <> []) by (destruct a; [congruence | discriminate]).
  assert (Hab : Forall (fun s => In (keyKind s) keyKindPrecedence) (a ++ b)).
  { rewrite Forall_app. auto. }
  destruct (resolve_spec _ Hnab Hab) as (k & -> & Hv & Hin & Hmin).
  f_equal. fold (precedence kb) (precedence ka).
  apply in_map_iff in Hina as (sa & <- & Hsa).
  apply in_map_iff in Hinb as (sb & <- & Hsb).
  apply in_map_iff in Hin as (s & <- & Hs).
  pose proof (Hmin sa (in_or_app _ _ _ (or_introl Hsa))) as H1.
  pose proof (Hmin sb (in_or_app _ _ _ (or_intror Hsb))) as H2.
  apply in_app_or in Hs.
  destruct (Z.ltb_spec (precedence (keyKind sb)) (precedence (keyKind sa)));
    apply precedence_inj; auto;
    destruct Hs as [Hs | Hs];
    first [specialize (Hmina _ Hs) | specialize (Hminb _ Hs)]; lia.
Qed.

Lemma resolve_app_witness :
  resolve ([Samples.sig GOOGLE_PROVIDED_SYSTEM_MANAGED]
           ++ [Samples.sig USER_PROVIDED_USER_MANAGED])
  = Ok USER_PROVIDED_USER_MANAGED.
Proof.
  apply (resolve_app [Samples.sig GOOGLE_PROVIDED_SYSTEM_MANAGED]
           [Samples.sig USER_PROVIDED_USER_MANAGED]
           GOOGLE_PROVIDED_SYSTEM_MANAGED USER_PROVIDED_USER_MANAGED).
  - repeat (constructor; [simpl; auto 10 |]). constructor.
  - repeat (constructor; [simpl; auto 10 |]). constructor.
  - reflexivity.
  - reflexivity.
Defined.

(** ** The signals of each check *)

Lemma checkName_kind e t tag v k :
  exists s,
    checkName e t tag v k = append_signal k s
    /\ (keyKind s = GOOGLE_PROVIDED_USER_MANAGED <-> matches_GAIA_ID v)
    /\ (keyKind s = GOOGLE_PROVIDED_SYSTEM_MANAGED
        <-> ~ matches_GAIA_ID v /\ (v = e \/ (t <> "" /\ v = t))).
Proof.
  destruct (checkName_appends e t tag v k) as (s & E & HG & HS & HU).
  exists s. split; [exact E |].
  destruct (GAIA_ID_MatchString v) eqn:Eg.
  - apply GAIA_ID_MatchString_spec in Eg. rewrite (HG Eg).
    split; split; intros H; try tauto; try reflexivity. kind_neq.
  - assert (Hg : ~ matches_GAIA_ID v).
    { intros H. apply GAIA_ID_MatchString_spec in H. congruence. }
    destruct (String.eqb_spec v e) as [Ee | Ee].
    { rewrite (HS Hg (or_introl Ee)).
      split; split; intros H; try tauto; try reflexivity. kind_neq. }
    destruct (String.eqb_spec t "") as [Et | Et].
    { rewrite (HU Hg Ee) by tauto.
      split; split; intros H; try tauto; kind_neq. }
    destruct (String.eqb_spec v t) as [Ev | Ev].
    { rewrite (HS Hg (or_intror (conj Et Ev))).
      split; split; intros H; try tauto; try reflexivity. kind_neq. }
    rewrite (HU Hg Ee) by tauto.
    split; split; intros H; try tauto; kind_neq.
Qed.

(** The name check leaves two signals, the subject's then the issuer's. *)
Lemma names_signals_kinds sa c :
  exists s1 s2,
    names_signals sa c = [s1; s2]
    /\ (keyKind s1 = GOOGLE_PROVIDED_USER_MANAGED
        <-> matches_GAIA_ID (CommonName (Subject c)))
    /\ (keyKind s1 = GOOGLE_PROVIDED_SYSTEM_MANAGED
        <-> standard_name sa (CommonName (Subject c)))
    /\ (keyKind s2 = GOOGLE_PROVIDED_USER_MANAGED
        <-> matches_GAIA_ID (CommonName (Issuer c)))
    /\ (keyKind s2 = GOOGLE_PROVIDED_SYSTEM_MANAGED
        <-> standard_name sa (CommonName (Issuer c))).
Proof.
  unfold names_signals, checkNames, standard_name. simpl.
  set (e := expectedName_of sa). set (t := truncatedName_of e).
  destruct (checkName_kind e t "SubjectCN" (CommonName (Subject c)) (NewSAKey sa c))
    as (s1 & E1 & G1 & S1).
  rewrite E1. simpl.
  destruct (checkName_kind e t "IssuerCN" (CommonName (Issuer c))
              (append_signal (NewSAKey sa c) s1)) as (s2 & E2 & G2 & S2).
  rewrite E2. simpl. exists s1, s2. auto.
Qed.

(** The validity check leaves one signal; it says system-managed exactly
    for the two windows of system-managed keys on a certificate that
    expires. *)
Lemma validity_signals_kinds sa c :
  exists s,
    validity_signals sa c = [s]
    /\ valid_kind (keyKind s)
    /\ (keyKind s = GOOGLE_PROVIDED_SYSTEM_MANAGED <-> standard_window c).
Proof.
  unfold validity_signals, CheckValidityPeriod, standard_window.
  change (cert (NewSAKey sa c)) with c. cbv zeta.
  generalize (Time_Sub (NotAfter c) (NotBefore c)). intros w.
  destruct (Time_eqb_spec (NotAfter c) defaultMaxAfter) as [E1 | E1].
  { eexists. split; [reflexivity |]. simpl. split; [auto with kinds |].
    split; intros H; [kind_neq | tauto]. }
  destruct (Z.eqb_spec w legacyGoogleProvidedUserManagedValidity) as [E2 | E2].
  { eexists. split; [reflexivity |]. simpl. split; [auto with kinds |].
    split; intros H; [kind_neq |]. exfalso. unfold_durations. simpl in *. lia. }
  destruct (Z.eqb_spec w googleProvidedSystemManagedValidityV1) as [E3 | E3].
  { eexists. split; [reflexivity |]. simpl. split; [auto with kinds |].
    split; intros H; [tauto | reflexivity]. }
  destruct (slices_Contains_Z serviceAccountKeyExpiryHours w) eqn:E4.
  { apply slices_Contains_Z_In in E4.
    eexists. split; [reflexivity |]. simpl. split; [auto with kinds |].
    split; intros H; [kind_neq |]. exfalso. unfold_durations. simpl in *. lia. }
  destruct (Z.ltb_spec googleProvidedSystemManagedValidityV2Min w) as [E5 | E5];
    [destruct (Z.ltb_spec w googleProvidedSystemManagedValidityV2Max) as [E6 | E6] |];
    simpl andb; cbv iota;
    (eexists; split; [reflexivity |]; simpl; split; [auto with kinds |]);
    (split; intros H; first [kind_neq | reflexivity | tauto | exfalso; lia]).
Qed.

Lemma ExtKeyUsage_test (l : list Z) :
  negb (length l =? 1)%nat || negb (nth 0 l 0 =? x509_ExtKeyUsageClientAuth) = false
  <-> l = [x509_ExtKeyUsageClientAuth].
Proof.
  destruct l as [| u [| u' us]]; simpl.
  - split; discriminate.
  - destruct (Z.eqb_spec u x509_ExtKeyUsageClientAuth) as [-> | Hu]; simpl.
    + split; reflexivity.
    + split; [discriminate | congruence].
  - split; discriminate.
Qed.

Lemma extension_signals_kinds sa c :
  Forall (fun s => keyKind s = USER_PROVIDED_USER_MANAGED) (extension_signals sa c)
  /\ (length (extension_signals sa c) <= 2)%nat
  /\ (extension_signals sa c = [] <-> standard_extensions c)
  /\ (length (extension_signals sa c) = 2%nat
      <-> ExtKeyUsage c <> [x509_ExtKeyUsageClientAuth]
          /\ KeyUsage c <> x509_KeyUsageDigitalSignature).
Proof.
  unfold extension_signals, CheckExtensions, standard_extensions.
  change (cert (NewSAKey sa c)) with c.
  pose proof (ExtKeyUsage_test (ExtKeyUsage c)) as Hext.
  destruct (negb (length (ExtKeyUsage c) =? 1)%nat
            || negb (nth 0 (ExtKeyUsage c) 0 =? x509_ExtKeyUsageClientAuth));
    simpl;
    destruct (Z.eqb_spec (KeyUsage c) x509_KeyUsageDigitalSignature) as [Hk | Hk];
    simpl;
    (split; [repeat (apply Forall_cons_2; [reflexivity |]); apply Forall_nil_2 |]);
    (split; [lia |]);
    (split; split; first [ discriminate | lia | tauto
                         | intros; exfalso; intuition congruence
                         | intros; intuition congruence ]).
Qed.

(** X3. The extension check appends nothing exactly when the extended key usage
    is clientAuth alone and the key usage is digitalSignature alone;
    otherwise it appends one USER_PROVIDED/USER_MANAGED signal for each of
    the two that deviates. *)
Theorem CheckExtensions_signals (k : SAKey) :
  exists new,
    CheckExtensions k = add_signals k new
    /\ Forall (fun s => keyKind s = USER_PROVIDED_USER_MANAGED) new
    /\ (length new <= 2)%nat
    /\ (new = [] <-> ExtKeyUsage (cert k) = [x509_ExtKeyUsageClientAuth]
                     /\ KeyUsage (cert k) = x509_KeyUsageDigitalSignature)
    /\ (length new = 2%nat
        <-> ExtKeyUsage (cert k) <> [x509_ExtKeyUsageClientAuth]
            /\ KeyUsage (cert k) <> x509_KeyUsageDigitalSignature).
Proof.
  destruct (CheckExtensions_add k) as (E & _).
  exists (extension_signals (serviceAccount k) (cert k)). split; [exact E |].
  apply extension_signals_kinds.
Qed.

Lemma crypto_signals_kinds sa c N E :
  PublicKey_ c = rsa_PublicKey N E ->
  exists new,
    crypto_signals sa c = Ok new
    /\ Forall (fun s => In (keyKind s) [USER_PROVIDED_USER_MANAGED;
                                        GOOGLE_PROVIDED_USER_MANAGED]) new
    /\ (new = [] <-> PublicKeyAlgorithm c = x509_RSA
                     /\ SignatureAlgorithm c = x509_SHA1WithRSA
                     /\ BitLen N = 2048)
    /\ (BitLen N = 1024 <-> In GOOGLE_PROVIDED_USER_MANAGED (kinds new)).
Proof.
  intros Hpk. unfold crypto_signals, checkCrypto.
  change (cert (NewSAKey sa c)) with c.
  destruct (Z.eqb_spec (PublicKeyAlgorithm c) x509_RSA) as [Ha | Ha];
    simpl;
    destruct (Z.eqb_spec (SignatureAlgorithm c) x509_SHA1WithRSA) as [Hs | Hs];
    simpl; rewrite Hpk; simpl;
    (destruct (Z.eqb_spec (BitLen N) 1024) as [H1 | H1];
     [| destruct (Z.eqb_spec (BitLen N) 2048) as [H2 | H2]]);
    simpl;
    (eexists; split; [reflexivity |]);
    (split; [repeat (apply Forall_cons_2; [simpl; auto |]); apply Forall_nil_2 |]);
    (split; [split; [intros Hn; first [discriminate Hn | repeat split; auto; lia]
                    | intros (? & ? & ?); first [reflexivity | contradiction | lia]] |]);
    simpl; (split; [intros; first [tauto | lia] |]);
    intros Hin; repeat (destruct Hin as [Hin | Hin]; [first [exact H1 | discriminate Hin] |]);
    first [contradiction | exact H1].
Qed.

(** X4. On an RSA key the crypto check returns. It never says
    GOOGLE_PROVIDED/SYSTEM_MANAGED; it appends nothing exactly for algorithm
    RSA, signature SHA1WithRSA and a 2048-bit modulus, and it says
    GOOGLE_PROVIDED/USER_MANAGED exactly for a 1024-bit modulus. *)
Theorem checkCrypto_signals (k : SAKey) (N E : Z) :
  PublicKey_ (cert k) = rsa_PublicKey N E ->
  exists new,
    checkCrypto k = Ok (add_signals k new)
    /\ Forall (fun s => In (keyKind s) [USER_PROVIDED_USER_MANAGED;
                                        GOOGLE_PROVIDED_USER_MANAGED]) new
    /\ (new = [] <-> PublicKeyAlgorithm (cert k) = x509_RSA
                     /\ SignatureAlgorithm (cert k) = x509_SHA1WithRSA
                     /\ BitLen N = 2048)
    /\ (BitLen N = 1024 <-> In GOOGLE_PROVIDED_USER_MANAGED (kinds new)).
Proof.
  intros Hpk.
  destruct (crypto_signals_kinds (serviceAccount k) (cert k) N E Hpk)
    as (new & Ec & Hkinds).
  pose proof (checkCrypto_add k) as H. rewrite Ec in H. destruct H as (H & _).
  exists new. split; [exact H | exact Hkinds].
Qed.

Lemma checkCrypto_signals_witness :
  exists new,
    checkCrypto (NewSAKey Samples.sa Samples.systemCert)
    = Ok (add_signals (NewSAKey Samples.sa Samples.systemCert) new)
    /\ new = [].
Proof.
  destruct (checkCrypto_signals (NewSAKey Samples.sa Samples.systemCert)
              (2 ^ 2047 + 1) 65537 eq_refl) as (new & E & _ & Hnil & _).
  exists new. split; [exact E |]. apply Hnil.
  repeat split; vm_compute; reflexivity.
Defined.

(** ** When a key is found system-managed *)

Lemma crypto_signals_rsa sa c cs :
  crypto_signals sa c = Ok cs -> exists N E, PublicKey_ c = rsa_PublicKey N E.
Proof.
  intros H. destruct (PublicKey_ c) as [N E | | | |] eqn:Epk; [eauto | | | |];
    exfalso;
    destruct (checkCrypto_panics_without_rsa_key (NewSAKey sa c)) as (msg & Hp & _);
    try (simpl; rewrite Epk; reflexivity);
    unfold crypto_signals in H; rewrite Hp in H; discriminate H.
Qed.

(** The signals of [check] on a fresh key are those of the four checks in
    the order names, crypto, validity, extensions. *)
Lemma check_signals_decompose sa c :
  check_signals sa c
  = match crypto_signals sa c with
    | Ok cs => Ok (names_signals sa c ++ cs
                   ++ validity_signals sa c ++ extension_signals sa c)%list
    | Panic msg => Panic msg
    | Exit code => Exit code
    end.
Proof.
  unfold check_signals, check.
  destruct (checkNames_add (NewSAKey sa c)) as (En & _). simpl in En. rewrite En.
  pose proof (checkCrypto_add (add_signals (NewSAKey sa c) (names_signals sa c))) as Hc.
  simpl in Hc.
  destruct (crypto_signals sa c) as [cs | msg | code].
  - destruct Hc as (Ec & _). rewrite Ec. simpl.
    destruct (CheckValidityPeriod_add
                (add_signals (add_signals (NewSAKey sa c) (names_signals sa c)) cs))
      as (Ev & _).
    simpl in Ev. rewrite Ev.
    destruct (CheckExtensions_add
                (add_signals
                   (add_signals (add_signals (NewSAKey sa c) (names_signals sa c)) cs)
                   (validity_signals sa c))) as (Ee & _).
    simpl in Ee. rewrite Ee. simpl. rewrite <- !app_assoc. reflexivity.
  - rewrite Hc. reflexivity.
  - rewrite Hc. reflexivity.
Qed.

Lemma determineKeyKind_fresh sa c kind :
  (exists k', determineKeyKind (NewSAKey sa c) = Ok (kind, k'))
  <-> exists sigs, check_signals sa c = Ok sigs /\ resolve sigs = Ok kind.
Proof.
  unfold determineKeyKind.
  pose proof (check_add (NewSAKey sa c)) as H. simpl in H.
  destruct (check_signals sa c) as [new | msg | code].
  - destruct H as (E & _). rewrite E. simpl. split.
    + intros (k' & Hk). exists new. split; [reflexivity |].
      destruct (resolve new); simpl in Hk; congruence.
    + intros (sigs & Es & Er). injection Es as <-. rewrite Er. simpl. eauto.
  - rewrite H. simpl. split; [intros (k' & Hk) | intros (sigs & Es & _)]; discriminate.
  - rewrite H. simpl. split; [intros (k' & Hk) | intros (sigs & Es & _)]; discriminate.
Qed.

(** X5. A freshly built key is determined GOOGLE_PROVIDED/SYSTEM_MANAGED exactly
    when every check finds it standard: subject and issuer CN are the
    expected name (whole or truncated) and no GAIA id, the key is RSA of
    2048 bits under SHA1WithRSA, the certificate expires and its window is
    396h15m or strictly between 2 years and 2 years + 31 days, and the
    usages are clientAuth and digitalSignature alone. *)
Theorem determineKeyKind_system_managed (sa : string) (c : Certificate) :
  (exists k', determineKeyKind (NewSAKey sa c)
              = Ok (GOOGLE_PROVIDED_SYSTEM_MANAGED, k'))
  <-> standard_name sa (CommonName (Subject c))
      /\ standard_name sa (CommonName (Issuer c))
      /\ standard_crypto c
      /\ standard_window c
      /\ standard_extensions c.
Proof.
  rewrite determineKeyKind_fresh, check_signals_decompose.
  destruct (names_signals_kinds sa c) as (s1 & s2 & En & _ & S1 & _ & S2).
  destruct (validity_signals_kinds sa c) as (sv & Ev & Vv & Sv).
  destruct (extension_signals_kinds sa c) as (Ue & _ & Ne & _).
  rewrite En, Ev. unfold standard_crypto. split.
  - intros (sigs & Es & Er).
    destruct (crypto_signals sa c) as [cs | |] eqn:Ec; try discriminate Es.
    injection Es as <-.
    destruct (crypto_signals_rsa sa c cs Ec) as (N & E & Epk).
    destruct (crypto_signals_kinds sa c N E Epk) as (cs' & Ec' & Kc & Nc & _).
    assert (cs' = cs) by congruence. subst cs'.
    assert (Hall : forall s, In s ([s1; s2] ++ cs ++ [sv] ++ extension_signals sa c)%list ->
                             keyKind s = GOOGLE_PROVIDED_SYSTEM_MANAGED).
    { apply resolve_system_managed_iff; [discriminate | | exact Er].
      pose proof (check_add (NewSAKey sa c)) as Hadd. simpl in Hadd.
      rewrite check_signals_decompose, Ec, En, Ev in Hadd. apply Hadd. }
    assert (Hcs : cs = []).
    { destruct cs as [| s cs]; [reflexivity |]. exfalso.
      assert (Hs : keyKind s = GOOGLE_PROVIDED_SYSTEM_MANAGED).
      { apply Hall. simpl. auto. }
      apply Forall_cons_1 in Kc as [Hk _]. rewrite Hs in Hk.
      destruct Hk as [Hk | [Hk | []]]; discriminate Hk. }
    assert (Hes : extension_signals sa c = []).
    { destruct (extension_signals sa c) as [| s es]; [reflexivity |]. exfalso.
      assert (Hs : keyKind s = GOOGLE_PROVIDED_SYSTEM_MANAGED).
      { apply Hall. rewrite Hcs. simpl. auto. }
      apply Forall_cons_1 in Ue as [Hk _]. rewrite Hs in Hk. discriminate Hk. }
    split; [apply S1, Hall; simpl; auto |].
    split; [apply S2, Hall; simpl; auto |].
    split; [destruct (proj1 Nc Hcs) as (? & ? & ?); eauto 10 |].
    split; [apply Sv, Hall; rewrite Hcs; simpl; auto |].
    apply Ne, Hes.
  - intros (N1 & N2 & (Ha & Hs & N & E & Epk & Hbits) & Hw & He).
    destruct (crypto_signals_kinds sa c N E Epk) as (cs & Ec & _ & Nc & _).
    rewrite Ec. rewrite (proj2 Nc) by auto. rewrite (proj2 Ne He). simpl.
    eexists. split; [reflexivity |].
    apply resolve_system_managed_iff; [discriminate | |].
    + apply Forall_cons_2; [rewrite (proj2 S1 N1); auto with kinds |].
      apply Forall_cons_2; [rewrite (proj2 S2 N2); auto with kinds |].
      apply Forall_cons_2; [exact Vv | apply Forall_nil_2].
    + intros s [<- | [<- | [<- | []]]];
        [apply S1, N1 | apply S2, N2 | apply Sv, Hw].
Qed.

(** X6. A certificate whose subject CN is a GAIA id and which is standard in
    every other respect is determined GOOGLE_PROVIDED/USER_MANAGED: the
    GAIA signal outranks the system-managed ones. *)
Theorem determineKeyKind_gaia_subject (sa : string) (c : Certificate) :
  matches_GAIA_ID (CommonName (Subject c)) ->
  standard_name sa (CommonName (Issuer c)) ->
  standard_crypto c ->
  standard_window c ->
  standard_extensions c ->
  exists k', determineKeyKind (NewSAKey sa c)
             = Ok (GOOGLE_PROVIDED_USER_MANAGED, k').
Proof.
  intros Hg Hi (Ha & Hs & N & E & Epk & Hbits) Hw He.
  apply determineKeyKind_fresh. rewrite check_signals_decompose.
  destruct (names_signals_kinds sa c) as (s1 & s2 & En & G1 & _ & _ & S2).
  destruct (validity_signals_kinds sa c) as (sv & Ev & _ & Sv).
  destruct (extension_signals_kinds sa c) as (_ & _ & Ne & _).
  destruct (crypto_signals_kinds sa c N E Epk) as (cs & Ec & _ & Nc & _).
  rewrite Ec, En, Ev, (proj2 Nc) by auto. rewrite (proj2 Ne He). simpl.
  eexists. split; [reflexivity |].
  unfold resolve. simpl. unfold resolve_step.
  rewrite (proj2 G1 Hg), (proj2 S2 Hi), (proj2 Sv Hw). reflexivity.
Qed.

Lemma determineKeyKind_gaia_subject_witness :
  exists k', determineKeyKind (NewSAKey Samples.sa
                                 (Samples.mkCert Samples.issued
                                    (Time_Add Samples.issued
                                       googleProvidedSystemManagedValidityV1)
                                    x509_RSA (rsa_PublicKey (2 ^ 2047 + 1) 65537)
                                    "112233445566778899001" Samples.sa_name))
             = Ok (GOOGLE_PROVIDED_USER_MANAGED, k').
Proof.
  apply determineKeyKind_gaia_subject.
  - exists "12233445566778899001". split; [reflexivity |].
    split; [reflexivity |].
    repeat (constructor; [vm_compute; split; lia |]). constructor.
  - split; [intros (d & E & _); discriminate E | left; reflexivity].
  - split; [reflexivity |]. split; [reflexivity |].
    exists (2 ^ 2047 + 1), 65537. split; vm_compute; reflexivity.
  - split; [vm_compute; discriminate | left; vm_compute; reflexivity].
  - split; reflexivity.
Defined.

(** ** The kind of an origin and a type *)

Lemma slices_Index_from_range s v : forall i,
  slices_Index_from i s v = -1 \/ i <= slices_Index_from i s v.
Proof.
  induction s as [| x s IH]; intros i; simpl; [auto |].
  destruct (String.eqb x v); [right; lia |].
  destruct (IH (i + 1)); [auto | right; lia].
Qed.

Lemma slices_Index_from_absent s v : forall i,
  0 <= i -> (slices_Index_from i s v = -1 <-> ~ In v s).
Proof.
  induction s as [| x s IH]; intros i Hi; simpl; [tauto |].
  destruct (String.eqb_spec x v) as [-> | Hx].
  - split; [lia | tauto].
  - rewrite IH by lia. tauto.
Qed.

Lemma slices_Index_absent s v : slices_Index s v = -1 <-> ~ In v s.
Proof. apply slices_Index_from_absent. lia. Qed.

Lemma split_at_slash o : forall t p q,
  no_slash p -> no_slash q ->
  o ++ String "/" t = p ++ String "/" q -> o = p /\ t = q.
Proof.
  unfold no_slash. induction o as [| a o IH]; intros t p q Hp Hq H.
  - destruct p as [| b p]; cbn [append] in H.
    + injection H as ->. auto.
    + injection H as <- _. exfalso. apply Hp. simpl. auto.
  - destruct p as [| b p]; cbn [append] in H.
    + injection H as -> H. exfalso. apply Hq. rewrite <- H.
      clear. induction o as [| c o IHo]; simpl; auto.
    + injection H as -> H. destruct (IH t p q) as [-> ->]; auto.
      intros Hin. apply Hp. simpl. auto.
Qed.

(** X7. The mapping returns exactly for the three origin/type pairs that exist,
    and then returns origin ++ "/" ++ type; every other pair panics, naming
    the combination. *)
Theorem keyTypeAndOriginToMuxedKeyKind_pairs (keyType keyOrigin : string) :
  ((exists v, keyTypeAndOriginToMuxedKeyKind keyType keyOrigin = Ok v)
   <-> (keyOrigin = "USER_PROVIDED" /\ keyType = "USER_MANAGED")
       \/ (keyOrigin = "GOOGLE_PROVIDED" /\ keyType = "USER_MANAGED")
       \/ (keyOrigin = "GOOGLE_PROVIDED" /\ keyType = "SYSTEM_MANAGED"))
  /\ (forall v, keyTypeAndOriginToMuxedKeyKind keyType keyOrigin = Ok v ->
        v = keyOrigin ++ "/" ++ keyType /\ In v keyKindPrecedence)
  /\ ((forall v, keyTypeAndOriginToMuxedKeyKind keyType keyOrigin <> Ok v) ->
      keyTypeAndOriginToMuxedKeyKind keyType keyOrigin
      = Panic ("Invalid key type and origin combination: "
               ++ keyOrigin ++ "/" ++ keyType)).
Proof.
  unfold keyTypeAndOriginToMuxedKeyKind.
  pose proof (slices_Index_absent keyKindPrecedence (keyOrigin ++ "/" ++ keyType)) as Habs.
  destruct (Z.eqb_spec (slices_Index keyKindPrecedence (keyOrigin ++ "/" ++ keyType)) (-1))
    as [E | E].
  - apply Habs in E. split; [| split].
    + split; [intros (v & Hv); discriminate Hv |].
      intros H. exfalso. apply E.
      destruct H as [[-> ->] | [[-> ->] | [-> ->]]]; simpl; auto.
    + intros v Hv. discriminate Hv.
    + intros _. reflexivity.
  - assert (Hin : In (keyOrigin ++ "/" ++ keyType) keyKindPrecedence).
    { destruct (in_dec String.string_dec (keyOrigin ++ "/" ++ keyType) keyKindPrecedence)
        as [Hin | Hnin]; [exact Hin |].
      apply Habs in Hnin. contradiction. }
    split; [| split].
    + split; [intros _ | eauto].
      change (keyOrigin ++ "/" ++ keyType) with (keyOrigin ++ String "/" keyType) in Hin.
      destruct Hin as [H | [H | [H | []]]]; symmetry in H.
      * left. apply (split_at_slash _ _ "USER_PROVIDED" "USER_MANAGED");
          [| | exact H]; unfold no_slash; simpl; intuition discriminate.
      * right. left.
        apply (split_at_slash _ _ "GOOGLE_PROVIDED" "USER_MANAGED");
          [| | exact H]; unfold no_slash; simpl; intuition discriminate.
      * right. right.
        apply (split_at_slash _ _ "GOOGLE_PROVIDED" "SYSTEM_MANAGED");
          [| | exact H]; unfold no_slash; simpl; intuition discriminate.
    + intros v Hv. injection Hv as <-. auto.
    + intros H. exfalso. eapply H. reflexivity.
Qed.

(** ** When [determineKeyKind] returns *)

(** X8. [determineKeyKind] returns exactly on the keys whose certificate holds
    an RSA public key; it then leaves the signals the key had, followed by
    at least three new ones, and records the kind it returns in the key. *)
Theorem determineKeyKind_returns_iff_rsa (k : SAKey) :
  ((exists r, determineKeyKind k = Ok r)
   <-> exists N E, PublicKey_ (cert k) = rsa_PublicKey N E)
  /\ forall kind k',
       determineKeyKind k = Ok (kind, k') ->
       SAKey_keyKind k' = kind
       /\ serviceAccount k' = serviceAccount k
       /\ cert k' = cert k
       /\ exists new, signals k' = (signals k ++ new)%list
                      /\ (3 <= length new)%nat.
Proof.
  split.
  - split.
    + intros (r & Hr).
      destruct (PublicKey_ (cert k)) as [N E | | | |] eqn:Epk; [eauto | | | |];
        exfalso;
        destruct (checkCrypto_panics_without_rsa_key k) as (msg & _ & _ & Hp);
        try (rewrite Epk; reflexivity); congruence.
    + intros (N & E & Epk).
      destruct (check_returns_with_rsa_key k) as (new & Ec & _ & Hlen).
      { rewrite Epk. reflexivity. }
      unfold determineKeyKind. rewrite Ec. simpl. unfold resolve. simpl.
      rewrite length_app.
      destruct (length (signals k) + length new =? 0)%nat eqn:E0.
      { apply Nat.eqb_eq in E0. lia. }
      simpl. eauto.
  - intros kind k' H. unfold determineKeyKind in H.
    pose proof (check_add k) as Hadd.
    destruct (check_signals (serviceAccount k) (cert k)) as [new | msg | code].
    + destruct Hadd as (Ec & _ & Hlen). rewrite Ec in H. simpl in H.
      destruct (resolve (signals k ++ new)) as [r | |]; simpl in H; try discriminate H.
      injection H as <- <-. simpl. repeat split; eauto.
    + rewrite Hadd in H. discriminate H.
    + rewrite Hadd in H. discriminate H.
Qed.

(** ** The bad-principal list *)

(** X9. A principal is bad after [addBadSA] exactly if it is the one added or
    was bad before; a new collection has no bad principal; and [addBadSA]
    touches nothing but the bad list. *)
Theorem bad_list_add_lookup (k : KeyCollection) (sa sa' : string) :
  (isBadSA (addBadSA k sa) sa' = true <-> sa' = sa \/ isBadSA k sa' = true)
  /\ isBadSA (NewKeyCollection (serviceAccountIDs k)) sa' = false
  /\ serviceAccountIDs (addBadSA k sa) = serviceAccountIDs k
  /\ observedKeys (addBadSA k sa) = observedKeys k
  /\ groundTruthKeys (addBadSA k sa) = groundTruthKeys k.
Proof.
  split; [| repeat split].
  rewrite !isBadSA_spec. unfold addBadSA. simpl.
  rewrite elem_of_app, list_elem_of_singleton. tauto.
Qed.

(** ** The fan-out, whatever the order *)

(** X10. When every task returns a result and an error that do not depend on the
    shared state, [parllelMap] returns the results in the order of the
    items, not of completion: slot i holds the result of item i. If any
    task returned an error it returns the nil slice and the errors joined in
    the order of the items. The shared state sees the tasks one after the
    other in the order they ran. *)
Theorem parllelMap_positional {St I O : Type} (zero : O) (items : list I)
    (f : Task St I O) (Inv : St -> Prop) (g : I -> O) (e : I -> error)
    (h : I -> St -> St) (sched : list nat) (st : St) :
  (forall item st, item ∈ items -> Inv st ->
     f item st = Ok ((g item, e item), h item st) /\ Inv (h item st)) ->
  sched ≡ₚ seq 0 (length items) ->
  Inv st ->
  parllelMap zero items f sched st
  = Ok ((match errors_Join (e <$> items) with
         | Some _ => []
         | None => g <$> items
         end,
         errors_Join (e <$> items)),
        effects items h sched st)
  /\ Inv (effects items h sched st).
Proof.
  intros Hf Hperm Hinv. unfold parllelMap.
  destruct (run_goroutines_spec f items Inv g e h Hf sched st
              (replicate (length items) zero)
              (replicate (length items) None) Hinv) as (Erun & Hinv').
  rewrite Erun. simpl.
  rewrite !writes_all by (rewrite ?length_replicate; auto).
  split; [| exact Hinv'].
  destruct (errors_Join (e <$> items)); reflexivity.
Qed.

Lemma parllelMap_positional_witness :
  parllelMap 0 [10; 20; 30]
    (fun item st => Ok ((item + 1, None), (st + item)))
    [2; 0; 1]%nat 0
  = Ok (([11; 21; 31], None), 60).
Proof.
  destruct (parllelMap_positional 0 [10; 20; 30]
              (fun item st => Ok ((item + 1, None), (st + item)))
              (fun _ => True) (fun item => item + 1) (fun _ => None)
              (fun item st => st + item) [2; 0; 1]%nat 0) as (E & _).
  - intros item st _ _. split; [reflexivity | exact I].
  - simpl. etrans; [apply perm_swap | apply perm_skip, perm_swap].
  - exact I.
  - rewrite E. reflexivity.
Defined.

(** ** What a successful fetch holds *)

Lemma decode_certs_cons env keyId v keys certs :
  match parsed_cert env v with
  | Some cert =>
      decode_certs env ((keyId, v) :: keys) certs
      = decode_certs env keys (<[keyId := cert]> certs)
  | None => exists err, decode_certs env ((keyId, v) :: keys) certs = (None, Some err)
  end.
Proof.
  unfold parsed_cert. cbn [decode_certs].
  destruct (pem_Decode env v) as [[block |] rest]; [| eauto].
  destruct (0 <? String.length rest)%nat; [eauto |].
  destruct (negb (String.eqb (Block_Type block) "CERTIFICATE")); [eauto |].
  destruct (0 <? length (Block_Headers block))%nat; [eauto |].
  destruct (x509_ParseCertificate env (Block_Bytes block)); [reflexivity | eauto].
Qed.

Lemma decode_certs_success_iff env keys : forall certs,
  (exists m, decode_certs env keys certs = (Some m, None))
  <-> Forall (fun kv => is_Some (parsed_cert env (snd kv))) keys.
Proof.
  induction keys as [| [keyId v] keys IH]; intros certs.
  - split; [constructor | simpl; eauto].
  - pose proof (decode_certs_cons env keyId v keys certs) as H.
    destruct (parsed_cert env v) as [cert |] eqn:Ep.
    + rewrite H, IH. split.
      * intros Hall. constructor; [simpl; rewrite Ep; eauto | exact Hall].
      * intros Hall. apply Forall_cons_1 in Hall. tauto.
    + destruct H as (err & ->). split.
      * intros (m & Hm). discriminate Hm.
      * intros Hall. apply Forall_cons_1 in Hall as [[c Hc] _].
        simpl in Hc. congruence.
Qed.

Lemma decode_certs_lookup env keys : forall certs m,
  decode_certs env keys certs = (Some m, None) ->
  (forall keyId, keyId ∉ (fst <$> keys) -> m !! keyId = certs !! keyId)
  /\ (NoDup (fst <$> keys) ->
      forall keyId v, (keyId, v) ∈ keys -> m !! keyId = parsed_cert env v).
Proof.
  induction keys as [| [id v] keys IH]; intros certs m Hm.
  - simpl in Hm. injection Hm as <-. split; [reflexivity |].
    intros _ keyId v' Hin. apply elem_of_nil in Hin. contradiction.
  - pose proof (decode_certs_cons env id v keys certs) as H.
    destruct (parsed_cert env v) as [cert |] eqn:Ep.
    2: { destruct H as (err & He). congruence. }
    rewrite H in Hm. destruct (IH _ _ Hm) as (Hout & Hin). split.
    + intros keyId Hn. rewrite fmap_cons, not_elem_of_cons in Hn.
      destruct Hn as [Hne Hn]. rewrite (Hout keyId Hn).
      apply lookup_insert_ne. simpl in Hne. congruence.
    + intros Hnd keyId v' Hkv. rewrite fmap_cons in Hnd.
      apply NoDup_cons in Hnd as [Hfresh Hnd].
      apply elem_of_cons in Hkv as [E | Hkv].
      * injection E as -> ->. rewrite (Hout id Hfresh), Ep.
        apply lookup_insert_eq.
      * apply Hin; assumption.
Qed.

(** X11. The fetch of a principal succeeds exactly when the endpoint answers 200
    with a readable body that unmarshals to a map all of whose values yield
    a certificate. The map returned then holds exactly the key ids of the
    response, each bound to the certificate of its value. *)
Theorem fetch_succeeds_iff (env : Env) (sa : string) :
  ((exists m, fetch env sa = (Some m, None))
   <-> exists resp body keys,
         http_Get env (x509_url sa) = inl resp
         /\ StatusCode resp = 200
         /\ Body resp = inl body
         /\ json_Unmarshal env body = inl keys
         /\ Forall (fun kv => is_Some (parsed_cert env (snd kv))) keys)
  /\ forall resp body keys m,
       http_Get env (x509_url sa) = inl resp ->
       Body resp = inl body ->
       json_Unmarshal env body = inl keys ->
       NoDup (fst <$> keys) ->
       fetch env sa = (Some m, None) ->
       (forall keyId, keyId ∉ (fst <$> keys) -> m !! keyId = None)
       /\ forall keyId v, (keyId, v) ∈ keys ->
            m !! keyId = parsed_cert env v /\ is_Some (m !! keyId).
Proof.
  assert (Hok : forall m, fetch env sa = (Some m, None) ->
             exists resp body keys,
               http_Get env (x509_url sa) = inl resp
               /\ StatusCode resp = 200
               /\ Body resp = inl body
               /\ json_Unmarshal env body = inl keys
               /\ decode_certs env keys ∅ = (Some m, None)).
  { intros m. unfold fetch, getServiceAccountKeyCerts.
    destruct (http_Get env (x509_url sa)) as [resp | err]; [| discriminate].
    destruct (Z.eqb_spec (StatusCode resp) http_StatusNotFound); [discriminate |].
    destruct (Z.eqb_spec (StatusCode resp) http_StatusOK) as [Hs | Hs];
      [| discriminate].
    destruct (Body resp) as [body | err] eqn:Hb; [| discriminate].
    destruct (json_Unmarshal env body) as [keys | err] eqn:Hj; [| discriminate].
    simpl. intros H. exists resp, body, keys.
    repeat split; first [reflexivity | assumption]. }
  split.
  - split.
    + intros (m & Hm).
      destruct (Hok m Hm) as (resp & body & keys & Hg & Hs & Hb & Hj & Hd).
      exists resp, body, keys. repeat (split; [assumption |]).
      apply (decode_certs_success_iff env keys ∅). eauto.
    + intros (resp & body & keys & Hg & Hs & Hb & Hj & Hall).
      apply (decode_certs_success_iff env keys ∅) in Hall as (m & Hm).
      exists m. unfold fetch, getServiceAccountKeyCerts.
      rewrite Hg, Hs, Hb, Hj. exact Hm.
  - intros resp body keys m Hg Hb Hj Hnd Hm.
    destruct (Hok m Hm) as (resp' & body' & keys' & Hg' & Hs' & Hb' & Hj' & Hd).
    assert (resp' = resp) by congruence. subst resp'.
    assert (body' = body) by congruence. subst body'.
    assert (keys' = keys) by congruence. subst keys'.
    destruct (decode_certs_lookup env keys ∅ m Hd) as (Hout & Hin).
    split.
    + intros keyId Hn. rewrite (Hout keyId Hn). apply lookup_empty.
    + intros keyId v Hkv. split; [apply Hin; assumption |].
      rewrite (Hin Hnd keyId v Hkv).
      assert (Hall : Forall (fun kv => is_Some (parsed_cert env (snd kv))) keys).
      { apply (decode_certs_success_iff env keys ∅). eauto. }
      rewrite Forall_forall in Hall. apply (Hall (keyId, v) Hkv).
Qed.

Lemma fetch_succeeds_iff_witness :
  exists m, fetch SampleEnv.env "good@prj" = (Some m, None)
            /\ m !! "k1" = Some Samples.systemCert.
Proof.
  destruct (fetch_succeeds_iff SampleEnv.env "good@prj") as (Hiff & Hmap).
  destruct (proj2 Hiff) as (m & Hm).
  - exists {| StatusCode := 200; Body := inl "one-key" |}, "one-key", [("k1", "pem-1")].
    repeat (split; [reflexivity |]).
    apply Forall_cons_2; [vm_compute; eauto | apply Forall_nil_2].
  - exists m. split; [exact Hm |].
    destruct (Hmap {| StatusCode := 200; Body := inl "one-key" |} "one-key"
                [("k1", "pem-1")] m) as (_ & Hin); try reflexivity; try exact Hm.
    + apply NoDup_cons. split; [apply not_elem_of_nil | apply NoDup_nil_2].
    + destruct (Hin "k1" "pem-1") as (E & _);
        [apply elem_of_cons; left; reflexivity |].
      rewrite E. reflexivity.
Defined.

(** ** The requests of the two phases *)

Lemma observed_effects_trace env items sched : forall k trace,
  effects items (observed_effect env) sched (k, trace)
  = ({| serviceAccountIDs := serviceAccountIDs k;
        observedKeys := observedKeys k;
        groundTruthKeys := groundTruthKeys k;
        badSAs := badSAs k
                  ++ filter (fun sa => fetch_fails env sa = true)
                       (scheduled items sched) |},
     (trace ++ (get_request <$> scheduled items sched))%list).
Proof.
  induction sched as [| i sched IH]; intros k trace; simpl.
  - rewrite !app_nil_r. destruct k; reflexivity.
  - destruct (items !! i) as [sa |] eqn:Ei; [| apply IH].
    unfold observed_effect at 2. simpl. rewrite IH. simpl.
    rewrite <- app_assoc. simpl. f_equal.
    destruct (fetch_fails env sa) eqn:Ef; simpl.
    + rewrite filter_cons_True by exact Ef. rewrite <- app_assoc. reflexivity.
    + rewrite filter_cons_False by congruence. reflexivity.
Qed.

(** The public phase, whatever the order of its goroutines. *)
Lemma FetchObservedKeys_result env sched k trace :
  sched ≡ₚ seq 0 (length (serviceAccountIDs k)) ->
  FetchObservedKeys env sched (k, trace)
  = Ok (None,
        ({| serviceAccountIDs := serviceAccountIDs k;
            observedKeys := observed_slot env <$> serviceAccountIDs k;
            groundTruthKeys := groundTruthKeys k;
            badSAs := badSAs k
                      ++ filter (fun sa => fetch_fails env sa = true)
                           (scheduled (serviceAccountIDs k) sched) |},
         (trace ++ (get_request <$> scheduled (serviceAccountIDs k) sched))%list)).
Proof.
  intros Hperm. unfold FetchObservedKeys, parllelMap. simpl.
  set (ids := serviceAccountIDs k) in *.
  destruct (run_goroutines_spec (observedTask env) ids (fun _ => True)
              (observed_slot env) (fun _ => None) (observed_effect env)
              (fun item st _ _ => conj (observedTask_spec env item st) I)
              sched (set_observedKeys k (replicate (length ids) None), trace)
              (replicate (length ids) None) (replicate (length ids) None) I)
    as (Erun & _).
  rewrite Erun. simpl.
  rewrite !writes_all by (rewrite ?length_replicate; auto).
  rewrite errors_Join_nil.
  2: { apply Forall_fmap. apply Forall_true. intros; reflexivity. }
  rewrite observed_effects_trace. reflexivity.
Qed.

(** ** The public phase, whatever the interleaving *)

Lemma observed_access_Fetches env ids run i sa :
  ids !! i = Some sa ->
  run_stages run !! i = Some Waiting ->
  observed_access env ids run (Fetches i)
  = {| run_shared := (fst (run_shared run),
                      (snd (run_shared run) ++ [get_request sa])%list);
       run_stages := <[i := held env sa]> (run_stages run);
       run_res := run_res run;
       run_errs := run_errs run |}.
Proof.
  intros Hi Hs. unfold observed_access.
  destruct (run_shared run) as [k trace]. rewrite Hi, Hs.
  unfold semaphore_Acquire_Background.
  rewrite getServiceAccountKeyCerts_trace. unfold held, fetch_fails.
  destruct (fetch env sa) as [res [e |]]; reflexivity.
Qed.

Lemma observed_access_Returns env ids run i sa :
  ids !! i = Some sa ->
  run_stages run !! i = Some (held env sa) ->
  observed_access env ids run (Returns i)
  = {| run_shared := (if fetch_fails env sa
                      then addBadSA (fst (run_shared run)) sa
                      else fst (run_shared run),
                      snd (run_shared run));
       run_stages := <[i := Returned]> (run_stages run);
       run_res := <[i := observed_slot env sa]> (run_res run);
       run_errs := <[i := None]> (run_errs run) |}.
Proof.
  intros Hi Hs. unfold observed_access.
  destruct (run_shared run) as [k trace]. rewrite Hi, Hs.
  unfold held, observed_slot. destruct (fetch_fails env sa); reflexivity.
Qed.

Lemma held_not_Waiting env sa : held env sa <> Waiting.
Proof. unfold held. destruct (fetch_fails env sa); discriminate. Qed.

(** The state after the accesses of a run that is on course. *)
Lemma run_accesses_spec env ids : forall accesses run,
  on_course env ids (run_stages run) accesses ->
  length (run_stages run) = length ids ->
  length (run_res run) = length ids ->
  length (run_errs run) = length ids ->
  let run' := fold_left (observed_access env ids) accesses run in
  serviceAccountIDs (fst (run_shared run')) = serviceAccountIDs (fst (run_shared run))
  /\ observedKeys (fst (run_shared run')) = observedKeys (fst (run_shared run))
  /\ groundTruthKeys (fst (run_shared run')) = groundTruthKeys (fst (run_shared run))
  /\ badSAs (fst (run_shared run'))
     = (badSAs (fst (run_shared run))
        ++ filter (fun sa => fetch_fails env sa = true) (returned ids accesses))%list
  /\ snd (run_shared run')
     = (snd (run_shared run) ++ (get_request <$> fetched ids accesses))%list
  /\ length (run_res run') = length ids
  /\ length (run_errs run') = length ids
  /\ (forall i sa, Returns i ∈ accesses -> ids !! i = Some sa ->
        run_res run' !! i = Some (observed_slot env sa)
        /\ run_errs run' !! i = Some None)
  /\ (forall i, Returns i ∉ accesses ->
        run_res run' !! i = run_res run !! i
        /\ run_errs run' !! i = run_errs run !! i).
Proof.
  induction accesses as [| a rest IH]; intros run Hc Hls Hlr Hle; cbn [fold_left].
  - cbv zeta. unfold returned, fetched. simpl. rewrite !app_nil_r.
    do 7 (split; [first [reflexivity | assumption] |]). split.
    + intros i sa Hin. apply elem_of_nil in Hin. contradiction.
    + intros i _. split; reflexivity.
  - destruct Hc as (Hnd & Hf & Hr). apply NoDup_cons in Hnd as (Hnotin & Hnd).
    destruct a as [i | i].
    + destruct (Hf i) as (Hw & [sa Hsa]); [apply elem_of_cons; left; reflexivity |].
      assert (Hlt : (i < length (run_stages run))%nat).
      { apply lookup_lt_is_Some. eauto. }
      rewrite (observed_access_Fetches env ids run i sa Hsa Hw).
      match goal with
      | |- context [fold_left _ rest ?r] => set (run1 := r)
      end.
      destruct (IH run1) as (I1 & I2 & I3 & I4 & I5 & I6 & I7 & I8 & I9).
      * split; [exact Hnd |]. split.
        -- intros j Hj.
           assert (Hne : i <> j) by (intros ->; contradiction).
           destruct (Hf j) as (Hwj & Hsj); [apply elem_of_cons; right; exact Hj |].
           subst run1. simpl. rewrite list_lookup_insert_ne by exact Hne. auto.
        -- intros j Hj.
           destruct (Hr j) as (saj & Hsaj & Hcase);
             [apply elem_of_cons; right; exact Hj |].
           exists saj. split; [exact Hsaj |]. subst run1. simpl.
           destruct (decide (i = j)) as [<- | Hne].
           ++ left. rewrite list_lookup_insert_eq by exact Hlt.
              assert (saj = sa) by congruence. subst saj. reflexivity.
           ++ rewrite list_lookup_insert_ne by exact Hne.
              destruct Hcase as [Hh | (Hwj & Hbefore)]; [left; exact Hh |].
              right. split; [exact Hwj |]. intros l1 l2 E.
              specialize (Hbefore (Fetches i :: l1) l2).
              rewrite E in Hbefore. specialize (Hbefore eq_refl).
              apply elem_of_cons in Hbefore as [Heq | Hin]; [| exact Hin].
              injection Heq as Heq. congruence.
      * subst run1. simpl. rewrite length_insert. exact Hls.
      * exact Hlr.
      * exact Hle.
      * subst run1. cbn [run_shared run_res run_errs fst snd] in *.
        assert (Ef : fetched ids (Fetches i :: rest) = sa :: fetched ids rest).
        { unfold fetched. simpl. rewrite Hsa. reflexivity. }
        assert (Er : returned ids (Fetches i :: rest) = returned ids rest).
        { unfold returned. reflexivity. }
        rewrite Ef, Er.
        do 4 (split; [assumption |]).
        split; [rewrite I5, <- app_assoc; reflexivity |].
        split; [exact I6 |]. split; [exact I7 |]. split.
        -- intros j saj Hj Hsaj. apply (I8 j saj); [| exact Hsaj].
           apply elem_of_cons in Hj as [Heq | Hin]; [discriminate Heq | exact Hin].
        -- intros j Hj. apply I9. intros Hin. apply Hj.
           apply elem_of_cons. right. exact Hin.
    + destruct (Hr i) as (sa & Hsa & Hcase); [apply elem_of_cons; left; reflexivity |].
      assert (Hh : run_stages run !! i = Some (held env sa)).
      { destruct Hcase as [Hh | (_ & Hbefore)]; [exact Hh |].
        specialize (Hbefore [] rest eq_refl).
        apply elem_of_nil in Hbefore. contradiction. }
      assert (Hlt : (i < length ids)%nat).
      { apply lookup_lt_is_Some. eauto. }
      rewrite (observed_access_Returns env ids run i sa Hsa Hh).
      match goal with
      | |- context [fold_left _ rest ?r] => set (run1 := r)
      end.
      destruct (IH run1) as (I1 & I2 & I3 & I4 & I5 & I6 & I7 & I8 & I9).
      * split; [exact Hnd |]. split.
        -- intros j Hj.
           destruct (Hf j) as (Hwj & Hsj); [apply elem_of_cons; right; exact Hj |].
           assert (Hne : i <> j).
           { intros ->. rewrite Hh in Hwj. injection Hwj as Hwj.
             exact (held_not_Waiting env sa Hwj). }
           subst run1. simpl. rewrite list_lookup_insert_ne by exact Hne. auto.
        -- intros j Hj.
           assert (Hne : i <> j) by (intros ->; contradiction).
           destruct (Hr j) as (saj & Hsaj & Hcasej);
             [apply elem_of_cons; right; exact Hj |].
           exists saj. split; [exact Hsaj |]. subst run1. simpl.
           rewrite list_lookup_insert_ne by exact Hne.
           destruct Hcasej as [Hhj | (Hwj & Hbefore)]; [left; exact Hhj |].
           right. split; [exact Hwj |]. intros l1 l2 E.
           specialize (Hbefore (Returns i :: l1) l2).
           rewrite E in Hbefore. specialize (Hbefore eq_refl).
           apply elem_of_cons in Hbefore as [Heq | Hin]; [discriminate Heq | exact Hin].
      * subst run1. simpl. rewrite length_insert. exact Hls.
      * subst run1. simpl. rewrite length_insert. exact Hlr.
      * subst run1. simpl. rewrite length_insert. exact Hle.
      * assert (Ef : fetched ids (Returns i :: rest) = fetched ids rest).
        { unfold fetched. reflexivity. }
        assert (Er : returned ids (Returns i :: rest) = sa :: returned ids rest).
        { unfold returned. simpl. rewrite Hsa. reflexivity. }
        rewrite Ef, Er.
        assert (Hres1 : run_res run1 !! i = Some (observed_slot env sa)
                        /\ run_errs run1 !! i = Some None).
        { subst run1. simpl. rewrite !list_lookup_insert_eq by lia. auto. }
        assert (Hbad1 : badSAs (fst (run_shared run1))
                        = (badSAs (fst (run_shared run))
                           ++ filter (fun sa => fetch_fails env sa = true) [sa])%list).
        { subst run1. simpl. destruct (fetch_fails env sa) eqn:Eff.
          - rewrite filter_cons_True by exact Eff. reflexivity.
          - rewrite filter_cons_False by congruence. simpl.
            rewrite app_nil_r. reflexivity. }
        assert (Hk1 : serviceAccountIDs (fst (run_shared run1))
                      = serviceAccountIDs (fst (run_shared run))
                      /\ observedKeys (fst (run_shared run1))
                         = observedKeys (fst (run_shared run))
                      /\ groundTruthKeys (fst (run_shared run1))
                         = groundTruthKeys (fst (run_shared run))
                      /\ snd (run_shared run1) = snd (run_shared run)).
        { subst run1. simpl. destruct (fetch_fails env sa); auto. }
        destruct Hk1 as (K1 & K2 & K3 & K4).
        split; [congruence |]. split; [congruence |]. split; [congruence |].
        split.
        { rewrite I4, Hbad1, <- app_assoc.
          change (sa :: returned ids rest) with ([sa] ++ returned ids rest)%list.
          rewrite filter_app. reflexivity. }
        split; [rewrite I5, K4; reflexivity |].
        split; [exact I6 |]. split; [exact I7 |]. split.
        -- intros j saj Hj Hsaj.
           apply elem_of_cons in Hj as [Heq | Hin].
           ++ injection Heq as ->. assert (saj = sa) by congruence. subst saj.
              destruct (I9 i Hnotin) as (-> & ->). exact Hres1.
           ++ exact (I8 j saj Hin Hsaj).
        -- intros j Hj.
           assert (Hne : i <> j).
           { intros ->. apply Hj. apply elem_of_cons. left. reflexivity. }
           destruct (I9 j) as (-> & ->).
           { intros Hin. apply Hj. apply elem_of_cons. right. exact Hin. }
           subst run1. simpl. rewrite !list_lookup_insert_ne by exact Hne. auto.
Qed.

Lemma omap_fmap_compose {A B C : Type} (f : B -> option C) (g : A -> B) (l : list A) :
  omap f (g <$> l) = omap (fun x => f (g x)) l.
Proof.
  induction l as [| x l IH]; [reflexivity |].
  rewrite fmap_cons. cbn [omap list_omap]. rewrite IH. reflexivity.
Qed.

Lemma omap_none {A B : Type} (l : list A) : omap (fun _ : A => @None B) l = [].
Proof. induction l as [| x l IH]; [reflexivity | exact IH]. Qed.

Lemma complete_run_elem n accesses :
  complete_run n accesses ->
  NoDup accesses
  /\ (forall i, Fetches i ∈ accesses <-> (i < n)%nat)
  /\ (forall i, Returns i ∈ accesses <-> (i < n)%nat).
Proof.
  intros (Hperm & _).
  assert (Hf : forall i, Fetches i ∈ ((Fetches <$> seq 0 n) ++ (Returns <$> seq 0 n))%list
                         <-> (i < n)%nat).
  { intros i. rewrite elem_of_app, !list_elem_of_fmap. split.
    - intros [(j & E & Hj) | (j & E & _)]; [| discriminate E].
      injection E as ->. apply elem_of_seq in Hj. lia.
    - intros Hlt. left. exists i. split; [reflexivity |]. apply elem_of_seq. lia. }
  assert (Hr : forall i, Returns i ∈ ((Fetches <$> seq 0 n) ++ (Returns <$> seq 0 n))%list
                         <-> (i < n)%nat).
  { intros i. rewrite elem_of_app, !list_elem_of_fmap. split.
    - intros [(j & E & _) | (j & E & Hj)]; [discriminate E |].
      injection E as ->. apply elem_of_seq in Hj. lia.
    - intros Hlt. right. exists i. split; [reflexivity |]. apply elem_of_seq. lia. }
  split; [| split].
  - rewrite Hperm. apply NoDup_app. split; [| split].
    + apply NoDup_fmap_2_strong; [| apply NoDup_seq].
      intros x y _ _ E. injection E as ->. reflexivity.
    + intros a Ha Hb. apply list_elem_of_fmap in Ha as (x & -> & _).
      apply list_elem_of_fmap in Hb as (y & E & _). discriminate E.
    + apply NoDup_fmap_2_strong; [| apply NoDup_seq].
      intros x y _ _ E. injection E as ->. reflexivity.
  - intros i. rewrite Hperm. apply Hf.
  - intros i. rewrite Hperm. apply Hr.
Qed.

Lemma complete_run_on_course env ids accesses :
  complete_run (length ids) accesses ->
  on_course env ids (replicate (length ids) Waiting) accesses.
Proof.
  intros Hc. destruct (complete_run_elem _ _ Hc) as (Hnd & Hf & Hr).
  destruct Hc as (_ & Hbefore).
  split; [exact Hnd |]. split.
  - intros i Hi. apply Hf in Hi. split.
    + apply lookup_replicate_2. exact Hi.
    + apply lookup_lt_is_Some. exact Hi.
  - intros i Hi. apply Hr in Hi.
    destruct (lookup_lt_is_Some_2 ids i Hi) as (sa & Hsa).
    exists sa. split; [exact Hsa |]. right. split.
    + apply lookup_replicate_2. exact Hi.
    + intros l1 l2 E. exact (Hbefore l1 l2 i E).
Qed.

Lemma fetched_scheduled ids accesses :
  fetched ids accesses = scheduled ids (fetch_order accesses).
Proof.
  unfold fetched, scheduled, fetch_order.
  induction accesses as [| [i | i] rest IH]; [reflexivity | | exact IH].
  cbn [omap list_omap]. destruct (ids !! i); rewrite IH; reflexivity.
Qed.

Lemma complete_run_orders ids accesses :
  complete_run (length ids) accesses ->
  fetched ids accesses ≡ₚ ids
  /\ returned ids accesses ≡ₚ ids
  /\ fetch_order accesses ≡ₚ seq 0 (length ids).
Proof.
  intros (Hperm & _).
  pose proof (scheduled_seq ids []) as Eseq. simpl in Eseq.
  unfold fetched, returned, fetch_order. rewrite !Hperm, !omap_app.
  rewrite !omap_fmap_compose. cbn beta iota.
  rewrite Eseq, !omap_none, !app_nil_r. simpl.
  split; [reflexivity |]. split; [reflexivity |].
  clear. generalize 0%nat.
  induction (length ids) as [| n IH]; intros j; [reflexivity |].
  simpl. rewrite IH. reflexivity.
Qed.

(** The public phase, whatever the interleaving of the accesses. *)
Lemma FetchObservedKeys_interleaved_result env accesses k trace :
  complete_run (length (serviceAccountIDs k)) accesses ->
  FetchObservedKeys_interleaved env accesses (k, trace)
  = Ok (None,
        ({| serviceAccountIDs := serviceAccountIDs k;
            observedKeys := observed_slot env <$> serviceAccountIDs k;
            groundTruthKeys := groundTruthKeys k;
            badSAs := badSAs k
                      ++ filter (fun sa => fetch_fails env sa = true)
                           (returned (serviceAccountIDs k) accesses) |},
         (trace ++ (get_request <$> fetched (serviceAccountIDs k) accesses))%list)).
Proof.
  intros Hc. unfold FetchObservedKeys_interleaved.
  cbn [serviceAccountIDs set_observedKeys].
  set (ids := serviceAccountIDs k) in *.
  match goal with
  | |- context [fold_left _ accesses ?r] => set (run0 := r)
  end.
  destruct (run_accesses_spec env ids accesses run0)
    as (I1 & I2 & I3 & I4 & I5 & I6 & I7 & I8 & _).
  { apply complete_run_on_course. exact Hc. }
  { apply length_replicate. }
  { apply length_replicate. }
  { apply length_replicate. }
  destruct (complete_run_elem _ _ Hc) as (_ & _ & Hr).
  set (run' := fold_left (observed_access env ids) accesses run0) in *.
  assert (Herrs : errors_Join (run_errs run') = None).
  { apply errors_Join_nil. apply Forall_lookup. intros i e He.
    assert (Hlt : (i < length ids)%nat).
    { rewrite <- I7. eapply lookup_lt_Some. exact He. }
    destruct (lookup_lt_is_Some_2 ids i Hlt) as (sa & Hsa).
    destruct (I8 i sa (proj2 (Hr i) Hlt) Hsa) as (_ & He').
    congruence. }
  assert (Hres : run_res run' = observed_slot env <$> ids).
  { apply list_eq. intros i. rewrite list_lookup_fmap.
    destruct (ids !! i) as [sa |] eqn:Hsa.
    - assert (Hlt : (i < length ids)%nat) by (apply lookup_lt_is_Some; eauto).
      destruct (I8 i sa (proj2 (Hr i) Hlt) Hsa) as (-> & _). reflexivity.
    - apply lookup_ge_None in Hsa. apply lookup_ge_None. lia. }
  destruct (run_shared run') as [k1 tr1].
  cbn [fst snd] in I1, I2, I3, I4, I5.
  subst run0. cbn [run_shared fst snd serviceAccountIDs observedKeys
                     groundTruthKeys badSAs] in I1, I2, I3, I4, I5.
  rewrite Herrs, Hres. subst tr1.
  destruct k1 as [ids1 obs1 gt1 bad1]. cbn in I1, I2, I3, I4.
  unfold set_observedKeys. cbn. subst ids1 gt1 bad1. reflexivity.
Qed.

Lemma atomic_run_complete n sched :
  sched ≡ₚ seq 0 n -> complete_run n (atomic_run sched).
Proof.
  intros Hperm. split.
  - rewrite <- Hperm. clear.
    induction sched as [| i sched IH]; [reflexivity |].
    change (atomic_run (i :: sched)) with (Fetches i :: Returns i :: atomic_run sched).
    rewrite !fmap_cons. cbn [app]. apply perm_skip.
    rewrite IH. apply Permutation_middle.
  - clear. induction sched as [| j sched IH]; intros l1 l2 i E.
    + destruct l1; discriminate E.
    + change (atomic_run (j :: sched))
        with (Fetches j :: Returns j :: atomic_run sched) in E.
      destruct l1 as [| a1 [| a2 l1]]; cbn [app] in E.
      * discriminate E.
      * simplify_eq. apply elem_of_cons. left. reflexivity.
      * simplify_eq. do 2 (apply elem_of_cons; right).
        eapply IH. eassumption.
Qed.

Lemma atomic_run_orders ids sched :
  fetched ids (atomic_run sched) = scheduled ids sched
  /\ returned ids (atomic_run sched) = scheduled ids sched.
Proof.
  unfold fetched, returned, scheduled.
  induction sched as [| i sched IH]; [split; reflexivity |].
  change (atomic_run (i :: sched)) with (Fetches i :: Returns i :: atomic_run sched).
  destruct IH as (IH1 & IH2). cbn [omap list_omap].
  destruct (ids !! i); rewrite IH1, IH2; split; reflexivity.
Qed.

(** X12. Whatever the interleaving of the accesses of its goroutines, the
    public phase returns the nil error, having sent one GET for each
    principal of the batch and nothing else, in the order of the first
    accesses. It appends to the bad list the principals whose fetch failed,
    in the order in which their goroutines returned, which need not be the
    order of the requests; a principal stays or becomes bad and no other is,
    every slot holds what the fetch of its principal gave, and the
    ground-truth slots are not touched. The phase in which every goroutine
    runs as one step is the run in which no access falls between the two of
    a goroutine, and for the order of the requests it returns the same
    error, requests and slots, and the same bad list up to its order. *)
Theorem FetchObservedKeys_requests (env : Env) (accesses : list Access)
    (k : KeyCollection) (trace : list Call) :
  let ids := serviceAccountIDs k in
  complete_run (length ids) accesses ->
  exists k',
    FetchObservedKeys_interleaved env accesses (k, trace)
    = Ok (None, (k', (trace ++ (get_request <$> fetched ids accesses))%list))
    /\ fetched ids accesses ≡ₚ ids
    /\ returned ids accesses ≡ₚ ids
    /\ serviceAccountIDs k' = ids
    /\ observedKeys k' = observed_slot env <$> ids
    /\ groundTruthKeys k' = groundTruthKeys k
    /\ badSAs k'
       = (badSAs k ++ filter (fun sa => fetch_fails env sa = true)
                        (returned ids accesses))%list
    /\ (forall sa, sa ∈ badSAs k'
                   <-> sa ∈ badSAs k \/ (sa ∈ ids /\ fetch_fails env sa = true))
    /\ (exists k'',
          FetchObservedKeys env (fetch_order accesses) (k, trace)
          = Ok (None, (k'', (trace ++ (get_request <$> fetched ids accesses))%list))
          /\ serviceAccountIDs k'' = serviceAccountIDs k'
          /\ observedKeys k'' = observedKeys k'
          /\ groundTruthKeys k'' = groundTruthKeys k'
          /\ badSAs k'' ≡ₚ badSAs k')
    /\ (forall sched,
          sched ≡ₚ seq 0 (length ids) ->
          FetchObservedKeys env sched (k, trace)
          = FetchObservedKeys_interleaved env (atomic_run sched) (k, trace)).
Proof.
  intros ids Hc.
  destruct (complete_run_orders ids accesses Hc) as (Pf & Pr & Po).
  rewrite (FetchObservedKeys_interleaved_result env accesses k trace Hc).
  fold ids. eexists. split; [reflexivity |].
  cbn [serviceAccountIDs observedKeys groundTruthKeys badSAs].
  split; [exact Pf |]. split; [exact Pr |].
  do 4 (split; [reflexivity |]). split; [| split].
  - intros sa. rewrite elem_of_app, list_elem_of_filter, Pr. tauto.
  - rewrite (FetchObservedKeys_result env (fetch_order accesses) k trace Po).
    fold ids. rewrite <- fetched_scheduled.
    eexists. split; [reflexivity |].
    cbn [serviceAccountIDs observedKeys groundTruthKeys badSAs].
    do 3 (split; [reflexivity |]).
    apply Permutation_app_head. rewrite Pf, Pr. reflexivity.
  - intros sched Hperm.
    rewrite (FetchObservedKeys_result env sched k trace Hperm).
    rewrite (FetchObservedKeys_interleaved_result env (atomic_run sched) k trace
               (atomic_run_complete _ _ Hperm)).
    fold ids. destruct (atomic_run_orders ids sched) as (-> & ->). reflexivity.
Qed.

Lemma FetchObservedKeys_requests_witness :
  exists k',
    FetchObservedKeys_interleaved SampleEnv.env
      [Fetches 0; Fetches 1; Returns 1; Returns 0]
      (NewKeyCollection ["ghost@prj"; "nobody@prj"], [])
    = Ok (None, (k', [get_request "ghost@prj"; get_request "nobody@prj"]))
    /\ badSAs k' = ["nobody@prj"; "ghost@prj"].
Proof.
  destruct (FetchObservedKeys_requests SampleEnv.env
              [Fetches 0; Fetches 1; Returns 1; Returns 0]
              (NewKeyCollection ["ghost@prj"; "nobody@prj"]) [])
    as (k' & E & _ & _ & _ & _ & _ & Hbad & _).
  - split.
    + simpl. do 2 apply perm_skip. apply perm_swap.
    + intros l1 l2 i E.
      destruct l1 as [| a1 [| a2 [| a3 [| a4 l1]]]]; cbn [app] in E;
        try discriminate E.
      * simplify_eq. apply elem_of_cons. right. apply elem_of_cons. left. reflexivity.
      * simplify_eq. apply elem_of_cons. left. reflexivity.
      * simplify_eq. destruct l1; discriminate.
  - exists k'. split; [exact E | exact Hbad].
Defined.

Lemma ground_calls_filter env k (l : list string) :
  concat (ground_calls env k <$> l)
  = list_request <$> filter (fun sa => isBadSA k sa = false
                                        /\ limiter_Wait env sa = None) l.
Proof.
  induction l as [| sa l IH]; [reflexivity |].
  rewrite fmap_cons. cbn [concat]. rewrite IH. unfold ground_calls at 1.
  destruct (isBadSA k sa) eqn:Eb.
  - rewrite filter_cons_False by (intros [H _]; congruence). reflexivity.
  - destruct (limiter_Wait env sa) as [err |] eqn:Ew.
    + rewrite filter_cons_False by (intros [_ H]; congruence). reflexivity.
    + rewrite filter_cons_True by auto. reflexivity.
Qed.

(** The ground-truth phase, whatever the order of its goroutines, once the
    IAM client exists and no key name makes a task panic. *)
Lemma FetchGroundTruthKeys_result env sched k trace :
  sched ≡ₚ seq 0 (length (serviceAccountIDs k)) ->
  iam_NewService env = None ->
  wellformed_key_names env (serviceAccountIDs k) ->
  let ids := serviceAccountIDs k in
  let k0 := set_groundTruthKeys k (replicate (length ids) None) in
  let calls := list_request <$> filter (fun sa => isBadSA k sa = false
                                                   /\ limiter_Wait env sa = None)
                                  (scheduled ids sched) in
  FetchGroundTruthKeys env sched (k, trace)
  = Ok (match errors_Join ((fun sa => snd (ground_slot env k sa)) <$> ids) with
        | Some e =>
            (fmt_Errorf "error getting keys from GCP API: %v" [vError e],
             (k0, (trace ++ calls)%list))
        | None =>
            (None,
             (set_groundTruthKeys k0 ((fun sa => fst (ground_slot env k sa)) <$> ids),
              (trace ++ calls)%list))
        end).
Proof.
  intros Hperm Hiam Hwf ids k0 calls.
  unfold FetchGroundTruthKeys, iamService, parllelMap. rewrite Hiam. simpl.
  fold ids. fold k0.
  destruct (run_goroutines_spec (groundTruthTask env) ids (fun st => fst st = k0)
              (fun sa => fst (ground_slot env k0 sa))
              (fun sa => snd (ground_slot env k0 sa))
              (ground_effect env k0)) with
    (sched := sched) (st := (k0, trace))
    (res := replicate (length ids) (None : option (gmap string ServiceAccountKey)))
    (errs := replicate (length ids) (None : option Text))
    as (Erun & _).
  { intros sa [k1 tr] Hin Hk1. simpl in Hk1. subst k1.
    rewrite (groundTruthTask_spec env ids k0 sa tr Hwf Hin).
    destruct (ground_slot env k0 sa). split; reflexivity. }
  { reflexivity. }
  rewrite Erun. simpl.
  rewrite !writes_all by (rewrite ?length_replicate; auto).
  rewrite ground_effects, ground_calls_filter.
  change (ground_slot env k0) with (ground_slot env k).
  change (isBadSA k0) with (isBadSA k). fold calls.
  destruct (errors_Join ((fun sa => snd (ground_slot env k sa)) <$> ids)); reflexivity.
Qed.

Lemma filter_ext_elem {A : Type} (P Q : A -> Prop)
    `{forall x, Decision (P x)} `{forall x, Decision (Q x)} (l : list A) :
  (forall x, x ∈ l -> (P x <-> Q x)) -> filter P l = filter Q l.
Proof.
  induction l as [| x l IH]; intros Hpq; [reflexivity |].
  assert (Hx : P x <-> Q x) by (apply Hpq, elem_of_cons; auto).
  assert (Hl : filter P l = filter Q l).
  { apply IH. intros y Hy. apply Hpq, elem_of_cons. auto. }
  destruct (decide (P x)) as [Hp | Hp].
  - rewrite !filter_cons_True by tauto. f_equal. exact Hl.
  - rewrite !filter_cons_False by tauto. exact Hl.
Qed.

(** X13. When the wait and the API call of every principal that is not bad
    succeed, the ground-truth phase returns the nil error, having sent one
    Keys.List request for each such principal and none for a bad one. The
    slot of a principal that is not bad holds the map its call returned,
    the slot of a bad one the nil map; the bad list and the observed
    certificates are as before. *)
Theorem FetchGroundTruthKeys_success (env : Env) (sched : list nat)
    (k : KeyCollection) (trace : list Call) :
  let ids := serviceAccountIDs k in
  sched ≡ₚ seq 0 (length ids) ->
  iam_NewService env = None ->
  wellformed_key_names env ids ->
  (forall sa, sa ∈ ids -> isBadSA k sa = false ->
     limiter_Wait env sa = None
     /\ exists keys, Keys_List_Do env (keys_name sa) = inl keys) ->
  exists k' sent,
    FetchGroundTruthKeys env sched (k, trace)
    = Ok (None, (k', (trace ++ (list_request <$> sent))%list))
    /\ sent ≡ₚ filter (fun sa => isBadSA k sa = false) ids
    /\ badSAs k' = badSAs k
    /\ observedKeys k' = observedKeys k
    /\ length (groundTruthKeys k') = length ids
    /\ forall i sa, ids !! i = Some sa ->
         if isBadSA k sa
         then groundTruthKeys k' !! i = Some None
         else exists res trace',
                getServiceAccountKeys env sa [] = Ok ((Some res, None), trace')
                /\ groundTruthKeys k' !! i = Some (Some res).
Proof.
  intros ids Hperm Hiam Hwf Hok.
  pose proof (FetchGroundTruthKeys_result env sched k trace Hperm Hiam Hwf) as E.
  cbv zeta in E. fold ids in E.
  assert (Hslot : forall sa, sa ∈ ids ->
             if isBadSA k sa then ground_slot env k sa = (None, None)
             else exists res trace',
                    getServiceAccountKeys env sa [] = Ok ((Some res, None), trace')
                    /\ ground_slot env k sa = (Some res, None)).
  { intros sa Hin. unfold ground_slot, getServiceAccountKeys.
    destruct (isBadSA k sa) eqn:Eb; [reflexivity |].
    destruct (Hok sa Hin Eb) as (Hw & keys & Hk). rewrite Hw, Hk.
    destruct (collect_keys_returns keys ∅ (Hwf sa keys Hin Hk)) as (res & ->).
    simpl. eauto. }
  rewrite errors_Join_nil in E.
  2: { apply Forall_fmap, Forall_forall. intros sa Hin. simpl.
       specialize (Hslot sa Hin). destruct (isBadSA k sa).
       - rewrite Hslot. reflexivity.
       - destruct Hslot as (res & tr & _ & ->). reflexivity. }
  rewrite E.
  eexists _, (filter (fun sa => isBadSA k sa = false) (scheduled ids sched)).
  split.
  { do 5 f_equal. apply filter_ext_elem. intros sa Hin.
    apply scheduled_elem in Hin. split; [tauto |].
    intros Hb. split; [exact Hb |]. apply Hok; assumption. }
  split; [rewrite (scheduled_all ids sched Hperm); reflexivity |].
  simpl. split; [reflexivity |]. split; [reflexivity |].
  split; [apply length_fmap |].
  intros i sa Hi. rewrite list_lookup_fmap, Hi. simpl.
  specialize (Hslot sa (list_elem_of_lookup_2 _ _ _ Hi)).
  destruct (isBadSA k sa).
  - rewrite Hslot. reflexivity.
  - destruct Hslot as (res & tr & Hg & ->). eauto.
Qed.

Lemma FetchGroundTruthKeys_success_witness :
  exists k' sent,
    FetchGroundTruthKeys SampleEnv.env [1; 0]%nat
      ({| serviceAccountIDs := ["good@prj"; "ghost@prj"];
          observedKeys := [None; None];
          groundTruthKeys := [];
          badSAs := ["ghost@prj"] |}, [])
    = Ok (None, (k', list_request <$> sent))
    /\ sent ≡ₚ ["good@prj"].
Proof.
  pose proof (FetchGroundTruthKeys_success SampleEnv.env [1; 0]%nat
                {| serviceAccountIDs := ["good@prj"; "ghost@prj"];
                   observedKeys := [None; None];
                   groundTruthKeys := [];
                   badSAs := ["ghost@prj"] |} []) as H.
  cbv zeta in H. destruct H as (k' & sent & E & Hs & _).
  - simpl. apply perm_swap.
  - reflexivity.
  - intros sa keys Hin Hk. simpl in Hin.
    apply elem_of_cons in Hin as [-> | Hin];
      [| apply elem_of_cons in Hin as [-> | Hin];
         [| apply elem_of_nil in Hin; contradiction]].
    + vm_compute in Hk. injection Hk as <-.
      apply Forall_cons_2; [| apply Forall_nil_2]. vm_compute. eauto.
    + vm_compute in Hk. discriminate Hk.
  - intros sa Hin Hb. simpl in Hin.
    apply elem_of_cons in Hin as [-> | Hin];
      [| apply elem_of_cons in Hin as [-> | Hin];
         [| apply elem_of_nil in Hin; contradiction]].
    + split; [reflexivity | vm_compute; eauto].
    + vm_compute in Hb. discriminate Hb.
  - exists k', sent. split; [exact E |]. rewrite Hs. vm_compute. reflexivity.
Defined.

(** X14. [FetchKeys] without ground truth is the public phase alone. With ground
    truth the public phase runs first and the ground-truth phase sees its
    bad list: a principal whose fetch failed is never sent to the IAM API,
    and every other principal whose wait succeeds is sent exactly once. *)
Theorem FetchKeys_phases (env : Env) (quotaProject : string)
    (sched1 sched2 : list nat) (k : KeyCollection) (trace : list Call) :
  let ids := serviceAccountIDs k in
  sched1 ≡ₚ seq 0 (length ids) ->
  sched2 ≡ₚ seq 0 (length ids) ->
  badSAs k = [] ->
  iam_NewService env = None ->
  wellformed_key_names env ids ->
  FetchKeys env false quotaProject sched1 sched2 (k, trace)
  = FetchObservedKeys env sched1 (k, trace)
  /\ exists err k' gets lists,
       FetchKeys env true quotaProject sched1 sched2 (k, trace)
       = Ok (err, (k', (trace ++ (get_request <$> gets)
                        ++ (list_request <$> lists))%list))
       /\ gets ≡ₚ ids
       /\ lists ≡ₚ filter (fun sa => fetch_fails env sa = false
                                     /\ limiter_Wait env sa = None) ids
       /\ (forall sa, fetch_fails env sa = true -> sa ∉ lists)
       /\ (forall sa, isBadSA k' sa = true
                      <-> sa ∈ ids /\ fetch_fails env sa = true)
       /\ observedKeys k' = observed_slot env <$> ids.
Proof.
  intros ids Hp1 Hp2 Hnil Hiam Hwf.
  set (k1 := {| serviceAccountIDs := ids;
                observedKeys := observed_slot env <$> ids;
                groundTruthKeys := groundTruthKeys k;
                badSAs := filter (fun sa => fetch_fails env sa = true)
                            (scheduled ids sched1) |}).
  assert (E1 : FetchObservedKeys env sched1 (k, trace)
               = Ok (None, (k1, (trace ++ (get_request <$> scheduled ids sched1))%list))).
  { rewrite (FetchObservedKeys_result env sched1 k trace Hp1).
    fold ids. rewrite Hnil. reflexivity. }
  split.
  { unfold FetchKeys. rewrite E1. reflexivity. }
  unfold FetchKeys. rewrite E1. cbn [mbind Result_bind].
  assert (Hbad : forall sa, isBadSA k1 sa = true <-> sa ∈ ids /\ fetch_fails env sa = true).
  { intros sa. rewrite isBadSA_spec. unfold k1. simpl.
    rewrite list_elem_of_filter, (scheduled_all ids sched1 Hp1). tauto. }
  pose proof (FetchGroundTruthKeys_result env sched2 k1
                (trace ++ (get_request <$> scheduled ids sched1)) Hp2 Hiam Hwf) as E2.
  cbv zeta in E2. change (serviceAccountIDs k1) with ids in E2.
  rewrite E2.
  assert (Hfilter :
    filter (fun sa => isBadSA k1 sa = false /\ limiter_Wait env sa = None)
      (scheduled ids sched2)
    = filter (fun sa => fetch_fails env sa = false /\ limiter_Wait env sa = None)
        (scheduled ids sched2)).
  { apply filter_ext_elem. intros sa Hin. apply scheduled_elem in Hin.
    specialize (Hbad sa).
    destruct (isBadSA k1 sa), (fetch_fails env sa); intuition congruence. }
  rewrite Hfilter.
  set (lists := filter (fun sa => fetch_fails env sa = false
                                  /\ limiter_Wait env sa = None)
                  (scheduled ids sched2)).
  assert (Hlists : forall sa, fetch_fails env sa = true -> sa ∉ lists).
  { intros sa Hf Hin. apply list_elem_of_filter in Hin as [[Hff _] _]. congruence. }
  assert (Hperm : lists ≡ₚ filter (fun sa => fetch_fails env sa = false
                                            /\ limiter_Wait env sa = None) ids).
  { unfold lists. rewrite (scheduled_all ids sched2 Hp2). reflexivity. }
  destruct (errors_Join ((fun sa => snd (ground_slot env k1 sa)) <$> ids));
    simpl; eexists _, _, (scheduled ids sched1), lists;
    rewrite <- app_assoc;
    (split; [reflexivity |]);
    (split; [apply scheduled_all; exact Hp1 |]);
    (split; [exact Hperm |]); (split; [exact Hlists |]);
    (split; [exact Hbad | reflexivity]).
Qed.

Lemma FetchKeys_phases_witness :
  exists err k' gets lists,
    FetchKeys SampleEnv.env true "" [1; 0]%nat [0; 1]%nat
      (NewKeyCollection ["good@prj"; "ghost@prj"], [])
    = Ok (err, (k', ((get_request <$> gets) ++ (list_request <$> lists))%list))
    /\ lists ≡ₚ ["good@prj"].
Proof.
  pose proof (FetchKeys_phases SampleEnv.env "" [1; 0]%nat [0; 1]%nat
                (NewKeyCollection ["good@prj"; "ghost@prj"]) []) as H.
  cbv zeta in H.
  destruct H as (_ & err & k' & gets & lists & E & _ & Hl & _).
  - simpl. apply perm_swap.
  - reflexivity.
  - reflexivity.
  - reflexivity.
  - intros sa keys Hin Hk. simpl in Hin.
    apply elem_of_cons in Hin as [-> | Hin];
      [| apply elem_of_cons in Hin as [-> | Hin];
         [| apply elem_of_nil in Hin; contradiction]].
    + vm_compute in Hk. injection Hk as <-.
      apply Forall_cons_2; [| apply Forall_nil_2]. vm_compute. eauto.
    + vm_compute in Hk. discriminate Hk.
  - exists err, k', gets, lists. split; [exact E |].
    rewrite Hl. vm_compute. reflexivity.
Defined.

(** ** The ids of the ground-truth keys *)

Lemma substring_length_le n : forall m s,
  (String.length (substring n m s) <= String.length s - n)%nat.
Proof.
  induction n as [| n IH]; intros m s.
  - rewrite Nat.sub_0_r. revert s. induction m as [| m IHm]; intros s.
    + destruct s; simpl; lia.
    + destruct s as [| c s]; simpl; [lia |]. specialize (IHm s). lia.
  - destruct s as [| c s]; simpl; [lia | apply IH].
Qed.

Lemma index_found_length sep s i :
  (0 < String.length sep)%nat ->
  index 0 sep s = Some i -> (i + String.length sep <= String.length s)%nat.
Proof.
  intros Hsep H. apply index_correct1 in H.
  pose proof (substring_length_le i (String.length sep) s) as Hle.
  rewrite H in Hle. lia.
Qed.

Lemma substring_all s : substring 0 (String.length s) s = s.
Proof. induction s as [| c s IH]; [reflexivity |]. simpl. f_equal. exact IH. Qed.

Lemma slice_split n : forall s,
  (n <= String.length s)%nat -> s = slice_to s n ++ slice_from s n.
Proof.
  unfold slice_to, slice_from. induction n as [| n IH]; intros s Hn.
  - rewrite Nat.sub_0_r, substring_all. destruct s; reflexivity.
  - destruct s as [| c s]; simpl in Hn; [lia |].
    cbn [substring String.length Nat.sub].
    change (String c (substring 0 n s) ++ ?t) with (String c (substring 0 n s ++ t)).
    f_equal. apply IH. lia.
Qed.

Lemma key_id_cases (name : string) :
  match index 0 "keys/" name with
  | None => key_id name = None
  | Some i =>
      let rest := slice_from name (i + 5) in
      name = slice_to name (i + 5) ++ rest
      /\ match index 0 "keys/" rest with
         | None => key_id name = Some rest
         | Some j => key_id name = Some (slice_to rest (j + 5))
         end
  end.
Proof.
  unfold key_id, strings_SplitAfter.
  destruct (index 0 "keys/" name) as [i |] eqn:Ei.
  - pose proof (index_found_length "keys/" _ _ ltac:(simpl; lia) Ei) as Hlen.
    simpl in Hlen.
    cbv zeta. split.
    + apply slice_split. exact Hlen.
    + destruct name as [| c name]; [simpl in Hlen; lia |].
      cbn [String.length SplitAfter_fuel]. rewrite Ei.
      change (String.length "keys/") with 5%nat.
      set (rest := slice_from (String c name) (i + 5)).
      destruct (index 0 "keys/" rest) as [j |] eqn:Ej.
      * pose proof (index_found_length "keys/" _ _ ltac:(simpl; lia) Ej) as Hj.
        simpl in Hj.
        assert (Hrest : (String.length rest <= String.length name)%nat).
        { unfold rest, slice_from.
          pose proof (substring_length_le (i + 5)
                        (String.length (String c name) - (i + 5)) (String c name)).
          simpl in *. lia. }
        destruct (String.length name) as [| fuel] eqn:El; [lia |].
        cbn [SplitAfter_fuel]. rewrite Ej. reflexivity.
      * destruct (String.length name); cbn [SplitAfter_fuel]; rewrite ?Ej; reflexivity.
  - destruct (String.length name); cbn [SplitAfter_fuel]; rewrite ?Ei; reflexivity.
Qed.

(** X15. The id of a key is the piece that follows the first "keys/" of its name,
    up to and including the next "keys/" when there is one, so it is the
    rest of the name only if "keys/" occurs once; a name without "keys/" has
    no id. *)
Theorem key_id_of_name (name : string) :
  match index 0 "keys/" name with
  | None => key_id name = None
  | Some i =>
      let rest := slice_from name (i + 5) in
      name = slice_to name (i + 5) ++ rest
      /\ match index 0 "keys/" rest with
         | None => key_id name = Some rest
         | Some j => key_id name = Some (slice_to rest (j + 5))
         end
  end.
Proof.
  exact (key_id_cases name).
Qed.

Lemma key_id_some name : is_Some (index 0 "keys/" name) <-> is_Some (key_id name).
Proof.
  pose proof (key_id_cases name) as H.
  destruct (index 0 "keys/" name) as [i |].
  - cbv zeta in H. destruct H as (_ & H).
    destruct (index 0 "keys/" (slice_from name (i + 5))); rewrite H;
      split; eauto.
  - rewrite H. split; intros [x Hx]; discriminate Hx.
Qed.

Lemma collect_keys_spec keys : forall res0,
  (Forall (fun key => is_Some (key_id (Name key))) keys ->
   exists res,
     collect_keys keys res0 = Ok res
     /\ (forall key, key ∈ keys ->
           exists id, key_id (Name key) = Some id /\ is_Some (res !! id))
     /\ (forall id key, res !! id = Some key ->
           res0 !! id = Some key
           \/ (key ∈ keys /\ key_id (Name key) = Some id)))
  /\ (Exists (fun key => key_id (Name key) = None) keys ->
      collect_keys keys res0
      = Panic "runtime error: index out of range [1] with length 1").
Proof.
  induction keys as [| key keys IH]; intros res0.
  - split.
    + intros _. exists res0. split; [reflexivity |]. split.
      * intros key Hin. apply elem_of_nil in Hin. contradiction.
      * auto.
    + intros H. inversion H.
  - cbn [collect_keys]. fold (key_id (Name key)). split.
    + intros Hall. apply Forall_cons_1 in Hall as [[id Hid] Hall].
      rewrite Hid.
      destruct (proj1 (IH (<[id := key]> res0)) Hall) as (res & E & Hin & Hout).
      exists res. split; [exact E |]. split.
      * intros key' Hk. apply elem_of_cons in Hk as [-> | Hk]; [| auto].
        exists id. split; [exact Hid |].
        destruct (res !! id) as [key' |] eqn:El; [eauto |].
        exfalso.
        assert (Hmono : forall keys res0 res id',
                   collect_keys keys res0 = Ok res ->
                   is_Some (res0 !! id') -> is_Some (res !! id')).
        { clear. induction keys as [| k ks IHk]; intros res0 res id' E Hs.
          - simpl in E. injection E as <-. exact Hs.
          - cbn [collect_keys] in E.
            destruct (strings_SplitAfter (Name k) "keys/" !! 1%nat) as [i |];
              [| discriminate E].
            apply (IHk _ _ _ E). rewrite lookup_insert_is_Some'. auto. }
        destruct (Hmono keys _ res id E) as [x Hx];
          [rewrite lookup_insert_eq; eauto | congruence].
      * intros id' key' Hl. destruct (Hout id' key' Hl) as [Hins | [Hk Hi]].
        -- destruct (decide (id = id')) as [<- | Hne].
           ++ rewrite lookup_insert_eq in Hins. injection Hins as <-.
              right. split; [apply elem_of_cons; auto | exact Hid].
           ++ rewrite lookup_insert_ne in Hins by exact Hne. auto.
        -- right. split; [apply elem_of_cons; auto | exact Hi].
    + intros Hex. destruct (key_id (Name key)) as [id |] eqn:Hid; [| reflexivity].
      apply IH. inversion Hex as [? ? Hhead | ? ? Htail]; subst; [congruence | exact Htail].
Qed.

(** X16. [getServiceAccountKeys] sends one Keys.List request. An error of the API
    comes back with the nil map. Otherwise every listed key is filed under
    its id and the map holds nothing else; but a single key whose name has
    no "keys/" makes the call panic. *)
Theorem getServiceAccountKeys_result (env : Env) (sa : string) (trace : list Call) :
  match Keys_List_Do env (keys_name sa) with
  | inr err =>
      getServiceAccountKeys env sa trace
      = Ok ((None, Some err), (trace ++ [list_request sa])%list)
  | inl keys =>
      (Forall (fun key => is_Some (index 0 "keys/" (Name key))) keys ->
       exists res,
         getServiceAccountKeys env sa trace
         = Ok ((Some res, None), (trace ++ [list_request sa])%list)
         /\ (forall key, key ∈ keys ->
               exists id, key_id (Name key) = Some id /\ is_Some (res !! id))
         /\ (forall id key, res !! id = Some key ->
               key ∈ keys /\ key_id (Name key) = Some id))
      /\ (Exists (fun key => index 0 "keys/" (Name key) = None) keys ->
          getServiceAccountKeys env sa trace
          = Panic "runtime error: index out of range [1] with length 1")
  end.
Proof.
  unfold getServiceAccountKeys.
  destruct (Keys_List_Do env (keys_name sa)) as [keys | err]; [| reflexivity].
  destruct (collect_keys_spec keys ∅) as (Hok & Hpanic). split.
  - intros Hall. destruct Hok as (res & E & Hin & Hout).
    { eapply Forall_impl; [exact Hall |]. intros key. apply key_id_some. }
    rewrite E. exists res. split; [reflexivity |]. split; [exact Hin |].
    intros id key Hl. destruct (Hout id key Hl) as [He | H]; [| exact H].
    rewrite lookup_empty in He. discriminate He.
  - intros Hex. rewrite Hpanic; [reflexivity |].
    eapply Exists_impl; [exact Hex |]. intros key Hn. simpl in Hn.
    destruct (key_id (Name key)) eqn:Ek; [| reflexivity].
    assert (Hs : is_Some (index 0 "keys/" (Name key))) by (apply key_id_some; eauto).
    rewrite Hn in Hs. destruct Hs as [x Hx]. discriminate Hx.
Qed.

(** ** Listing the principals *)

Lemma collect_page_spec page : forall ids,
  collect_page ids page
  = (ids ++ (Email <$> filter (fun a => Disabled a = false) page))%list.
Proof.
  unfold collect_page. induction page as [| a page IH]; intros ids; simpl.
  - rewrite app_nil_r. reflexivity.
  - rewrite IH. destruct (Disabled a) eqn:Ed.
    + rewrite filter_cons_False by congruence. reflexivity.
    + rewrite filter_cons_True by exact Ed. rewrite <- app_assoc. reflexivity.
Qed.

(** X17. Listing a project returns the emails of its accounts that are not
    disabled, in the order of the pages and of the accounts within a page;
    if the listing ends in an error, it returns that error and no email at
    all, whatever the pages before the error held. *)
Theorem getServiceAccountIDsInProject_result (ls : Listers) (project : string) :
  let '(pages, err) := Accounts_List_Pages ls ("projects/" ++ project) in
  match err with
  | Some e => getServiceAccountIDsInProject ls project = ([], Some e)
  | None =>
      getServiceAccountIDsInProject ls project
      = (Email <$> filter (fun a => Disabled a = false) (concat pages), None)
  end.
Proof.
  unfold getServiceAccountIDsInProject.
  destruct (Accounts_List_Pages ls ("projects/" ++ project)) as [pages [e |]];
    [reflexivity |].
  f_equal.
  assert (H : forall ids,
             fold_left collect_page pages ids
             = (ids ++ (Email <$> filter (fun a => Disabled a = false)
                                    (concat pages)))%list).
  { induction pages as [| page pages IH]; intros ids; simpl.
    - rewrite app_nil_r. reflexivity.
    - rewrite IH, collect_page_spec, filter_app, fmap_app, app_assoc. reflexivity. }
  apply (H []).
Qed.

Lemma collect_assets_ok (rs : list asset_Resource) (emails : list string) :
  Forall2 (fun r e => email_of r = Ok e) rs emails ->
  forall ids,
    collect_assets (inl <$> rs) ids = Ok ((ids ++ emails)%list, None).
Proof.
  induction 1 as [| r e rs emails Hr _ IH]; intros ids; simpl.
  - rewrite app_nil_r. reflexivity.
  - rewrite Hr. simpl. rewrite IH, <- app_assoc. reflexivity.
Qed.

Lemma collect_assets_stop (rs : list asset_Resource) (emails : list string)
    (rest : list (asset_Resource + Text)) :
  Forall2 (fun r e => email_of r = Ok e) rs emails ->
  forall ids,
    collect_assets ((inl <$> rs) ++ rest) ids = collect_assets rest (ids ++ emails).
Proof.
  induction 1 as [| r e rs emails Hr _ IH]; intros ids; simpl.
  - rewrite app_nil_r. reflexivity.
  - rewrite Hr. simpl. rewrite IH, <- app_assoc. reflexivity.
Qed.

(** X18. While the results the iterator yields have attributes, the search of
    a scope collects the "email" field of each in order, the empty text
    where the field is missing or not a string. It returns these when the
    iterator ends; at the first error of the iterator it returns that error
    and no email at all; and a result without attributes ends the process
    in a nil-pointer panic. *)
Theorem getServiceAccountIDsViaAssetInventory_result (ls : Listers)
    (scope : string) (rs : list asset_Resource) (emails : list string) :
  Forall2 (fun r e => exists fields,
             AdditionalAttributes r = Some fields
             /\ e = GetStringValue (fields !! "email")) rs emails ->
  (SearchAllResources_All ls scope = (inl <$> rs) ->
   getServiceAccountIDsViaAssetInventory ls scope = Ok (emails, None))
  /\ (forall err rest,
        SearchAllResources_All ls scope = ((inl <$> rs) ++ inr err :: rest)%list ->
        getServiceAccountIDsViaAssetInventory ls scope = Ok ([], Some err))
  /\ (forall r rest,
        SearchAllResources_All ls scope = ((inl <$> rs) ++ inl r :: rest)%list ->
        AdditionalAttributes r = None ->
        getServiceAccountIDsViaAssetInventory ls scope
        = Panic "runtime error: invalid memory address or nil pointer dereference").
Proof.
  intros Hrs.
  assert (Hok : Forall2 (fun r e => email_of r = Ok e) rs emails).
  { eapply Forall2_impl; [exact Hrs |].
    intros r e (fields & Hf & ->). unfold email_of. rewrite Hf. reflexivity. }
  unfold getServiceAccountIDsViaAssetInventory. repeat split.
  - intros ->. apply (collect_assets_ok rs emails Hok []).
  - intros err rest ->. rewrite (collect_assets_stop rs emails _ Hok). reflexivity.
  - intros r rest -> Hr. rewrite (collect_assets_stop rs emails _ Hok). simpl.
    unfold email_of. rewrite Hr. reflexivity.
Qed.

Lemma getServiceAccountIDsViaAssetInventory_result_witness :
  getServiceAccountIDsViaAssetInventory
    {| Accounts_List_Pages := fun _ => ([], None);
       asset_NewClient := None;
       SearchAllResources_All := fun _ =>
         [inl {| AdditionalAttributes :=
                   Some {[ "email" := structpb_StringValue "a@prj" ]} |};
          inl {| AdditionalAttributes := Some ∅ |}];
       os_Open := fun _ => None;
       scanner_lines := fun _ => ([], None) |} "folders/1"
  = Ok (["a@prj"; ""], None).
Proof.
  apply (getServiceAccountIDsViaAssetInventory_result _ "folders/1"
           [{| AdditionalAttributes :=
                 Some {[ "email" := structpb_StringValue "a@prj" ]} |};
            {| AdditionalAttributes := Some ∅ |}]
           ["a@prj"; ""]).
  - constructor; [eexists; split; reflexivity |].
    constructor; [eexists; split; reflexivity |].
    constructor.
  - reflexivity.
Defined.

(** ** The flags *)

Lemma count_flags flags : forall count,
  fold_left (fun count (f : bool) => if f then count + 1 else count) flags count
  = count + Z.of_nat (count_set flags).
Proof.
  unfold count_set. induction flags as [| f flags IH]; intros count; simpl; [lia |].
  rewrite IH. destruct f; simpl length; lia.
Qed.

Lemma count_set_zero flags :
  count_set flags = 0%nat <-> forall j, flags !! j <> Some true.
Proof.
  unfold count_set. induction flags as [| f flags IH].
  - split; [intros _ j; rewrite lookup_nil; discriminate | reflexivity].
  - destruct f; cbn [List.filter].
    + split; [discriminate |].
      intros H. exfalso. apply (H 0%nat). reflexivity.
    + rewrite IH. split.
      * intros H [| j]; [discriminate | apply H].
      * intros H j. apply (H (S j)).
Qed.

Lemma checkMultualExcluveFlags_count (flags : list bool) :
  checkMultualExcluveFlags flags = true <-> (count_set flags <= 1)%nat.
Proof.
  unfold checkMultualExcluveFlags. rewrite count_flags, Z.leb_le. lia.
Qed.

(** X19. [checkMultualExcluveFlags] holds exactly when no two of the flags are
    set, that is when at most one is. *)
Theorem checkMultualExcluveFlags_spec (flags : list bool) :
  (checkMultualExcluveFlags flags = true <-> (count_set flags <= 1)%nat)
  /\ ((count_set flags <= 1)%nat
      <-> forall i j, i <> j -> flags !! i = Some true -> flags !! j = Some true -> False).
Proof.
  split.
  - apply checkMultualExcluveFlags_count.
  - induction flags as [| f flags IH].
    + split; [intros _ i j _ Hi; rewrite lookup_nil in Hi; discriminate Hi |].
      intros _. unfold count_set. simpl. lia.
    + unfold count_set in *. destruct f; cbn [List.filter].
      * simpl length. fold (count_set flags). split.
        -- intros Hle. assert (H0 : count_set flags = 0%nat) by lia.
           rewrite count_set_zero in H0.
           intros [| i] [| j] Hne Hi Hj; try congruence; simpl in *;
             first [apply (H0 _ Hi) | apply (H0 _ Hj)].
        -- intros H. assert (H0 : count_set flags = 0%nat); [| lia].
           apply count_set_zero. intros j Hj.
           apply (H 0%nat (S j)); [lia | reflexivity | exact Hj].
      * rewrite IH. split.
        -- intros H [| i] [| j] Hne Hi Hj; try discriminate; try congruence.
           simpl in *. apply (H i j); [congruence | assumption | assumption].
        -- intros H i j Hne Hi Hj. apply (H (S i) (S j)); [congruence | exact Hi | exact Hj].
Qed.

(** X20. The output mode: an error when both --ground-truth and --verbose are
    given; otherwise ground-truth, verbose or normal, ground truth first. *)
Theorem decideOutputMode_spec (fl : Flags) :
  ((exists err, snd (decideOutputMode fl) = Some err)
   <-> flag_groundTruth fl = true /\ flag_verbose fl = true)
  /\ (snd (decideOutputMode fl) = None ->
      fst (decideOutputMode fl)
      = if flag_groundTruth fl then OUTPUT_GROUND_TRUTH
        else if flag_verbose fl then OUTPUT_VERBOSE else OUTPUT_NORMAL)
  /\ (fst (decideOutputMode fl) = OUTPUT_GROUND_TRUTH -> flag_groundTruth fl = true).
Proof.
  unfold decideOutputMode.
  destruct (flag_groundTruth fl), (flag_verbose fl); simpl;
    (split;
     [ split;
       [ intros (err & H); first [discriminate H | auto]
       | intros [H1 H2]; first [discriminate | eauto] ]
     | split; intros H; first [reflexivity | discriminate H] ]).
Qed.

(** X21. The source of the principals: with more than one of --in, arguments,
    --scope and --project given, an error and no lookup; with exactly one
    given, that one; with none, the empty list of arguments. *)
Theorem getTargetServiceAccounts_source (ls : Listers) (env : Env) (fl : Flags) :
  let given := [ negb (String.eqb (flag_inFile fl) "");
                 (0 <? length (flag_Args fl))%nat;
                 negb (String.eqb (flag_scope fl) "");
                 negb (String.eqb (flag_project fl) "") ] in
  ((2 <= count_set given)%nat ->
   exists err, getTargetServiceAccounts ls env fl = Ok ([], Some err))
  /\ (count_set given = 0%nat -> getTargetServiceAccounts ls env fl = Ok ([], None))
  /\ (count_set given = 1%nat ->
      (flag_Args fl <> [] -> getTargetServiceAccounts ls env fl = Ok (flag_Args fl, None))
      /\ (flag_inFile fl <> "" ->
          getTargetServiceAccounts ls env fl
          = Ok (getServiceAccountsFromFile ls (flag_inFile fl)))
      /\ (flag_scope fl <> "" -> asset_NewClient ls = None ->
          getTargetServiceAccounts ls env fl
          = getServiceAccountIDsViaAssetInventory ls (flag_scope fl))
      /\ (flag_project fl <> "" -> iam_NewService env = None ->
          getTargetServiceAccounts ls env fl
          = Ok (getServiceAccountIDsInProject ls (flag_project fl)))
      /\ (flag_project fl <> "" -> iam_NewService env <> None ->
          getTargetServiceAccounts ls env fl = Exit 1)).
Proof.
  intros given. unfold getTargetServiceAccounts, iamService.
  fold given. pose proof (checkMultualExcluveFlags_count given) as Hc.
  subst given. unfold count_set in *.
  destruct (String.eqb_spec (flag_inFile fl) "") as [Ef | Ef];
    destruct (flag_Args fl) as [| a args] eqn:Ea;
    destruct (String.eqb_spec (flag_scope fl) "") as [Es | Es];
    destruct (String.eqb_spec (flag_project fl) "") as [Ep | Ep];
    cbn in *;
    (split; [intros Hle; first [lia | eauto] |]);
    (split; [intros H0; first [lia | reflexivity] |]);
    intros H1; try lia;
    repeat split; intros; try congruence; try reflexivity;
    destruct (asset_NewClient ls); destruct (iam_NewService env);
    try congruence; reflexivity.
Qed.

(** ** The report *)

Lemma key_kind_rsa sa cert N E :
  PublicKey_ cert = rsa_PublicKey N E ->
  exists k', determineKeyKind (NewSAKey sa cert) = Ok (key_kind sa cert, k').
Proof.
  intros Hpk. unfold key_kind.
  destruct (check_returns_with_rsa_key (NewSAKey sa cert)) as (new & Ec & _ & Hlen).
  { simpl. rewrite Hpk. reflexivity. }
  unfold determineKeyKind. rewrite Ec. simpl. unfold resolve. simpl.
  destruct (length new =? 0)%nat eqn:E0; [apply Nat.eqb_eq in E0; lia |].
  simpl. eauto.
Qed.

(** X22. In ground-truth mode, for a key that [determineKeyKind] accepts: a key
    id that the ground-truth map of the principal does not hold (or a nil
    map) ends the process in a nil-pointer panic; a key held with one of the
    three origin/type pairs is flagged exactly when that kind differs from
    the determined one. *)
Theorem report_key_ground_truth (k : KeyCollection) (i : nat)
    (sa keyId : string) (cert : Certificate) (N E : Z)
    (keys : option (gmap string ServiceAccountKey)) :
  PublicKey_ cert = rsa_PublicKey N E ->
  groundTruthKeys k !! i = Some keys ->
  (keys ≫= (fun m => m !! keyId) = None ->
   report_key OUTPUT_GROUND_TRUTH k i sa keyId cert
   = Panic "runtime error: invalid memory address or nil pointer dereference")
  /\ (forall realKey,
        keys ≫= (fun m => m !! keyId) = Some realKey ->
        In (KeyOrigin realKey ++ "/" ++ KeyType realKey) keyKindPrecedence ->
        report_key OUTPUT_GROUND_TRUTH k i sa keyId cert
        = Ok (negb (String.eqb (KeyOrigin realKey ++ "/" ++ KeyType realKey)
                      (key_kind sa cert)))).
Proof.
  intros Hpk Hgt. unfold report_key.
  destruct (key_kind_rsa sa cert N E Hpk) as (k' & ->).
  cbn [mbind Result_bind]. change (String.eqb OUTPUT_GROUND_TRUTH OUTPUT_NORMAL) with false.
  change (String.eqb OUTPUT_GROUND_TRUTH OUTPUT_VERBOSE) with false.
  change (String.eqb OUTPUT_GROUND_TRUTH OUTPUT_GROUND_TRUTH) with true.
  cbv iota. rewrite Hgt. split.
  - intros ->. reflexivity.
  - intros realKey -> Hin. unfold keyTypeAndOriginToMuxedKeyKind.
    destruct (Z.eqb_spec
                (slices_Index keyKindPrecedence
                   (KeyOrigin realKey ++ "/" ++ KeyType realKey)) (-1)) as [E1 | E1].
    + apply slices_Index_absent in E1. contradiction.
    + reflexivity.
Qed.

Lemma report_key_ground_truth_witness :
  report_key OUTPUT_GROUND_TRUTH
    {| serviceAccountIDs := [Samples.sa];
       observedKeys := [];
       groundTruthKeys := [Some ∅];
       badSAs := [] |} 0 Samples.sa "k1" Samples.systemCert
  = Panic "runtime error: invalid memory address or nil pointer dereference".
Proof.
  apply (report_key_ground_truth _ 0%nat Samples.sa "k1" Samples.systemCert
           (2 ^ 2047 + 1) 65537 (Some ∅)).
  - reflexivity.
  - reflexivity.
  - reflexivity.
Defined.

Lemma report_keys_plain mode k i sa certs : forall h,
  mode = OUTPUT_NORMAL \/ mode = OUTPUT_VERBOSE ->
  Forall (fun kc => exists N E, PublicKey_ (snd kc) = rsa_PublicKey N E) certs ->
  report_keys mode k i sa certs h
  = Ok (h || existsb (fun kc => negb (String.eqb (key_kind sa (snd kc))
                                        GOOGLE_PROVIDED_SYSTEM_MANAGED)) certs).
Proof.
  induction certs as [| [keyId cert] certs IH]; intros h Hmode Hrsa.
  - simpl. rewrite orb_false_r. reflexivity.
  - apply Forall_cons_1 in Hrsa as [(N & E & Hpk) Hrsa].
    cbn [report_keys]. unfold report_key.
    destruct (key_kind_rsa sa cert N E Hpk) as (k' & ->).
    cbn [mbind Result_bind].
    assert (Hb : forall b : bool,
               (if String.eqb mode OUTPUT_NORMAL then Ok b
                else if String.eqb mode OUTPUT_VERBOSE then Ok b
                else (Panic "unreachable" : Result bool)) = Ok b).
    { intros b. destruct Hmode as [-> | ->]; reflexivity. }
    destruct Hmode as [-> | ->]; cbn [mbind Result_bind];
      change (String.eqb OUTPUT_NORMAL OUTPUT_NORMAL) with true;
      change (String.eqb OUTPUT_VERBOSE OUTPUT_NORMAL) with false;
      change (String.eqb OUTPUT_VERBOSE OUTPUT_VERBOSE) with true;
      cbv iota; cbn [mbind Result_bind];
      rewrite IH by auto; cbn [existsb snd]; rewrite orb_assoc; reflexivity.
Qed.

(** X23. The loop of [main] counts every principal that is not bad exactly once,
    as good or as bad, and a bad one not at all. *)
Theorem report_accounts_partition (outputMode : string)
    (order : gmap string Certificate -> list (string * Certificate))
    (k : KeyCollection) (ids : list string) :
  forall (i : nat) (good bad good' bad' : Z),
    report_accounts outputMode order k i ids good bad = Ok (good', bad') ->
    good <= good' /\ bad <= bad'
    /\ (good' - good) + (bad' - bad)
       = Z.of_nat (length (filter (fun sa => isBadSA k sa = false) ids)).
Proof.
  induction ids as [| sa ids IH]; intros i good bad good' bad' H.
  - simpl in H. injection H as <- <-. simpl. lia.
  - cbn [report_accounts] in H.
    destruct (isBadSA k sa) eqn:Eb.
    + rewrite filter_cons_False by congruence. apply (IH _ _ _ _ _ H).
    + rewrite filter_cons_True by exact Eb. simpl length.
      destruct (observedKeys k !! i) as [certs |]; [| discriminate H].
      destruct (report_keys outputMode k i sa (range_certs order certs) false)
        as [[|] | |]; cbn [mbind Result_bind] in H; try discriminate H;
        apply IH in H; lia.
Qed.

Lemma report_accounts_partition_witness :
  exists good' bad',
    report_accounts OUTPUT_NORMAL (fun m => map_to_list m)
      {| serviceAccountIDs := ["a"; "b"];
         observedKeys := [None; None];
         groundTruthKeys := [];
         badSAs := ["b"] |} 0 ["a"; "b"] 0 0 = Ok (good', bad')
    /\ good' + bad' = 1.
Proof.
  destruct (report_accounts OUTPUT_NORMAL (fun m => map_to_list m)
              {| serviceAccountIDs := ["a"; "b"];
                 observedKeys := [None; None];
                 groundTruthKeys := [];
                 badSAs := ["b"] |} 0 ["a"; "b"] 0 0) as [[g b] | |] eqn:E;
    try (vm_compute in E; discriminate E).
  exists g, b. split; [reflexivity |].
  pose proof (report_accounts_partition _ _ _ _ _ _ _ _ _ E) as (_ & _ & Hsum).
  rewrite filter_cons_True in Hsum by reflexivity.
  rewrite filter_cons_False in Hsum by (vm_compute; discriminate).
  simpl in Hsum. lia.
Defined.

(** X24. In normal and in verbose mode, on RSA keys, the loop returns, and it
    counts no principal as bad exactly when every key of every principal
    that is not bad is determined GOOGLE_PROVIDED/SYSTEM_MANAGED. *)
Theorem report_accounts_all_system_managed (outputMode : string)
    (order : gmap string Certificate -> list (string * Certificate))
    (k : KeyCollection) (ids : list string) :
  outputMode = OUTPUT_NORMAL \/ outputMode = OUTPUT_VERBOSE ->
  (forall j sa, ids !! j = Some sa -> isBadSA k sa = false ->
     exists certs,
       observedKeys k !! j = Some certs
       /\ Forall (fun kc => exists N E, PublicKey_ (snd kc) = rsa_PublicKey N E)
            (range_certs order certs)) ->
  exists good bad,
    report_accounts outputMode order k 0 ids 0 0 = Ok (good, bad)
    /\ 0 <= bad
    /\ (bad = 0
        <-> forall j sa certs keyId cert,
              ids !! j = Some sa -> isBadSA k sa = false ->
              observedKeys k !! j = Some certs ->
              In (keyId, cert) (range_certs order certs) ->
              exists k', determineKeyKind (NewSAKey sa cert)
                         = Ok (GOOGLE_PROVIDED_SYSTEM_MANAGED, k')).
Proof.
  intros Hmode.
  assert (Hgen : forall ids i good bad,
    (forall j sa, ids !! j = Some sa -> isBadSA k sa = false ->
       exists certs,
         observedKeys k !! (i + j)%nat = Some certs
         /\ Forall (fun kc => exists N E, PublicKey_ (snd kc) = rsa_PublicKey N E)
              (range_certs order certs)) ->
    exists good' bad',
      report_accounts outputMode order k i ids good bad = Ok (good', bad')
      /\ bad <= bad'
      /\ (bad' = bad
          <-> forall j sa certs keyId cert,
                ids !! j = Some sa -> isBadSA k sa = false ->
                observedKeys k !! (i + j)%nat = Some certs ->
                In (keyId, cert) (range_certs order certs) ->
                exists k', determineKeyKind (NewSAKey sa cert)
                           = Ok (GOOGLE_PROVIDED_SYSTEM_MANAGED, k'))).
  { clear ids. induction ids as [| sa ids IH]; intros i good bad Hslots.
    - exists good, bad. split; [reflexivity |]. split; [lia |].
      split; [| reflexivity]. intros _ j sa certs keyId cert Hj.
      rewrite lookup_nil in Hj. discriminate Hj.
    - assert (Hslots' : forall j sa', ids !! j = Some sa' -> isBadSA k sa' = false ->
                exists certs,
                  observedKeys k !! (S i + j)%nat = Some certs
                  /\ Forall (fun kc => exists N E, PublicKey_ (snd kc) = rsa_PublicKey N E)
                       (range_certs order certs)).
      { intros j sa' Hj Hb. destruct (Hslots (S j) sa' Hj Hb) as (certs & Hc & Hr).
        exists certs. split; [| exact Hr]. rewrite <- Hc. f_equal. lia. }
      cbn [report_accounts]. destruct (isBadSA k sa) eqn:Eb.
      + destruct (IH (S i) good bad Hslots') as (g & b & E & Hle & Hiff).
        exists g, b. split; [exact E |]. split; [exact Hle |].
        rewrite Hiff. split.
        * intros H [| j] sa' certs keyId cert Hj Hb Hc Hin.
          -- simpl in Hj. injection Hj as <-. congruence.
          -- apply (H j sa' certs keyId cert Hj Hb); [| exact Hin].
             rewrite <- Hc. f_equal. lia.
        * intros H j sa' certs keyId cert Hj Hb Hc Hin.
          apply (H (S j) sa' certs keyId cert Hj Hb); [| exact Hin].
          rewrite <- Hc. f_equal. lia.
      + destruct (Hslots 0%nat sa eq_refl Eb) as (certs & Hc & Hr).
        rewrite Nat.add_0_r in Hc. rewrite Hc.
        rewrite (report_keys_plain outputMode k i sa _ false Hmode Hr).
        cbn [mbind Result_bind orb].
        set (flagged := existsb (fun kc => negb (String.eqb (key_kind sa (snd kc))
                                                   GOOGLE_PROVIDED_SYSTEM_MANAGED))
                          (range_certs order certs)).
        assert (Hflag : flagged = false
                        <-> forall keyId cert, In (keyId, cert) (range_certs order certs) ->
                              exists k', determineKeyKind (NewSAKey sa cert)
                                         = Ok (GOOGLE_PROVIDED_SYSTEM_MANAGED, k')).
        { unfold flagged. rewrite <- not_true_iff_false, existsb_exists.
          rewrite Forall_forall in Hr. split.
          - intros Hn keyId cert Hin.
            destruct (Hr (keyId, cert)) as (N & E & Hpk);
              [apply list_elem_of_In; exact Hin |].
            destruct (key_kind_rsa sa cert N E Hpk) as (k' & Hk').
            exists k'. rewrite Hk'. do 2 f_equal.
            destruct (String.eqb_spec (key_kind sa cert) GOOGLE_PROVIDED_SYSTEM_MANAGED)
              as [Heq | Hne]; [exact Heq |].
            exfalso. apply Hn. exists (keyId, cert). split; [exact Hin |].
            change (negb (String.eqb (key_kind sa cert) GOOGLE_PROVIDED_SYSTEM_MANAGED)
                    = true).
            apply negb_true_iff, String.eqb_neq. exact Hne.
          - intros Hall ([keyId cert] & Hin & Hneg).
            destruct (Hall keyId cert Hin) as (k' & Hk').
            change (negb (String.eqb (key_kind sa cert) GOOGLE_PROVIDED_SYSTEM_MANAGED)
                    = true) in Hneg.
            unfold key_kind in Hneg. rewrite Hk' in Hneg.
            rewrite String.eqb_refl in Hneg. discriminate Hneg. }
        destruct flagged.
        * destruct (IH (S i) good (bad + 1) Hslots') as (g & b & E & Hle & _).
          exists g, b. split; [exact E |]. split; [lia |]. split; [lia |].
          intros H. exfalso.
          assert (Hf : true = false); [| discriminate Hf].
          apply Hflag. intros keyId cert Hin.
          apply (H 0%nat sa certs keyId cert eq_refl Eb); [| exact Hin].
          rewrite Nat.add_0_r. exact Hc.
        * destruct (IH (S i) (good + 1) bad Hslots') as (g & b & E & Hle & Hiff).
          exists g, b. split; [exact E |]. split; [exact Hle |].
          rewrite Hiff. split.
          -- intros H [| j] sa' certs' keyId cert Hj Hb Hc' Hin.
             ++ simpl in Hj. injection Hj as <-. rewrite Nat.add_0_r in Hc'.
                assert (certs' = certs) by congruence. subst certs'.
                exact (proj1 Hflag eq_refl keyId cert Hin).
             ++ apply (H j sa' certs' keyId cert Hj Hb); [| exact Hin].
                rewrite <- Hc'. f_equal. lia.
          -- intros H j sa' certs' keyId cert Hj Hb Hc' Hin.
             apply (H (S j) sa' certs' keyId cert Hj Hb); [| exact Hin].
             rewrite <- Hc'. f_equal. lia. }
  intros Hslots. destruct (Hgen ids 0%nat 0 0 Hslots) as (g & b & E & Hle & Hiff).
  exists g, b. split; [exact E |]. split; [exact Hle |]. exact Hiff.
Qed.

Lemma report_accounts_all_system_managed_witness :
  exists good bad,
    report_accounts OUTPUT_NORMAL (fun m => map_to_list m)
      {| serviceAccountIDs := [Samples.sa];
         observedKeys := [Some {[ "k1" := Samples.systemCert ]}];
         groundTruthKeys := [];
         badSAs := [] |} 0 [Samples.sa] 0 0 = Ok (good, bad)
    /\ bad = 0.
Proof.
  destruct (report_accounts_all_system_managed OUTPUT_NORMAL (fun m => map_to_list m)
              {| serviceAccountIDs := [Samples.sa];
                 observedKeys := [Some {[ "k1" := Samples.systemCert ]}];
                 groundTruthKeys := [];
                 badSAs := [] |} [Samples.sa]) as (good & bad & E & _ & Hiff).
  - left. reflexivity.
  - intros [| j] sa Hj _; [| destruct j; discriminate Hj].
    eexists. split; [reflexivity |]. simpl. rewrite map_to_list_singleton.
    apply Forall_cons_2; [| apply Forall_nil_2]. simpl. eauto.
  - exists good, bad. split; [exact E |]. apply Hiff.
    intros [| j] sa certs keyId cert Hj _ Hc Hin;
      [| destruct j; discriminate Hj].
    injection Hj as <-. injection Hc as <-. simpl in Hin.
    rewrite map_to_list_singleton in Hin. destruct Hin as [Hin | []].
    injection Hin as <- <-. vm_compute. eauto.
Defined.

(** ** Writing the certificates out *)

Lemma write_certs_ok fs s sa certs : forall written,
  (forall name, os_Create fs name = None /\ pem_Encode fs name = None
                /\ file_Close fs name = None) ->
  write_certs fs s sa certs written
  = (None, (written ++ (pem_file s sa <$> certs))%list).
Proof.
  induction certs as [| [keyID cert] certs IH]; intros written Hfs; simpl.
  - rewrite app_nil_r. reflexivity.
  - destruct (Hfs (pem_file_name s sa keyID)) as (-> & -> & ->).
    rewrite IH by exact Hfs. rewrite <- app_assoc. reflexivity.
Qed.

(** X25. When the directory cannot be made nothing is written. When no call of
    the file system fails, the files written are, for each principal that
    is not bad and in the order of the principals, one file per certificate
    named dir/principal_keyID.pem and holding the raw bytes of the
    certificate; a bad principal has no file. *)
Theorem WritePublicKeysToDir_files (fs : FileSystem)
    (order : gmap string Certificate -> list (string * Certificate))
    (k : KeyCollection) (s : string) :
  (forall err, os_MkdirAll fs s = Some err ->
     exists err', WritePublicKeysToDir fs order k s = Ok (Some err', []))
  /\ (os_MkdirAll fs s = None ->
      (forall name, os_Create fs name = None /\ pem_Encode fs name = None
                    /\ file_Close fs name = None) ->
      (length (serviceAccountIDs k) <= length (observedKeys k))%nat ->
      WritePublicKeysToDir fs order k s
      = Ok (None,
            concat ((fun '(sa, certs) =>
                       if isBadSA k sa then []
                       else pem_file s sa <$> range_certs order certs)
                      <$> zip (serviceAccountIDs k) (observedKeys k)))).
Proof.
  unfold WritePublicKeysToDir. split.
  - intros err ->. eexists. reflexivity.
  - intros -> Hfs Hlen.
    assert (Hgen : forall ids i written,
               (i + length ids <= length (observedKeys k))%nat ->
               write_accounts fs order k s i ids written
               = Ok (None,
                     (written
                      ++ concat ((fun '(sa, certs) =>
                                    if isBadSA k sa then []
                                    else pem_file s sa <$> range_certs order certs)
                                   <$> zip ids (drop i (observedKeys k))))%list)).
    { induction ids as [| sa ids IH]; intros i written Hi.
      - simpl. rewrite app_nil_r. reflexivity.
      - simpl in Hi.
        destruct (observedKeys k !! i) as [certs |] eqn:Ec.
        2: { apply lookup_ge_None in Ec. lia. }
        rewrite (drop_S _ _ _ Ec). cbn [write_accounts zip zip_with fmap list_fmap concat].
        destruct (isBadSA k sa).
        + rewrite IH by lia. reflexivity.
        + rewrite Ec, (write_certs_ok fs s sa _ written Hfs).
          rewrite IH by lia. rewrite <- app_assoc. reflexivity. }
    rewrite (Hgen (serviceAccountIDs k) 0%nat []) by (simpl; lia).
    reflexivity.
Qed.

Lemma WritePublicKeysToDir_files_witness :
  WritePublicKeysToDir
    {| os_MkdirAll := fun _ => None; os_Create := fun _ => None;
       pem_Encode := fun _ => None; file_Close := fun _ => None |}
    (fun m => map_to_list m)
    {| serviceAccountIDs := ["a"; "b"];
       observedKeys := [Some {[ "k1" := Samples.systemCert ]}; None];
       groundTruthKeys := [];
       badSAs := ["b"] |} "out"
  = Ok (None, [{| file_name := "out/a_k1.pem";
                  file_der := Some (Raw Samples.systemCert) |}]).
Proof.
  destruct (WritePublicKeysToDir_files
              {| os_MkdirAll := fun _ => None; os_Create := fun _ => None;
                 pem_Encode := fun _ => None; file_Close := fun _ => None |}
              (fun m => map_to_list m)
              {| serviceAccountIDs := ["a"; "b"];
                 observedKeys := [Some {[ "k1" := Samples.systemCert ]}; None];
                 groundTruthKeys := [];
                 badSAs := ["b"] |} "out") as (_ & H).
  rewrite H.
  - simpl. rewrite map_to_list_singleton. reflexivity.
  - reflexivity.
  - intros name. auto.
  - simpl. lia.
Defined.

(** ** The exit status of main *)

Lemma bind_exit {A B : Type} (m : Result A) (f : A -> Result B) (c : Z) :
  (m ≫= f) = Exit c -> m = Exit c \/ exists a, m = Ok a /\ f a = Exit c.
Proof.
  destruct m as [a | msg | code]; intros H; cbv [mbind Result_bind] in H.
  - right. exists a. split; [reflexivity | exact H].
  - discriminate H.
  - left. injection H as ->. reflexivity.
Qed.

Lemma determineKeyKind_no_exit (k : SAKey) (c : Z) : determineKeyKind k <> Exit c.
Proof.
  unfold determineKeyKind. intros H.
  apply bind_exit in H as [H | (k1 & _ & H)].
  - unfold check in H. apply bind_exit in H as [H | (k2 & _ & H)]; [| discriminate H].
    unfold checkCrypto in H. apply bind_exit in H as [H | (bits & _ & H)].
    + unfold rsa_BitLen in H. destruct (PublicKey_ _); discriminate H.
    + destruct (bits =? 1024); [discriminate H |].
      destruct (negb (bits =? 2048)); discriminate H.
  - apply bind_exit in H as [H | (res & _ & H)]; [| discriminate H].
    unfold resolve in H. destruct (length _ =? 0)%nat; discriminate H.
Qed.

Lemma report_key_no_exit outputMode k i sa keyId cert (c : Z) :
  report_key outputMode k i sa keyId cert <> Exit c.
Proof.
  unfold report_key. intros H.
  apply bind_exit in H as [H | ([keyKind key] & _ & H)].
  - exact (determineKeyKind_no_exit _ _ H).
  - destruct (String.eqb outputMode OUTPUT_NORMAL); [discriminate H |].
    destruct (String.eqb outputMode OUTPUT_VERBOSE); [discriminate H |].
    destruct (String.eqb outputMode OUTPUT_GROUND_TRUTH); [| discriminate H].
    destruct (groundTruthKeys k !! i) as [keys |]; [| discriminate H].
    destruct (keys ≫= _) as [realKey |]; [| discriminate H].
    apply bind_exit in H as [H | (kind & _ & H)]; [| discriminate H].
    unfold keyTypeAndOriginToMuxedKeyKind in H.
    destruct (slices_Index _ _ =? -1); discriminate H.
Qed.

Lemma report_keys_no_exit outputMode k i sa certs : forall b (c : Z),
  report_keys outputMode k i sa certs b <> Exit c.
Proof.
  induction certs as [| [keyId cert] certs IH]; intros b c H; cbn [report_keys] in H.
  - discriminate H.
  - apply bind_exit in H as [H | (b' & _ & H)].
    + exact (report_key_no_exit _ _ _ _ _ _ _ H).
    + exact (IH _ _ H).
Qed.

Lemma report_accounts_no_exit outputMode order k ids : forall i good bad (c : Z),
  report_accounts outputMode order k i ids good bad <> Exit c.
Proof.
  induction ids as [| sa ids IH]; intros i good bad c H; simpl in H.
  - discriminate H.
  - destruct (isBadSA k sa); [exact (IH _ _ _ _ H) |].
    destruct (observedKeys k !! i) as [certs |]; [| discriminate H].
    apply bind_exit in H as [H | ([|] & _ & H)].
    + exact (report_keys_no_exit _ _ _ _ _ _ _ H).
    + exact (IH _ _ _ _ H).
    + exact (IH _ _ _ _ H).
Qed.

Lemma write_accounts_no_exit fs order k s ids : forall i written (c : Z),
  write_accounts fs order k s i ids written <> Exit c.
Proof.
  induction ids as [| sa ids IH]; intros i written c H; simpl in H.
  - discriminate H.
  - destruct (isBadSA k sa); [exact (IH _ _ _ H) |].
    destruct (observedKeys k !! i) as [certs |]; [| discriminate H].
    destruct (write_certs _ _ _ _ _) as [[e |] w]; [discriminate H |].
    exact (IH _ _ _ H).
Qed.

Lemma WritePublicKeysToDir_no_exit fs order k s (c : Z) :
  WritePublicKeysToDir fs order k s <> Exit c.
Proof.
  unfold WritePublicKeysToDir. destruct (os_MkdirAll fs s); [discriminate |].
  apply write_accounts_no_exit.
Qed.

Lemma run_goroutines_exit {St I O : Type} (f : Task St I O) (items : list I) (c : Z) :
  forall sched st res errs,
    run_goroutines f items sched st res errs = Exit c ->
    exists item st', f item st' = Exit c.
Proof.
  induction sched as [| i sched IH]; intros st res errs H; simpl in H.
  - discriminate H.
  - destruct (items !! i) as [item |]; [| exact (IH _ _ _ H)].
    apply bind_exit in H as [H | ([[r err] st'] & _ & H)]; [eauto |].
    exact (IH _ _ _ H).
Qed.

Lemma parllelMap_exit {St I O : Type} (zero : O) (items : list I) (f : Task St I O)
    (sched : list nat) (st : St) (c : Z) :
  parllelMap zero items f sched st = Exit c ->
  exists item st', f item st' = Exit c.
Proof.
  unfold parllelMap. intros H.
  apply bind_exit in H as [H | ([[res errs] st'] & _ & H)].
  - exact (run_goroutines_exit _ _ _ _ _ _ _ H).
  - destruct (errors_Join errs); discriminate H.
Qed.

Lemma observedTask_no_exit env sa st (c : Z) : observedTask env sa st <> Exit c.
Proof.
  destruct st as [k trace]. unfold observedTask.
  destruct semaphore_Acquire_Background; [discriminate |].
  destruct (getServiceAccountKeyCerts env sa trace) as [[res [e |]] tr]; discriminate.
Qed.

Lemma collect_keys_no_exit keys : forall res (c : Z), collect_keys keys res <> Exit c.
Proof.
  induction keys as [| key keys IH]; intros res c H; simpl in H.
  - discriminate H.
  - destruct (_ !! 1%nat); [exact (IH _ _ H) | discriminate H].
Qed.

Lemma groundTruthTask_no_exit env sa st (c : Z) : groundTruthTask env sa st <> Exit c.
Proof.
  destruct st as [k trace]. unfold groundTruthTask.
  destruct (isBadSA k sa); [discriminate |].
  destruct (limiter_Wait env sa); [discriminate |].
  intros H. apply bind_exit in H as [H | ([r tr] & _ & H)]; [| discriminate H].
  unfold getServiceAccountKeys in H.
  destruct (Keys_List_Do env _) as [keys | err]; [| discriminate H].
  apply bind_exit in H as [H | (res & _ & H)]; [| discriminate H].
  exact (collect_keys_no_exit _ _ _ H).
Qed.

Lemma FetchKeys_exit env groundTruth quotaProject sched1 sched2 st (c : Z) :
  FetchKeys env groundTruth quotaProject sched1 sched2 st = Exit c ->
  c = 1 /\ groundTruth = true /\ iam_NewService env <> None.
Proof.
  unfold FetchKeys. intros H.
  apply bind_exit in H as [H | ([[e |] st1] & _ & H)]; [| discriminate H |].
  - exfalso. destruct st as [k trace]. unfold FetchObservedKeys in H.
    apply bind_exit in H as [H | ([[obs err] [k' tr]] & _ & H)].
    + apply parllelMap_exit in H as (item & st' & H).
      exact (observedTask_no_exit _ _ _ _ H).
    + destruct err; discriminate H.
  - destruct groundTruth; [| discriminate H].
    apply bind_exit in H as [H | ([[e |] st2] & _ & H)]; [| discriminate H ..].
    destruct st1 as [k trace]. unfold FetchGroundTruthKeys in H.
    apply bind_exit in H as [H | (u & _ & H)].
    + unfold iamService in H. destruct (iam_NewService env); [| discriminate H].
      injection H as <-. repeat split. discriminate.
    + exfalso. apply bind_exit in H as [H | ([[res err] [k' tr]] & _ & H)].
      * apply parllelMap_exit in H as (item & st' & H).
        exact (groundTruthTask_no_exit _ _ _ _ H).
      * destruct err; discriminate H.
Qed.

Lemma collect_assets_no_exit items : forall ids (c : Z),
  collect_assets items ids <> Exit c.
Proof.
  induction items as [| [res | err] items IH]; intros ids c H; simpl in H;
    [discriminate H | | discriminate H].
  apply bind_exit in H as [H | (e & _ & H)]; [| exact (IH _ _ H)].
  unfold email_of in H. destruct (AdditionalAttributes res); discriminate H.
Qed.

Lemma getTargetServiceAccounts_exit ls env fl (c : Z) :
  getTargetServiceAccounts ls env fl = Exit c -> c = 1.
Proof.
  unfold getTargetServiceAccounts. intros H.
  destruct (negb (checkMultualExcluveFlags _)); [discriminate H |].
  destruct (negb (String.eqb (flag_scope fl) "")).
  { destruct (asset_NewClient ls); [discriminate H |].
    exfalso. exact (collect_assets_no_exit _ _ _ H). }
  destruct (negb (String.eqb (flag_project fl) "")).
  { apply bind_exit in H as [H | (u & _ & H)]; [| discriminate H].
    unfold iamService in H. destruct (iam_NewService env); [| discriminate H].
    injection H as <-. reflexivity. }
  destruct (negb (String.eqb (flag_inFile fl) "")); discriminate H.
Qed.

(** The run of [main] once the command line is parsed. *)
Lemma main_parsed_exit_status (ls : Listers) (env : Env) (fs : FileSystem) (fl : Flags)
    (sched1 sched2 : list nat)
    (order_out order_report : gmap string Certificate -> list (string * Certificate)) :
  (forall u, main ls env fs (flag_parsed fl) sched1 sched2 order_out order_report <> Ok u)
  /\ (forall c, main ls env fs (flag_parsed fl) sched1 sched2 order_out order_report
                = Exit c -> c = 0 \/ c = 1)
  /\ (main ls env fs (flag_parsed fl) sched1 sched2 order_out order_report = Exit 0 ->
      exists ids mode k trace good bad,
        getTargetServiceAccounts ls env fl = Ok (ids, None)
        /\ ids <> []
        /\ decideOutputMode fl = (mode, None)
        /\ FetchKeys env (flag_groundTruth fl) (flag_quotaProject fl) sched1 sched2
             (NewKeyCollection ids, []) = Ok (None, (k, trace))
        /\ (flag_outDir fl <> "" ->
            exists written,
              WritePublicKeysToDir fs order_out k (flag_outDir fl) = Ok (None, written))
        /\ report_accounts mode order_report k 0 ids 0 0 = Ok (good, bad)
        /\ bad <= 0).
Proof.
  unfold main. cbn [flag_Parse mbind Result_bind].
  destruct (getTargetServiceAccounts ls env fl) as [[ids [e |]] | msg | code] eqn:Et;
    simpl.
  1, 3: repeat split; intros; try discriminate; right; congruence.
  2: { apply getTargetServiceAccounts_exit in Et. subst code.
       repeat split; intros; try discriminate; right; congruence. }
  destruct ids as [| sa0 ids0] eqn:Eids.
  { simpl. repeat split; intros; try discriminate; right; congruence. }
  rewrite <- Eids in *.
  replace (length ids =? 0)%nat with false by (subst ids; reflexivity).
  destruct (decideOutputMode fl) as [mode [e |]] eqn:Em.
  { repeat split; intros; try discriminate; right; congruence. }
  destruct (FetchKeys env (flag_groundTruth fl) (flag_quotaProject fl) sched1 sched2
              (NewKeyCollection ids, [])) as [[[e |] [k trace]] | msg | code] eqn:Ef;
    simpl.
  1, 3: repeat split; intros; try discriminate; right; congruence.
  2: { apply FetchKeys_exit in Ef as (-> & _).
       repeat split; intros; try discriminate; right; congruence. }
  assert (Hids : ids <> []) by (subst ids; discriminate).
  destruct (String.eqb (flag_outDir fl) "") eqn:Eo; simpl.
  - apply String.eqb_eq in Eo.
    destruct (report_accounts mode order_report k 0 ids 0 0) as [[good bad] | msg | code] eqn:Er;
      simpl.
    + destruct (0 <? bad) eqn:Eb.
      * repeat split; intros; try discriminate; right; congruence.
      * apply Z.ltb_ge in Eb. repeat split; intros; try discriminate; [left; congruence |].
        exists ids, mode, k, trace, good, bad. repeat split; auto.
        intros Hn. contradiction.
    + repeat split; intros; discriminate.
    + exfalso. exact (report_accounts_no_exit _ _ _ _ _ _ _ _ Er).
  - destruct (WritePublicKeysToDir fs order_out k (flag_outDir fl))
      as [[[e |] written] | msg | code] eqn:Ew; simpl.
    + repeat split; intros; try discriminate; right; congruence.
    + destruct (report_accounts mode order_report k 0 ids 0 0) as [[good bad] | msg | code] eqn:Er;
        simpl.
      * destruct (0 <? bad) eqn:Eb.
        -- repeat split; intros; try discriminate; right; congruence.
        -- apply Z.ltb_ge in Eb.
           repeat split; intros; try discriminate; [left; congruence |].
           exists ids, mode, k, trace, good, bad. repeat split; eauto.
      * repeat split; intros; discriminate.
      * exfalso. exact (report_accounts_no_exit _ _ _ _ _ _ _ _ Er).
    + repeat split; intros; discriminate.
    + exfalso. exact (WritePublicKeysToDir_no_exit _ _ _ _ _ Ew).
Qed.

(** X26. [main] never returns: it ends by [os.Exit] or by a panic, and its
    exit status is 0, 1 or 2. It is 2 exactly when [flag.Parse] meets an
    error other than a request for help. It is 0 on -h or -help, where
    nothing is run, and otherwise only after a complete run: the command
    line parsed, the principals were found and there is at least one, the
    flags give an output mode, both fetch phases and the writing of the
    certificates (when asked for) returned no error, and the report counted
    no bad principal. *)
Theorem main_exit_status (ls : Listers) (env : Env) (fs : FileSystem) (cl : CommandLine)
    (sched1 sched2 : list nat)
    (order_out order_report : gmap string Certificate -> list (string * Certificate)) :
  (forall u, main ls env fs cl sched1 sched2 order_out order_report <> Ok u)
  /\ (forall c, main ls env fs cl sched1 sched2 order_out order_report = Exit c ->
        c = 0 \/ c = 1 \/ c = 2)
  /\ (main ls env fs cl sched1 sched2 order_out order_report = Exit 2
      <-> exists err, cl = flag_error err)
  /\ (cl = flag_ErrHelp ->
      main ls env fs cl sched1 sched2 order_out order_report = Exit 0)
  /\ (main ls env fs cl sched1 sched2 order_out order_report = Exit 0 ->
      cl = flag_ErrHelp
      \/ exists fl ids mode k trace good bad,
           cl = flag_parsed fl
           /\ getTargetServiceAccounts ls env fl = Ok (ids, None)
           /\ ids <> []
           /\ decideOutputMode fl = (mode, None)
           /\ FetchKeys env (flag_groundTruth fl) (flag_quotaProject fl) sched1 sched2
                (NewKeyCollection ids, []) = Ok (None, (k, trace))
           /\ (flag_outDir fl <> "" ->
               exists written,
                 WritePublicKeysToDir fs order_out k (flag_outDir fl)
                 = Ok (None, written))
           /\ report_accounts mode order_report k 0 ids 0 0 = Ok (good, bad)
           /\ bad <= 0).
Proof.
  destruct cl as [fl | | err].
  - destruct (main_parsed_exit_status ls env fs fl sched1 sched2 order_out order_report)
      as (Hok & Hcode & Hzero).
    split; [exact Hok |]. split.
    { intros c Hc. destruct (Hcode c Hc) as [-> | ->]; auto. }
    split.
    { split.
      - intros H2. destruct (Hcode 2 H2) as [E | E]; discriminate E.
      - intros (err & E). discriminate E. }
    split; [discriminate |].
    intros H0. right.
    destruct (Hzero H0) as (ids & mode & k & trace & good & bad & H).
    exists fl, ids, mode, k, trace, good, bad. split; [reflexivity | exact H].
  - split; [discriminate |]. split.
    { intros c Hc. injection Hc as <-. auto. }
    split.
    { split; [discriminate |]. intros (err & E). discriminate E. }
    split; [reflexivity |]. intros _. left. reflexivity.
  - split; [discriminate |]. split.
    { intros c Hc. injection Hc as <-. auto. }
    split.
    { split; [intros _; eauto | reflexivity]. }
    split; [discriminate |]. discriminate.
Qed.

Lemma main_exit_status_witness :
  main SampleRun.listers SampleRun.env SampleRun.fs (flag_parsed SampleRun.flags)
    [0%nat] [0%nat] (fun m => map_to_list m) (fun m => map_to_list m) = Exit 0
  /\ (flag_parsed SampleRun.flags = flag_ErrHelp
      \/ exists fl ids mode k trace good bad,
           flag_parsed SampleRun.flags = flag_parsed fl
           /\ getTargetServiceAccounts SampleRun.listers SampleRun.env fl
              = Ok (ids, None)
           /\ ids <> []
           /\ decideOutputMode fl = (mode, None)
           /\ FetchKeys SampleRun.env (flag_groundTruth fl) (flag_quotaProject fl)
                [0%nat] [0%nat] (NewKeyCollection ids, []) = Ok (None, (k, trace))
           /\ (flag_outDir fl <> "" ->
               exists written,
                 WritePublicKeysToDir SampleRun.fs (fun m => map_to_list m) k
                   (flag_outDir fl) = Ok (None, written))
           /\ report_accounts mode (fun m => map_to_list m) k 0 ids 0 0
              = Ok (good, bad)
           /\ bad <= 0).
Proof.
  assert (H : main SampleRun.listers SampleRun.env SampleRun.fs
                (flag_parsed SampleRun.flags)
                [0%nat] [0%nat] (fun m => map_to_list m) (fun m => map_to_list m)
              = Exit 0)
    by (vm_compute; reflexivity).
  split; [exact H |].
  exact (proj2 (proj2 (proj2 (proj2
           (main_exit_status SampleRun.listers SampleRun.env SampleRun.fs
              (flag_parsed SampleRun.flags) [0%nat] [0%nat]
              (fun m => map_to_list m) (fun m => map_to_list m))))) H).
Defined.
